(** * Back-office admin panel: entity screens over a hosted row store

    A shallow embedding of the admin screens (colors, brands, categories,
    subcategories, audiences, sizes, sellers), of the two image pickers and
    of the relevant part of the hosted backend they talk to.

    The screens are Svelte components whose handlers are [async] functions:
    they read component variables, await backend requests, raise toasts and
    write component variables back.  Each handler is embedded as a function
    in a state monad over a [World] (database tables, request log, toast
    queue, clock), taking and returning the component's variables.  A
    handler runs to its end before the next one starts; a call the source
    does not await (the load started by a page change) is run in place.
    Output to the console is left out. *)

From Stdlib Require Import ZArith Lia Ascii String.
From stdpp Require Import base strings gmap list sorting pretty.

Open Scope Z_scope.

(** ** Cell values and rows

    Rows travel as untyped JSON objects.  A cell is a JSON scalar; timestamps
    and enumerated columns get constructors of their own so that the
    backend can order them the way the database does (an enumerated value is
    its position in the [CREATE TYPE ... AS ENUM] list). *)

Inductive val :=
  | VNull
  | VBool (b : bool)
  | VNum (n : Z)
  | VStr (s : string)
  | VTime (t : Z)
  | VEnum (k : nat).

Global Instance val_eq_dec : EqDecision val.
Proof. solve_decision. Defined.

Abbreviation Row := (gmap string val).

(** [r.col] on a JSON object: an absent column reads as null. *)
Definition cell (r : Row) (col : string) : val := default VNull (r !! col).

(** A field the TypeScript interface declares as [string]. *)
Definition str (r : Row) (col : string) : string :=
  match r !! col with Some (VStr s) => s | _ => "" end.

(** Enumerated types of the migrations, in declaration order. *)
Inductive color_category := primary | neutral | pastel | metallic | pattern | custom.
Inductive size_type := alpha | numeric | custom_size.
Inductive size_category := tops | bottoms | dresses | shoes | accessories | unisex.

Global Instance color_category_eq_dec : EqDecision color_category.
Proof. solve_decision. Defined.
Global Instance size_type_eq_dec : EqDecision size_type.
Proof. solve_decision. Defined.
Global Instance size_category_eq_dec : EqDecision size_category.
Proof. solve_decision. Defined.

Definition color_category_val (c : color_category) : val :=
  VEnum match c with
        | primary => 0 | neutral => 1 | pastel => 2
        | metallic => 3 | pattern => 4 | custom => 5
        end%nat.

Definition size_type_val (t : size_type) : val :=
  VEnum match t with alpha => 0 | numeric => 1 | custom_size => 2 end%nat.

Definition size_category_val (c : size_category) : val :=
  VEnum match c with
        | tops => 0 | bottoms => 1 | dresses => 2
        | shoes => 3 | accessories => 4 | unisex => 5
        end%nat.

(** ** Strings as JavaScript uses them (ASCII fragment) *)

Definition is_space (c : ascii) : bool :=
  let n := nat_of_ascii c in
  Nat.eqb n 32 || (Nat.leb 9 n && Nat.leb n 13).

Fixpoint trimStart (s : string) : string :=
  match s with
  | EmptyString => EmptyString
  | String c s' => if is_space c then trimStart s' else s
  end.

Fixpoint trimEnd (s : string) : string :=
  match s with
  | EmptyString => EmptyString
  | String c s' =>
      match trimEnd s' with
      | EmptyString => if is_space c then EmptyString else String c EmptyString
      | t => String c t
      end
  end.

(** [s.trim()] *)
Definition trim (s : string) : string := trimEnd (trimStart s).

(** Truthiness of a string: only the empty string is falsy. *)
Definition truthy (s : string) : bool :=
  match s with EmptyString => false | _ => true end.

Definition lower (c : ascii) : ascii :=
  let n := nat_of_ascii c in
  if Nat.leb 65 n && Nat.leb n 90 then ascii_of_nat (n + 32) else c.

(** [ILIKE]: [%] matches any run of characters, [_] any one character,
    everything else matches itself up to letter case. *)
Fixpoint ilike_match (pat s : string) : bool :=
  match pat with
  | EmptyString => match s with EmptyString => true | _ => false end
  | String p pat' =>
      if Ascii.eqb p "%" then
        (fix skip (t : string) : bool :=
           ilike_match pat' t ||
           match t with EmptyString => false | String _ t' => skip t' end) s
      else
        match s with
        | EmptyString => false
        | String c s' =>
            (Ascii.eqb p "_" || Ascii.eqb (lower p) (lower c)) && ilike_match pat' s'
        end
  end.

(** ** The backend's query language

    What the client library's builder calls accumulate before a request is
    sent. *)

Inductive Filter :=
  | FEq (col : string) (v : val)                 (* .eq(col, v) *)
  | FNeq (col : string) (v : val)                (* .neq(col, v) *)
  | FIlike (col : string) (pat : string)         (* .ilike(col, pat) *)
  | FOrIlike (alts : list (string * string))     (* .or('c1.ilike.p1,c2.ilike.p2') *)
  | FInner (tbl : string) (fk : string).         (* select('*, tbl!inner(...)') *)

Global Instance Filter_eq_dec : EqDecision Filter.
Proof. solve_decision. Defined.

Record Query := {
  q_from : string;
  q_select : option (list string);   (* None is '*' *)
  q_filters : list Filter;
  q_order : list (string * bool);    (* column, ascending *)
  q_range : option (Z * Z);
  q_count : bool;                    (* { count: 'exact' } *)
  q_head : bool                      (* { head: true } *)
}.

Global Instance Query_eq_dec : EqDecision Query.
Proof. solve_decision. Defined.

Definition from (tbl : string) : Query :=
  {| q_from := tbl; q_select := None; q_filters := []; q_order := [];
     q_range := None; q_count := false; q_head := false |}.

Definition select (cols : option (list string)) (cnt hd : bool) (q : Query) : Query :=
  {| q_from := q_from q; q_select := cols; q_filters := q_filters q;
     q_order := q_order q; q_range := q_range q; q_count := cnt; q_head := hd |}.

Definition add_filter (f : Filter) (q : Query) : Query :=
  {| q_from := q_from q; q_select := q_select q; q_filters := q_filters q ++ [f];
     q_order := q_order q; q_range := q_range q; q_count := q_count q;
     q_head := q_head q |}.

Definition eq (col : string) (v : val) : Query → Query := add_filter (FEq col v).
Definition neq (col : string) (v : val) : Query → Query := add_filter (FNeq col v).
Definition ilike (col pat : string) : Query → Query := add_filter (FIlike col pat).
Definition or_ilike (alts : list (string * string)) : Query → Query :=
  add_filter (FOrIlike alts).
Definition inner (tbl fk : string) : Query → Query := add_filter (FInner tbl fk).

Definition order (col : string) (ascending : bool) (q : Query) : Query :=
  {| q_from := q_from q; q_select := q_select q; q_filters := q_filters q;
     q_order := q_order q ++ [(col, ascending)]; q_range := q_range q;
     q_count := q_count q; q_head := q_head q |}.

Definition range (lo hi : Z) (q : Query) : Query :=
  {| q_from := q_from q; q_select := q_select q; q_filters := q_filters q;
     q_order := q_order q; q_range := Some (lo, hi); q_count := q_count q;
     q_head := q_head q |}.

(** Method chaining. *)
Notation "q '.>' f" := (f q) (at level 45, left associativity, only parsing).

(** ** The backend: tables, filters, ordering, ranges *)

Abbreviation DB := (gmap string (list Row)).

Definition table (d : DB) (tbl : string) : list Row := default [] (d !! tbl).

Definition holds (d : DB) (f : Filter) (r : Row) : bool :=
  match f with
  | FEq col v =>
      bool_decide (cell r col = v) && negb (bool_decide (v = VNull))
  | FNeq col v =>
      negb (bool_decide (cell r col = v)) && negb (bool_decide (cell r col = VNull))
      && negb (bool_decide (v = VNull))
  | FIlike col pat =>
      match r !! col with Some (VStr s) => ilike_match pat s | _ => false end
  | FOrIlike alts =>
      existsb (λ a, match r !! a.1 with
                    | Some (VStr s) => ilike_match a.2 s
                    | _ => false
                    end) alts
  | FInner tbl fk =>
      existsb (λ e, bool_decide (cell e fk = cell r "id")
                    && negb (bool_decide (cell r "id" = VNull))) (table d tbl)
  end.

Definition matches (d : DB) (fs : list Filter) (r : Row) : bool :=
  forallb (λ f, holds d f r) fs.

(** Ordering of cells: within a type the natural order, nulls after
    everything else. *)
Definition val_rank (v : val) : Z :=
  match v with
  | VBool _ => 0 | VNum _ => 1 | VStr _ => 2 | VTime _ => 3 | VEnum _ => 4
  | VNull => 5
  end.

Definition val_compare (a b : val) : comparison :=
  match a, b with
  | VBool x, VBool y => Bool.compare x y
  | VNum x, VNum y => Z.compare x y
  | VStr x, VStr y => String.compare x y
  | VTime x, VTime y => Z.compare x y
  | VEnum x, VEnum y => Nat.compare x y
  | _, _ => Z.compare (val_rank a) (val_rank b)
  end.

Definition col_compare (spec : string * bool) (r1 r2 : Row) : comparison :=
  if spec.2 then val_compare (cell r1 spec.1) (cell r2 spec.1)
  else val_compare (cell r2 spec.1) (cell r1 spec.1).

Fixpoint order_compare (specs : list (string * bool)) (r1 r2 : Row) : comparison :=
  match specs with
  | [] => Eq
  | spec :: rest =>
      match col_compare spec r1 r2 with
      | Eq => order_compare rest r1 r2
      | c => c
      end
  end.

Definition order_le (specs : list (string * bool)) : relation Row :=
  λ r1 r2, order_compare specs r1 r2 ≠ Gt.

Global Instance order_le_dec specs r1 r2 : Decision (order_le specs r1 r2).
Proof. unfold order_le. apply _. Defined.

Definition project (cols : option (list string)) (r : Row) : Row :=
  match cols with
  | None => r
  | Some cs => filter (λ kv, kv.1 ∈ cs) r
  end.

(** An error as the client library hands it over. *)
Record PgError := { code : string; message : string }.

Global Instance PgError_eq_dec : EqDecision PgError.
Proof. solve_decision. Defined.

Definition network_error : PgError :=
  {| code := ""; message := "Failed to fetch" |}.
Definition range_error : PgError :=
  {| code := "PGRST103"; message := "Requested range not satisfiable" |}.
Definition not_single_error : PgError :=
  {| code := "PGRST116";
     message := "JSON object requested, multiple (or no) rows returned" |}.
Definition unique_violation : PgError :=
  {| code := "23505";
     message := "duplicate key value violates unique constraint" |}.

(** What [await query] destructures into. *)
Record Result := {
  r_data : option (list Row);
  r_error : option PgError;
  r_count : option Z
}.

Record Single := {
  s_data : option Row;
  s_error : option PgError
}.

Definition failure (e : PgError) : Result :=
  {| r_data := None; r_error := Some e; r_count := None |}.

(** The rows a query is about, before ordering and ranging. *)
Definition matching (d : DB) (q : Query) : list Row :=
  filter (λ r, matches d (q_filters q) r = true) (table d (q_from q)).

Definition ordered (d : DB) (q : Query) : list Row :=
  merge_sort (order_le (q_order q)) (matching d q).

(** A select: filter, order, count, cut the range.  Among rows that tie on
    the sort keys the backend promises no order; here they stay in table
    order, and what is stated about the order of a list across requests is
    stated for lists without ties.  A range that starts below 0 or ends
    before it starts is refused, and so is, when the total is counted, a
    range that starts beyond it (the backend's "range not satisfiable"). *)
Definition run_select (d : DB) (q : Query) : Result :=
  let rows := ordered d q in
  let total := Z.of_nat (length rows) in
  let cnt := if q_count q then Some total else None in
  match q_range q with
  | None =>
      {| r_data := if q_head q then None else Some (project (q_select q) <$> rows);
         r_error := None; r_count := cnt |}
  | Some (lo, hi) =>
      if (lo <? 0) || (hi <? lo) then failure range_error
      else if q_count q && (total <? lo) then failure range_error
      else
        let page := take (Z.to_nat (hi - lo + 1)) (drop (Z.to_nat lo) rows) in
        {| r_data := if q_head q then None else Some (project (q_select q) <$> page);
           r_error := None; r_count := cnt |}
  end.

(** [.single()]: exactly one row, or the PGRST116 error. *)
Definition run_single (d : DB) (q : Query) : Single :=
  match ordered d q with
  | [r] => {| s_data := Some (project (q_select q) r); s_error := None |}
  | _ => {| s_data := None; s_error := Some not_single_error |}
  end.

(** ** Writes

    Column defaults and unique constraints are those of the two migrations
    ([improve_colors], [improve_sizes]). *)

Definition column_defaults (tbl : string) : Row :=
  if decide (tbl = "colors") then
    {[ "category" := color_category_val primary;
       "display_order" := VNum 0;
       "is_active" := VBool true ]}
  else if decide (tbl = "sizes") then
    {[ "size_type" := size_type_val alpha;
       "category" := size_category_val unisex;
       "display_order" := VNum 0;
       "is_active" := VBool true ]}
  else ∅.

(** Modelled from the spec: the statements that create the base tables are
    not in the two migrations; per the data model the backend assigns [id]
    on creation, sets [created_at] once at insert and starts a row with
    [is_deleted = false]. *)
Definition base_defaults (id : nat) (now : Z) : Row :=
  {[ "id" := VStr (pretty id);
     "is_deleted" := VBool false;
     "created_at" := VTime now;
     "updated_at" := VTime now ]}.

Definition new_row (tbl : string) (id : nat) (now : Z) (fields : Row) : Row :=
  fields ∪ column_defaults tbl ∪ base_defaults id now.

(** [colors_name_category_key] and [sizes_label_category_key]. *)
Definition unique_keys (tbl : string) : list (list string) :=
  if decide (tbl = "colors") then [["name"; "category"]]
  else if decide (tbl = "sizes") then [["label"; "category"]]
  else [].

(** Two rows collide on a key when they agree on all its columns and none
    of them is null. *)
Definition collide (cols : list string) (r1 r2 : Row) : bool :=
  forallb (λ c, bool_decide (cell r1 c = cell r2 c)
                && negb (bool_decide (cell r1 c = VNull))) cols.

Definition violates_unique (tbl : string) (rows : list Row) (r : Row) : bool :=
  existsb (λ cols, existsb (collide cols r) rows) (unique_keys tbl).

Definition run_insert (d : DB) (tbl : string) (id : nat) (now : Z) (fields : Row)
  : DB + PgError :=
  let r := new_row tbl id now fields in
  if violates_unique tbl (table d tbl) r then inr unique_violation
  else inl (<[tbl := table d tbl ++ [r]]> d).

(** An update rewrites the cells it names in every row its filters select.
    A row whose key cells change is checked against the unique
    constraints. *)
Definition updated (d : DB) (fields : Row) (fs : list Filter) (r : Row) : Row :=
  if matches d fs r then fields ∪ r else r.

Definition rekeyed (tbl : string) (r r' : Row) : bool :=
  existsb (λ cols, negb (bool_decide ((cell r <$> cols) = (cell r' <$> cols))))
          (unique_keys tbl).

Fixpoint update_conflict (tbl : string) (l : list (bool * Row)) : bool :=
  match l with
  | [] => false
  | (u, r) :: rest =>
      existsb (λ p, (u || p.1)
                    && existsb (λ cols, collide cols r p.2) (unique_keys tbl)) rest
      || update_conflict tbl rest
  end.

Definition run_update (d : DB) (tbl : string) (fields : Row) (fs : list Filter)
  : DB + PgError :=
  let rows := table d tbl in
  let rows' := updated d fields fs <$> rows in
  if update_conflict tbl ((λ r, (rekeyed tbl r (updated d fields fs r),
                                 updated d fields fs r)) <$> rows)
  then inr unique_violation
  else inl (<[tbl := rows']> d).

(** A physical delete, which the backend offers and no screen calls. *)
Definition run_delete (d : DB) (tbl : string) (fs : list Filter) : DB :=
  <[tbl := filter (λ r, matches d fs r = false) (table d tbl)]> d.

(** ** The world a handler runs in *)

(** A local file, as the browser hands it to a picker. *)
Record File := { f_name : string; f_type : string; f_size : Z }.

Global Instance File_eq_dec : EqDecision File.
Proof. solve_decision. Defined.

Inductive Request :=
  | RSelect (q : Query)
  | RSingle (q : Query)
  | RInsert (tbl : string) (fields : Row)
  | RUpdate (tbl : string) (fields : Row) (fs : list Filter)
  | RDelete (tbl : string) (fs : list Filter)
  | RUpload (bucket path : string) (file : File)
  | RInvite (email : string).

Inductive ToastType := t_success | t_error | t_info | t_warning.

Record Toast := {
  toast_ident : nat;
  toast_type : ToastType;
  toast_message : string
}.

(** The world: the backend's tables and stored objects, the time of the
    next request, the requests sent so far with their time, the toasts
    raised so far, and what the handlers cannot decide: when the backend
    is out of reach, what the random generator yields and which e-mail
    addresses the auth service turns down. *)
Record World := {
  db : DB;
  clock : Z;
  next_id : nat;
  outage : Z → bool;
  log : list (Z * Request);
  toasts : list Toast;
  toast_id : nat;
  objects : gmap string File;
  random : nat → string;
  draws : nat;
  auth_rejects : string → bool
}.

Definition with_db (x : DB) (w : World) : World :=
  {| db := x; clock := clock w; next_id := next_id w; outage := outage w;
     log := log w; toasts := toasts w; toast_id := toast_id w;
     objects := objects w; random := random w; draws := draws w;
     auth_rejects := auth_rejects w |}.
Definition with_clock (x : Z) (w : World) : World :=
  {| db := db w; clock := x; next_id := next_id w; outage := outage w;
     log := log w; toasts := toasts w; toast_id := toast_id w;
     objects := objects w; random := random w; draws := draws w;
     auth_rejects := auth_rejects w |}.
Definition with_next_id (x : nat) (w : World) : World :=
  {| db := db w; clock := clock w; next_id := x; outage := outage w;
     log := log w; toasts := toasts w; toast_id := toast_id w;
     objects := objects w; random := random w; draws := draws w;
     auth_rejects := auth_rejects w |}.
Definition with_outage (x : Z → bool) (w : World) : World :=
  {| db := db w; clock := clock w; next_id := next_id w; outage := x;
     log := log w; toasts := toasts w; toast_id := toast_id w;
     objects := objects w; random := random w; draws := draws w;
     auth_rejects := auth_rejects w |}.
Definition with_log (x : list (Z * Request)) (w : World) : World :=
  {| db := db w; clock := clock w; next_id := next_id w; outage := outage w;
     log := x; toasts := toasts w; toast_id := toast_id w; objects := objects w;
     random := random w; draws := draws w; auth_rejects := auth_rejects w |}.
Definition with_toasts (x : list Toast) (w : World) : World :=
  {| db := db w; clock := clock w; next_id := next_id w; outage := outage w;
     log := log w; toasts := x; toast_id := toast_id w; objects := objects w;
     random := random w; draws := draws w; auth_rejects := auth_rejects w |}.
Definition with_toast_id (x : nat) (w : World) : World :=
  {| db := db w; clock := clock w; next_id := next_id w; outage := outage w;
     log := log w; toasts := toasts w; toast_id := x; objects := objects w;
     random := random w; draws := draws w; auth_rejects := auth_rejects w |}.
Definition with_objects (x : gmap string File) (w : World) : World :=
  {| db := db w; clock := clock w; next_id := next_id w; outage := outage w;
     log := log w; toasts := toasts w; toast_id := toast_id w; objects := x;
     random := random w; draws := draws w; auth_rejects := auth_rejects w |}.
Definition with_random (x : nat → string) (w : World) : World :=
  {| db := db w; clock := clock w; next_id := next_id w; outage := outage w;
     log := log w; toasts := toasts w; toast_id := toast_id w;
     objects := objects w; random := x; draws := draws w;
     auth_rejects := auth_rejects w |}.
Definition with_draws (x : nat) (w : World) : World :=
  {| db := db w; clock := clock w; next_id := next_id w; outage := outage w;
     log := log w; toasts := toasts w; toast_id := toast_id w;
     objects := objects w; random := random w; draws := x;
     auth_rejects := auth_rejects w |}.
Definition with_auth_rejects (x : string → bool) (w : World) : World :=
  {| db := db w; clock := clock w; next_id := next_id w; outage := outage w;
     log := log w; toasts := toasts w; toast_id := toast_id w;
     objects := objects w; random := random w; draws := draws w;
     auth_rejects := x |}.

Definition M (A : Type) : Type := World → A * World.

Global Instance M_ret : MRet M := λ A a w, (a, w).
Global Instance M_bind : MBind M := λ A B f m w, let '(a, w') := m w in f a w'.

(** A request leaves the client: it is logged and time moves on. *)
Definition sent (req : Request) (w : World) : World :=
  with_clock (clock w + 1) (with_log (log w ++ [(clock w, req)]) w).

Definition await_select (q : Query) : M Result := λ w,
  if outage w (clock w) then (failure network_error, sent (RSelect q) w)
  else (run_select (db w) q, sent (RSelect q) w).

Definition await_single (q : Query) : M Single := λ w,
  if outage w (clock w)
  then ({| s_data := None; s_error := Some network_error |}, sent (RSingle q) w)
  else (run_single (db w) q, sent (RSingle q) w).

Definition await_insert (tbl : string) (fields : Row) : M (option PgError) := λ w,
  if outage w (clock w) then (Some network_error, sent (RInsert tbl fields) w)
  else
    match run_insert (db w) tbl (next_id w) (clock w) fields with
    | inl d =>
        (None, with_next_id (S (next_id w)) (with_db d (sent (RInsert tbl fields) w)))
    | inr e => (Some e, sent (RInsert tbl fields) w)
    end.

Definition await_update (tbl : string) (fields : Row) (fs : list Filter)
  : M (option PgError) := λ w,
  if outage w (clock w) then (Some network_error, sent (RUpdate tbl fields fs) w)
  else
    match run_update (db w) tbl fields fs with
    | inl d => (None, with_db d (sent (RUpdate tbl fields fs) w))
    | inr e => (Some e, sent (RUpdate tbl fields fs) w)
    end.

(** [new Date()] *)
Definition now : M Z := λ w, (clock w, w).

(** The toast store: [add] appends an entry under a fresh id.  Entries
    expire on a timer, which this queue of raised toasts does not show. *)
Definition toast_add (ty : ToastType) (msg : string) : M unit := λ w,
  (tt, with_toast_id (S (toast_id w))
         (with_toasts (toasts w ++ [{| toast_ident := toast_id w; toast_type := ty;
                                       toast_message := msg |}]) w)).

Module toast.
Definition success := toast_add t_success.
Definition error := toast_add t_error.
Definition info := toast_add t_info.
Definition warning := toast_add t_warning.
End toast.

(** [Math.ceil(a / b)] for an integer [a] and a positive integer [b]. *)
Definition ceil_div (a b : Z) : Z := - ((- a) / b).

(** [count || 0] *)
Definition or_zero (c : option Z) : Z := default 0 c.

Definition itemsPerPage : Z := 10.

(** Object storage.  [upload] with [upsert: false] refuses a path that is
    in use. *)
Definition object_key (bucket path : string) : string := bucket +:+ "/" +:+ path.

Definition object_exists : PgError :=
  {| code := "409"; message := "The resource already exists" |}.

Definition await_upload (bucket path : string) (file : File) : M (option PgError) :=
  λ w,
  if outage w (clock w) then (Some network_error, sent (RUpload bucket path file) w)
  else if bool_decide (is_Some (objects w !! object_key bucket path))
  then (Some object_exists, sent (RUpload bucket path file) w)
  else (None, with_objects (<[object_key bucket path := file]> (objects w))
                (sent (RUpload bucket path file) w)).

(** The public URL of a stored object, without the project's host. *)
Definition getPublicUrl (bucket path : string) : string :=
  "/storage/v1/object/public/" +:+ bucket +:+ "/" +:+ path.

(** [Math.random().toString(36).substring(2)] *)
Definition random_base36 : M string := λ w,
  (random w (draws w), with_draws (S (draws w)) w).

Fixpoint after_last_dot (s cur : string) : string :=
  match s with
  | EmptyString => cur
  | String c s' =>
      if Ascii.eqb c "." then after_last_dot s' EmptyString
      else after_last_dot s' (cur +:+ String c EmptyString)
  end.

(** [name.split('.').pop()] *)
Definition file_ext (name : string) : string := after_last_dot name EmptyString.

(** The invite endpoint ([routes/api/invite-seller/+server.ts]) as the
    seller screen sees it: [None] when the request itself fails, otherwise
    the JSON body. *)
Module Invite.
Record Result := {
  success : bool;
  user_id : string;   (* result.data.user.id *)
  error : string      (* result.error *)
}.
End Invite.

Definition await_invite (email : string) : M (option Invite.Result) := λ w,
  if outage w (clock w) then (None, sent (RInvite email) w)
  else if auth_rejects w email
  then (Some {| Invite.success := false; Invite.user_id := "";
                Invite.error :=
                  "A user with this email address has already been registered" |},
        sent (RInvite email) w)
  else (Some {| Invite.success := true; Invite.user_id := pretty (next_id w);
                Invite.error := "" |},
        with_next_id (S (next_id w)) (sent (RInvite email) w)).

(** [e?.message || fallback] *)
Definition message_or (m fallback : string) : string :=
  if truthy m then m else fallback.

(** A [string]-typed field read for a method call: [null.trim()] throws. *)
Definition str_opt (r : Row) (col : string) : option string :=
  match r !! col with Some (VStr s) => Some s | _ => None end.

(** [error instanceof Error ? error.message : 'Unknown error occurred']: the
    client library hands errors over as plain objects. *)
Definition instanceof_Error (e : PgError) : bool := false.

Definition error_message (e : PgError) : string :=
  if instanceof_Error e then message e else "Unknown error occurred".

(** [checkError && checkError.code !== 'PGRST116'] *)
Definition check_failed (chk : Single) : option PgError :=
  match s_error chk with
  | Some e => if bool_decide (code e = "PGRST116") then None else Some e
  | None => None
  end.

(** * The colors screen ([routes/admin/colors/+page.svelte]) *)

Module Colors.

Record NewColor := { name : string; hex_code : string }.

Record State := {
  colors : list Row;
  loading : bool;
  showAddModal : bool;
  showEditModal : bool;
  selectedColor : option Row;
  newColor : NewColor;
  error : option string;
  currentPage : Z;
  totalPages : Z;
  searchQuery : string
}.

Definition set_colors (x : list Row) (st : State) : State :=
  {| colors := x; loading := loading st; showAddModal := showAddModal st;
     showEditModal := showEditModal st; selectedColor := selectedColor st;
     newColor := newColor st; error := error st; currentPage := currentPage st;
     totalPages := totalPages st; searchQuery := searchQuery st |}.
Definition set_loading (x : bool) (st : State) : State :=
  {| colors := colors st; loading := x; showAddModal := showAddModal st;
     showEditModal := showEditModal st; selectedColor := selectedColor st;
     newColor := newColor st; error := error st; currentPage := currentPage st;
     totalPages := totalPages st; searchQuery := searchQuery st |}.
Definition set_showAddModal (x : bool) (st : State) : State :=
  {| colors := colors st; loading := loading st; showAddModal := x;
     showEditModal := showEditModal st; selectedColor := selectedColor st;
     newColor := newColor st; error := error st; currentPage := currentPage st;
     totalPages := totalPages st; searchQuery := searchQuery st |}.
Definition set_showEditModal (x : bool) (st : State) : State :=
  {| colors := colors st; loading := loading st; showAddModal := showAddModal st;
     showEditModal := x; selectedColor := selectedColor st;
     newColor := newColor st; error := error st; currentPage := currentPage st;
     totalPages := totalPages st; searchQuery := searchQuery st |}.
Definition set_selectedColor (x : option Row) (st : State) : State :=
  {| colors := colors st; loading := loading st; showAddModal := showAddModal st;
     showEditModal := showEditModal st; selectedColor := x;
     newColor := newColor st; error := error st; currentPage := currentPage st;
     totalPages := totalPages st; searchQuery := searchQuery st |}.
Definition set_newColor (x : NewColor) (st : State) : State :=
  {| colors := colors st; loading := loading st; showAddModal := showAddModal st;
     showEditModal := showEditModal st; selectedColor := selectedColor st;
     newColor := x; error := error st; currentPage := currentPage st;
     totalPages := totalPages st; searchQuery := searchQuery st |}.
Definition set_error (x : option string) (st : State) : State :=
  {| colors := colors st; loading := loading st; showAddModal := showAddModal st;
     showEditModal := showEditModal st; selectedColor := selectedColor st;
     newColor := newColor st; error := x; currentPage := currentPage st;
     totalPages := totalPages st; searchQuery := searchQuery st |}.
Definition set_currentPage (x : Z) (st : State) : State :=
  {| colors := colors st; loading := loading st; showAddModal := showAddModal st;
     showEditModal := showEditModal st; selectedColor := selectedColor st;
     newColor := newColor st; error := error st; currentPage := x;
     totalPages := totalPages st; searchQuery := searchQuery st |}.
Definition set_totalPages (x : Z) (st : State) : State :=
  {| colors := colors st; loading := loading st; showAddModal := showAddModal st;
     showEditModal := showEditModal st; selectedColor := selectedColor st;
     newColor := newColor st; error := error st; currentPage := currentPage st;
     totalPages := x; searchQuery := searchQuery st |}.
Definition set_searchQuery (x : string) (st : State) : State :=
  {| colors := colors st; loading := loading st; showAddModal := showAddModal st;
     showEditModal := showEditModal st; selectedColor := selectedColor st;
     newColor := newColor st; error := error st; currentPage := currentPage st;
     totalPages := totalPages st; searchQuery := x |}.

Definition init : State :=
  {| colors := []; loading := true; showAddModal := false; showEditModal := false;
     selectedColor := None; newColor := {| name := ""; hex_code := "" |};
     error := None; currentPage := 1; totalPages := 1; searchQuery := "" |}.

Definition fetchColors_query (st : State) : Query :=
  let query := from "colors" .> select None true false
                 .> eq "is_deleted" (VBool false) in
  let query := if truthy (searchQuery st)
               then query .> ilike "name" ("%" +:+ searchQuery st +:+ "%")
               else query in
  query .> range ((currentPage st - 1) * itemsPerPage)
                 (currentPage st * itemsPerPage - 1)
        .> order "created_at" false.

Definition fetchColors (st : State) : M State :=
  let st := set_error None (set_loading true st) in
  res ← await_select (fetchColors_query st);
  match r_error res with
  | Some err =>
      mret (set_loading false (set_error (Some "Failed to load colors") st))
  | None =>
      mret (set_loading false
             (set_totalPages (ceil_div (or_zero (r_count res)) itemsPerPage)
               (set_colors (default [] (r_data res)) st)))
  end.

Definition handlePageChange (page : Z) (st : State) : M State :=
  fetchColors (set_currentPage page st).

Definition handleSearch (value : string) (st : State) : M State :=
  fetchColors (set_currentPage 1 (set_searchQuery value st)).

Definition is_hex_digit (c : ascii) : bool :=
  let n := nat_of_ascii c in
  (Nat.leb 65 n && Nat.leb n 70) || (Nat.leb 97 n && Nat.leb n 102)
  || (Nat.leb 48 n && Nat.leb n 57).

Fixpoint all_hex (s : string) : bool :=
  match s with
  | EmptyString => true
  | String c s' => is_hex_digit c && all_hex s'
  end.

(** [/^#([A-Fa-f0-9]{6}|[A-Fa-f0-9]{3})$/.test(hex)] *)
Definition validateHexCode (hex : string) : bool :=
  match hex with
  | String "#" digits =>
      all_hex digits
      && (Nat.eqb (String.length digits) 6 || Nat.eqb (String.length digits) 3)
  | _ => false
  end.

Definition add_precheck (st : State) : Query :=
  from "colors" .> select (Some ["id"]) false false
    .> eq "name" (VStr (trim (name (newColor st))))
    .> eq "is_deleted" (VBool false).

Definition add_fields (st : State) : Row :=
  {[ "name" := VStr (trim (name (newColor st)));
     "hex_code" := VStr (trim (hex_code (newColor st)));
     "is_deleted" := VBool false ]}.

Definition add_failed (e : PgError) (st : State) : M State :=
  toast.error ("Failed to add color: " +:+ error_message e);; mret st.

Definition handleAddColor (st : State) : M State :=
  if negb (truthy (trim (name (newColor st)))) then
    toast.error "Color name is required";; mret st
  else if negb (truthy (trim (hex_code (newColor st)))) then
    toast.error "Hex code is required";; mret st
  else if negb (validateHexCode (trim (hex_code (newColor st)))) then
    toast.error "Invalid hex code format. Please use #RRGGBB or #RGB format";;
    mret st
  else
    chk ← await_single (add_precheck st);
    match check_failed chk with
    | Some e => add_failed e st
    | None =>
        if bool_decide (is_Some (s_data chk)) then
          toast.error "A color with this name already exists";; mret st
        else
          err ← await_insert "colors" (add_fields st);
          match err with
          | Some e => add_failed e st
          | None =>
              toast.success "Color added successfully";;
              fetchColors (set_newColor {| name := ""; hex_code := "" |}
                            (set_showAddModal false st))
          end
    end.

Definition edit_precheck (sel : Row) : Query :=
  from "colors" .> select (Some ["id"]) false false
    .> eq "name" (VStr (trim (str sel "name")))
    .> eq "is_deleted" (VBool false)
    .> neq "id" (cell sel "id").

Definition edit_fields (sel : Row) (t : Z) : Row :=
  {[ "name" := VStr (trim (str sel "name"));
     "hex_code" := VStr (trim (str sel "hex_code"));
     "updated_at" := VTime t ]}.

Definition edit_failed (st : State) : M State :=
  toast.error "Failed to update color";; mret st.

Definition handleEditColor (st : State) : M State :=
  match selectedColor st with
  | None => mret st
  | Some sel =>
      if negb (truthy (trim (str sel "name"))) then
        toast.error "Color name is required";; mret st
      else if negb (truthy (trim (str sel "hex_code"))) then
        toast.error "Hex code is required";; mret st
      else if negb (validateHexCode (trim (str sel "hex_code"))) then
        toast.error "Invalid hex code format. Please use #RRGGBB or #RGB format";;
        mret st
      else
        chk ← await_single (edit_precheck sel);
        match check_failed chk with
        | Some e => edit_failed st
        | None =>
            if bool_decide (is_Some (s_data chk)) then
              toast.error "A color with this name already exists";; mret st
            else
              t ← now;
              err ← await_update "colors" (edit_fields sel t) [FEq "id" (cell sel "id")];
              match err with
              | Some e => edit_failed st
              | None =>
                  toast.success "Color updated successfully";;
                  fetchColors (set_selectedColor None (set_showEditModal false st))
              end
        end
  end.

Definition handleDeleteColor (confirm : string → bool) (colorId : string) (st : State)
  : M State :=
  if negb (confirm "Are you sure you want to delete this color?") then mret st
  else
    err ← await_update "colors" {[ "is_deleted" := VBool true ]}
                       [FEq "id" (VStr colorId)];
    match err with
    | Some e => toast.error "Failed to delete color";; mret st
    | None =>
        toast.success "Color deleted successfully";;
        fetchColors st
    end.

Definition handleCloseAddModal (st : State) : State :=
  set_newColor {| name := ""; hex_code := "" |} (set_showAddModal false st).

Definition handleCloseEditModal (st : State) : State :=
  set_selectedColor None (set_showEditModal false st).

(** The Edit button of a table row: [selectedColor = { ...color }]. *)
Definition openEdit (color : Row) (st : State) : State :=
  set_showEditModal true (set_selectedColor (Some color) st).

End Colors.

(** * The brands screen ([routes/admin/brands/+page.svelte]) *)

Module Brands.

Record NewBrand := { name : string; description : string; logo_url : string }.

Record State := {
  brands : list Row;
  loading : bool;
  showAddModal : bool;
  showEditModal : bool;
  selectedBrand : option Row;
  newBrand : NewBrand;
  error : option string;
  currentPage : Z;
  totalPages : Z;
  searchQuery : string
}.

Definition set_brands (x : list Row) (st : State) : State :=
  {| brands := x; loading := loading st; showAddModal := showAddModal st;
     showEditModal := showEditModal st; selectedBrand := selectedBrand st;
     newBrand := newBrand st; error := error st; currentPage := currentPage st;
     totalPages := totalPages st; searchQuery := searchQuery st |}.
Definition set_loading (x : bool) (st : State) : State :=
  {| brands := brands st; loading := x; showAddModal := showAddModal st;
     showEditModal := showEditModal st; selectedBrand := selectedBrand st;
     newBrand := newBrand st; error := error st; currentPage := currentPage st;
     totalPages := totalPages st; searchQuery := searchQuery st |}.
Definition set_showAddModal (x : bool) (st : State) : State :=
  {| brands := brands st; loading := loading st; showAddModal := x;
     showEditModal := showEditModal st; selectedBrand := selectedBrand st;
     newBrand := newBrand st; error := error st; currentPage := currentPage st;
     totalPages := totalPages st; searchQuery := searchQuery st |}.
Definition set_showEditModal (x : bool) (st : State) : State :=
  {| brands := brands st; loading := loading st; showAddModal := showAddModal st;
     showEditModal := x; selectedBrand := selectedBrand st;
     newBrand := newBrand st; error := error st; currentPage := currentPage st;
     totalPages := totalPages st; searchQuery := searchQuery st |}.
Definition set_selectedBrand (x : option Row) (st : State) : State :=
  {| brands := brands st; loading := loading st; showAddModal := showAddModal st;
     showEditModal := showEditModal st; selectedBrand := x;
     newBrand := newBrand st; error := error st; currentPage := currentPage st;
     totalPages := totalPages st; searchQuery := searchQuery st |}.
Definition set_newBrand (x : NewBrand) (st : State) : State :=
  {| brands := brands st; loading := loading st; showAddModal := showAddModal st;
     showEditModal := showEditModal st; selectedBrand := selectedBrand st;
     newBrand := x; error := error st; currentPage := currentPage st;
     totalPages := totalPages st; searchQuery := searchQuery st |}.
Definition set_error (x : option string) (st : State) : State :=
  {| brands := brands st; loading := loading st; showAddModal := showAddModal st;
     showEditModal := showEditModal st; selectedBrand := selectedBrand st;
     newBrand := newBrand st; error := x; currentPage := currentPage st;
     totalPages := totalPages st; searchQuery := searchQuery st |}.
Definition set_currentPage (x : Z) (st : State) : State :=
  {| brands := brands st; loading := loading st; showAddModal := showAddModal st;
     showEditModal := showEditModal st; selectedBrand := selectedBrand st;
     newBrand := newBrand st; error := error st; currentPage := x;
     totalPages := totalPages st; searchQuery := searchQuery st |}.
Definition set_totalPages (x : Z) (st : State) : State :=
  {| brands := brands st; loading := loading st; showAddModal := showAddModal st;
     showEditModal := showEditModal st; selectedBrand := selectedBrand st;
     newBrand := newBrand st; error := error st; currentPage := currentPage st;
     totalPages := x; searchQuery := searchQuery st |}.
Definition set_searchQuery (x : string) (st : State) : State :=
  {| brands := brands st; loading := loading st; showAddModal := showAddModal st;
     showEditModal := showEditModal st; selectedBrand := selectedBrand st;
     newBrand := newBrand st; error := error st; currentPage := currentPage st;
     totalPages := totalPages st; searchQuery := x |}.

Definition empty_brand : NewBrand := {| name := ""; description := ""; logo_url := "" |}.

Definition init : State :=
  {| brands := []; loading := true; showAddModal := false; showEditModal := false;
     selectedBrand := None; newBrand := empty_brand; error := None;
     currentPage := 1; totalPages := 1; searchQuery := "" |}.

Definition fetchBrands_query (st : State) : Query :=
  let query := from "brands" .> select None true false
                 .> eq "is_deleted" (VBool false) in
  let query := if truthy (searchQuery st)
               then query .> ilike "name" ("%" +:+ searchQuery st +:+ "%")
               else query in
  query .> range ((currentPage st - 1) * itemsPerPage)
                 (currentPage st * itemsPerPage - 1)
        .> order "created_at" false.

Definition fetchBrands (st : State) : M State :=
  let st := set_error None (set_loading true st) in
  res ← await_select (fetchBrands_query st);
  match r_error res with
  | Some err =>
      mret (set_loading false (set_error (Some "Failed to load brands") st))
  | None =>
      mret (set_loading false
             (set_totalPages (ceil_div (or_zero (r_count res)) itemsPerPage)
               (set_brands (default [] (r_data res)) st)))
  end.

Definition handlePageChange (page : Z) (st : State) : M State :=
  fetchBrands (set_currentPage page st).

Definition handleSearch (value : string) (st : State) : M State :=
  fetchBrands (set_currentPage 1 (set_searchQuery value st)).

Definition add_precheck (st : State) : Query :=
  from "brands" .> select (Some ["id"]) false false
    .> eq "name" (VStr (trim (name (newBrand st))))
    .> eq "is_deleted" (VBool false).

Definition add_fields (st : State) : Row :=
  {[ "name" := VStr (trim (name (newBrand st)));
     "description" := VStr (trim (description (newBrand st)));
     "logo_url" := VStr (trim (logo_url (newBrand st)));
     "is_deleted" := VBool false ]}.

Definition add_failed (e : PgError) (st : State) : M State :=
  toast.error ("Failed to add brand: " +:+ error_message e);; mret st.

Definition handleAddBrand (st : State) : M State :=
  if negb (truthy (trim (name (newBrand st)))) then
    toast.error "Brand name is required";; mret st
  else
    chk ← await_single (add_precheck st);
    match check_failed chk with
    | Some e => add_failed e st
    | None =>
        if bool_decide (is_Some (s_data chk)) then
          toast.error "A brand with this name already exists";; mret st
        else
          err ← await_insert "brands" (add_fields st);
          match err with
          | Some e => add_failed e st
          | None =>
              toast.success "Brand added successfully";;
              fetchBrands (set_newBrand empty_brand (set_showAddModal false st))
          end
    end.

Definition edit_precheck (sel : Row) : Query :=
  from "brands" .> select (Some ["id"]) false false
    .> eq "name" (VStr (trim (str sel "name")))
    .> eq "is_deleted" (VBool false)
    .> neq "id" (cell sel "id").

Definition edit_fields (sel : Row) (desc logo : string) (t : Z) : Row :=
  {[ "name" := VStr (trim (str sel "name"));
     "description" := VStr (trim desc);
     "logo_url" := VStr (trim logo);
     "updated_at" := VTime t ]}.

Definition edit_failed (st : State) : M State :=
  toast.error "Failed to update brand";; mret st.

Definition handleEditBrand (st : State) : M State :=
  match selectedBrand st with
  | None => mret st
  | Some sel =>
      if negb (truthy (trim (str sel "name"))) then
        toast.error "Brand name is required";; mret st
      else
        chk ← await_single (edit_precheck sel);
        match check_failed chk with
        | Some e => edit_failed st
        | None =>
            if bool_decide (is_Some (s_data chk)) then
              toast.error "A brand with this name already exists";; mret st
            else
              (* [description.trim()] and [logo_url.trim()] throw on null *)
              match str_opt sel "description", str_opt sel "logo_url" with
              | Some desc, Some logo =>
                  t ← now;
                  err ← await_update "brands" (edit_fields sel desc logo t)
                                     [FEq "id" (cell sel "id")];
                  match err with
                  | Some e => edit_failed st
                  | None =>
                      toast.success "Brand updated successfully";;
                      fetchBrands (set_selectedBrand None (set_showEditModal false st))
                  end
              | _, _ => edit_failed st
              end
        end
  end.

Definition handleDeleteBrand (confirm : string → bool) (brandId : string)
  (st : State) : M State :=
  if negb (confirm "Are you sure you want to delete this brand?") then mret st
  else
    err ← await_update "brands" {[ "is_deleted" := VBool true ]}
                       [FEq "id" (VStr brandId)];
    match err with
    | Some e => toast.error "Failed to delete brand";; mret st
    | None =>
        toast.success "Brand deleted successfully";;
        fetchBrands st
    end.

Definition handleCloseAddModal (st : State) : State :=
  set_newBrand empty_brand (set_showAddModal false st).

Definition handleCloseEditModal (st : State) : State :=
  set_selectedBrand None (set_showEditModal false st).

End Brands.

(** * The audiences screen ([unnamed/part_000]) *)

Module Audiences.

Record NewAudience := { name : string }.

Record State := {
  audiences : list Row;
  loading : bool;
  showAddModal : bool;
  showEditModal : bool;
  selectedAudience : option Row;
  newAudience : NewAudience;
  error : option string;
  currentPage : Z;
  totalPages : Z;
  searchQuery : string
}.

Definition set_audiences (x : list Row) (st : State) : State :=
  {| audiences := x; loading := loading st; showAddModal := showAddModal st;
     showEditModal := showEditModal st; selectedAudience := selectedAudience st;
     newAudience := newAudience st; error := error st;
     currentPage := currentPage st; totalPages := totalPages st;
     searchQuery := searchQuery st |}.
Definition set_loading (x : bool) (st : State) : State :=
  {| audiences := audiences st; loading := x; showAddModal := showAddModal st;
     showEditModal := showEditModal st; selectedAudience := selectedAudience st;
     newAudience := newAudience st; error := error st;
     currentPage := currentPage st; totalPages := totalPages st;
     searchQuery := searchQuery st |}.
Definition set_showAddModal (x : bool) (st : State) : State :=
  {| audiences := audiences st; loading := loading st; showAddModal := x;
     showEditModal := showEditModal st; selectedAudience := selectedAudience st;
     newAudience := newAudience st; error := error st;
     currentPage := currentPage st; totalPages := totalPages st;
     searchQuery := searchQuery st |}.
Definition set_showEditModal (x : bool) (st : State) : State :=
  {| audiences := audiences st; loading := loading st;
     showAddModal := showAddModal st; showEditModal := x;
     selectedAudience := selectedAudience st; newAudience := newAudience st;
     error := error st; currentPage := currentPage st; totalPages := totalPages st;
     searchQuery := searchQuery st |}.
Definition set_selectedAudience (x : option Row) (st : State) : State :=
  {| audiences := audiences st; loading := loading st;
     showAddModal := showAddModal st; showEditModal := showEditModal st;
     selectedAudience := x; newAudience := newAudience st; error := error st;
     currentPage := currentPage st; totalPages := totalPages st;
     searchQuery := searchQuery st |}.
Definition set_newAudience (x : NewAudience) (st : State) : State :=
  {| audiences := audiences st; loading := loading st;
     showAddModal := showAddModal st; showEditModal := showEditModal st;
     selectedAudience := selectedAudience st; newAudience := x; error := error st;
     currentPage := currentPage st; totalPages := totalPages st;
     searchQuery := searchQuery st |}.
Definition set_error (x : option string) (st : State) : State :=
  {| audiences := audiences st; loading := loading st;
     showAddModal := showAddModal st; showEditModal := showEditModal st;
     selectedAudience := selectedAudience st; newAudience := newAudience st;
     error := x; currentPage := currentPage st; totalPages := totalPages st;
     searchQuery := searchQuery st |}.
Definition set_currentPage (x : Z) (st : State) : State :=
  {| audiences := audiences st; loading := loading st;
     showAddModal := showAddModal st; showEditModal := showEditModal st;
     selectedAudience := selectedAudience st; newAudience := newAudience st;
     error := error st; currentPage := x; totalPages := totalPages st;
     searchQuery := searchQuery st |}.
Definition set_totalPages (x : Z) (st : State) : State :=
  {| audiences := audiences st; loading := loading st;
     showAddModal := showAddModal st; showEditModal := showEditModal st;
     selectedAudience := selectedAudience st; newAudience := newAudience st;
     error := error st; currentPage := currentPage st; totalPages := x;
     searchQuery := searchQuery st |}.
Definition set_searchQuery (x : string) (st : State) : State :=
  {| audiences := audiences st; loading := loading st;
     showAddModal := showAddModal st; showEditModal := showEditModal st;
     selectedAudience := selectedAudience st; newAudience := newAudience st;
     error := error st; currentPage := currentPage st; totalPages := totalPages st;
     searchQuery := x |}.

Definition init : State :=
  {| audiences := []; loading := true; showAddModal := false; showEditModal := false;
     selectedAudience := None; newAudience := {| name := "" |}; error := None;
     currentPage := 1; totalPages := 1; searchQuery := "" |}.

Definition fetchAudiences_query (st : State) : Query :=
  let query := from "audiences" .> select None true false
                 .> eq "is_deleted" (VBool false) in
  let query := if truthy (searchQuery st)
               then query .> ilike "name" ("%" +:+ searchQuery st +:+ "%")
               else query in
  query .> range ((currentPage st - 1) * itemsPerPage)
                 (currentPage st * itemsPerPage - 1)
        .> order "created_at" false.

Definition fetchAudiences (st : State) : M State :=
  let st := set_error None (set_loading true st) in
  res ← await_select (fetchAudiences_query st);
  match r_error res with
  | Some err =>
      mret (set_loading false (set_error (Some "Failed to load audiences") st))
  | None =>
      mret (set_loading false
             (set_totalPages (ceil_div (or_zero (r_count res)) itemsPerPage)
               (set_audiences (default [] (r_data res)) st)))
  end.

Definition handlePageChange (page : Z) (st : State) : M State :=
  fetchAudiences (set_currentPage page st).

Definition handleSearch (value : string) (st : State) : M State :=
  fetchAudiences (set_currentPage 1 (set_searchQuery value st)).

Definition add_precheck (st : State) : Query :=
  from "audiences" .> select (Some ["id"]) false false
    .> eq "name" (VStr (trim (name (newAudience st))))
    .> eq "is_deleted" (VBool false).

Definition add_fields (st : State) : Row :=
  {[ "name" := VStr (trim (name (newAudience st)));
     "is_deleted" := VBool false ]}.

Definition add_failed (e : PgError) (st : State) : M State :=
  toast.error ("Failed to add audience: " +:+ error_message e);; mret st.

Definition handleAddAudience (st : State) : M State :=
  if negb (truthy (trim (name (newAudience st)))) then
    toast.error "Audience name is required";; mret st
  else
    chk ← await_single (add_precheck st);
    match check_failed chk with
    | Some e => add_failed e st
    | None =>
        if bool_decide (is_Some (s_data chk)) then
          toast.error "An audience with this name already exists";; mret st
        else
          err ← await_insert "audiences" (add_fields st);
          match err with
          | Some e => add_failed e st
          | None =>
              toast.success "Audience added successfully";;
              fetchAudiences (set_newAudience {| name := "" |} (set_showAddModal false st))
          end
    end.

Definition edit_precheck (sel : Row) : Query :=
  from "audiences" .> select (Some ["id"]) false false
    .> eq "name" (VStr (trim (str sel "name")))
    .> eq "is_deleted" (VBool false)
    .> neq "id" (cell sel "id").

Definition edit_fields (sel : Row) (t : Z) : Row :=
  {[ "name" := VStr (trim (str sel "name"));
     "updated_at" := VTime t ]}.

Definition edit_failed (st : State) : M State :=
  toast.error "Failed to update audience";; mret st.

Definition handleEditAudience (st : State) : M State :=
  match selectedAudience st with
  | None => mret st
  | Some sel =>
      if negb (truthy (trim (str sel "name"))) then
        toast.error "Audience name is required";; mret st
      else
        chk ← await_single (edit_precheck sel);
        match check_failed chk with
        | Some e => edit_failed st
        | None =>
            if bool_decide (is_Some (s_data chk)) then
              toast.error "An audience with this name already exists";; mret st
            else
              t ← now;
              err ← await_update "audiences" (edit_fields sel t)
                                 [FEq "id" (cell sel "id")];
              match err with
              | Some e => edit_failed st
              | None =>
                  toast.success "Audience updated successfully";;
                  fetchAudiences (set_selectedAudience None (set_showEditModal false st))
              end
        end
  end.

Definition handleDeleteAudience (confirm : string → bool) (audienceId : string)
  (st : State) : M State :=
  if negb (confirm "Are you sure you want to delete this audience?") then mret st
  else
    err ← await_update "audiences" {[ "is_deleted" := VBool true ]}
                       [FEq "id" (VStr audienceId)];
    match err with
    | Some e => toast.error "Failed to delete audience";; mret st
    | None =>
        toast.success "Audience deleted successfully";;
        fetchAudiences st
    end.

Definition handleCloseAddModal (st : State) : State :=
  set_newAudience {| name := "" |} (set_showAddModal false st).

Definition handleCloseEditModal (st : State) : State :=
  set_selectedAudience None (set_showEditModal false st).

End Audiences.

(** * The categories screen ([the third component of routes/admin/subcategories/+page.svelte]) *)

Module Categories.

Record NewCategory := { name : string }.

Record State := {
  categories : list Row;
  loading : bool;
  showAddModal : bool;
  showEditModal : bool;
  selectedCategory : option Row;
  newCategory : NewCategory;
  error : option string;
  currentPage : Z;
  totalPages : Z;
  searchQuery : string
}.

Definition set_categories (x : list Row) (st : State) : State :=
  {| categories := x; loading := loading st; showAddModal := showAddModal st;
     showEditModal := showEditModal st; selectedCategory := selectedCategory st;
     newCategory := newCategory st; error := error st;
     currentPage := currentPage st; totalPages := totalPages st;
     searchQuery := searchQuery st |}.
Definition set_loading (x : bool) (st : State) : State :=
  {| categories := categories st; loading := x; showAddModal := showAddModal st;
     showEditModal := showEditModal st; selectedCategory := selectedCategory st;
     newCategory := newCategory st; error := error st;
     currentPage := currentPage st; totalPages := totalPages st;
     searchQuery := searchQuery st |}.
Definition set_showAddModal (x : bool) (st : State) : State :=
  {| categories := categories st; loading := loading st; showAddModal := x;
     showEditModal := showEditModal st; selectedCategory := selectedCategory st;
     newCategory := newCategory st; error := error st;
     currentPage := currentPage st; totalPages := totalPages st;
     searchQuery := searchQuery st |}.
Definition set_showEditModal (x : bool) (st : State) : State :=
  {| categories := categories st; loading := loading st;
     showAddModal := showAddModal st; showEditModal := x;
     selectedCategory := selectedCategory st; newCategory := newCategory st;
     error := error st; currentPage := currentPage st; totalPages := totalPages st;
     searchQuery := searchQuery st |}.
Definition set_selectedCategory (x : option Row) (st : State) : State :=
  {| categories := categories st; loading := loading st;
     showAddModal := showAddModal st; showEditModal := showEditModal st;
     selectedCategory := x; newCategory := newCategory st; error := error st;
     currentPage := currentPage st; totalPages := totalPages st;
     searchQuery := searchQuery st |}.
Definition set_newCategory (x : NewCategory) (st : State) : State :=
  {| categories := categories st; loading := loading st;
     showAddModal := showAddModal st; showEditModal := showEditModal st;
     selectedCategory := selectedCategory st; newCategory := x; error := error st;
     currentPage := currentPage st; totalPages := totalPages st;
     searchQuery := searchQuery st |}.
Definition set_error (x : option string) (st : State) : State :=
  {| categories := categories st; loading := loading st;
     showAddModal := showAddModal st; showEditModal := showEditModal st;
     selectedCategory := selectedCategory st; newCategory := newCategory st;
     error := x; currentPage := currentPage st; totalPages := totalPages st;
     searchQuery := searchQuery st |}.
Definition set_currentPage (x : Z) (st : State) : State :=
  {| categories := categories st; loading := loading st;
     showAddModal := showAddModal st; showEditModal := showEditModal st;
     selectedCategory := selectedCategory st; newCategory := newCategory st;
     error := error st; currentPage := x; totalPages := totalPages st;
     searchQuery := searchQuery st |}.
Definition set_totalPages (x : Z) (st : State) : State :=
  {| categories := categories st; loading := loading st;
     showAddModal := showAddModal st; showEditModal := showEditModal st;
     selectedCategory := selectedCategory st; newCategory := newCategory st;
     error := error st; currentPage := currentPage st; totalPages := x;
     searchQuery := searchQuery st |}.
Definition set_searchQuery (x : string) (st : State) : State :=
  {| categories := categories st; loading := loading st;
     showAddModal := showAddModal st; showEditModal := showEditModal st;
     selectedCategory := selectedCategory st; newCategory := newCategory st;
     error := error st; currentPage := currentPage st; totalPages := totalPages st;
     searchQuery := x |}.

Definition init : State :=
  {| categories := []; loading := true; showAddModal := false; showEditModal := false;
     selectedCategory := None; newCategory := {| name := "" |}; error := None;
     currentPage := 1; totalPages := 1; searchQuery := "" |}.

Definition fetchCategories_query (st : State) : Query :=
  let query := from "categories" .> select None true false
                 .> eq "is_deleted" (VBool false) in
  let query := if truthy (searchQuery st)
               then query .> ilike "name" ("%" +:+ searchQuery st +:+ "%")
               else query in
  query .> range ((currentPage st - 1) * itemsPerPage)
                 (currentPage st * itemsPerPage - 1)
        .> order "created_at" false.

Definition fetchCategories (st : State) : M State :=
  let st := set_error None (set_loading true st) in
  res ← await_select (fetchCategories_query st);
  match r_error res with
  | Some err =>
      mret (set_loading false (set_error (Some "Failed to load categories") st))
  | None =>
      mret (set_loading false
             (set_totalPages (ceil_div (or_zero (r_count res)) itemsPerPage)
               (set_categories (default [] (r_data res)) st)))
  end.

Definition handlePageChange (page : Z) (st : State) : M State :=
  fetchCategories (set_currentPage page st).

Definition handleSearch (value : string) (st : State) : M State :=
  fetchCategories (set_currentPage 1 (set_searchQuery value st)).

Definition add_precheck (st : State) : Query :=
  from "categories" .> select (Some ["id"]) false false
    .> eq "name" (VStr (trim (name (newCategory st))))
    .> eq "is_deleted" (VBool false).

Definition add_fields (st : State) : Row :=
  {[ "name" := VStr (trim (name (newCategory st)));
     "is_deleted" := VBool false ]}.

Definition add_failed (e : PgError) (st : State) : M State :=
  toast.error ("Failed to add category: " +:+ error_message e);; mret st.

Definition handleAddCategory (st : State) : M State :=
  if negb (truthy (trim (name (newCategory st)))) then
    toast.error "Category name is required";; mret st
  else
    chk ← await_single (add_precheck st);
    match check_failed chk with
    | Some e => add_failed e st
    | None =>
        if bool_decide (is_Some (s_data chk)) then
          toast.error "A category with this name already exists";; mret st
        else
          err ← await_insert "categories" (add_fields st);
          match err with
          | Some e => add_failed e st
          | None =>
              toast.success "Category added successfully";;
              fetchCategories (set_newCategory {| name := "" |} (set_showAddModal false st))
          end
    end.

Definition edit_precheck (sel : Row) : Query :=
  from "categories" .> select (Some ["id"]) false false
    .> eq "name" (VStr (trim (str sel "name")))
    .> eq "is_deleted" (VBool false)
    .> neq "id" (cell sel "id").

Definition edit_fields (sel : Row) (t : Z) : Row :=
  {[ "name" := VStr (trim (str sel "name"));
     "updated_at" := VTime t ]}.

Definition edit_failed (st : State) : M State :=
  toast.error "Failed to update category";; mret st.

Definition handleEditCategory (st : State) : M State :=
  match selectedCategory st with
  | None => mret st
  | Some sel =>
      if negb (truthy (trim (str sel "name"))) then
        toast.error "Category name is required";; mret st
      else
        chk ← await_single (edit_precheck sel);
        match check_failed chk with
        | Some e => edit_failed st
        | None =>
            if bool_decide (is_Some (s_data chk)) then
              toast.error "A category with this name already exists";; mret st
            else
              t ← now;
              err ← await_update "categories" (edit_fields sel t)
                                 [FEq "id" (cell sel "id")];
              match err with
              | Some e => edit_failed st
              | None =>
                  toast.success "Category updated successfully";;
                  fetchCategories (set_selectedCategory None (set_showEditModal false st))
              end
        end
  end.

Definition handleDeleteCategory (confirm : string → bool) (categoryId : string)
  (st : State) : M State :=
  if negb (confirm "Are you sure you want to delete this category?") then mret st
  else
    err ← await_update "categories" {[ "is_deleted" := VBool true ]}
                       [FEq "id" (VStr categoryId)];
    match err with
    | Some e => toast.error "Failed to delete category";; mret st
    | None =>
        toast.success "Category deleted successfully";;
        fetchCategories st
    end.

Definition handleCloseAddModal (st : State) : State :=
  set_newCategory {| name := "" |} (set_showAddModal false st).

Definition handleCloseEditModal (st : State) : State :=
  set_selectedCategory None (set_showEditModal false st).

End Categories.

(** * The subcategories screen ([routes/admin/subcategories/+page.svelte])

    The list query also embeds the parent category's name in each row
    ([category:categories(name)]); that embedded object is not part of the
    rows here. *)

Module Subcategories.

Record NewSubcategory := { name : string; category_id : string }.

Record State := {
  categories : list Row;
  subcategories : list Row;
  loading : bool;
  showAddModal : bool;
  showEditModal : bool;
  selectedSubcategory : option Row;
  newSubcategory : NewSubcategory;
  error : option string;
  currentPage : Z;
  totalPages : Z;
  searchQuery : string
}.

Definition set_categories (x : list Row) (st : State) : State :=
  {| categories := x; subcategories := subcategories st; loading := loading st;
     showAddModal := showAddModal st; showEditModal := showEditModal st;
     selectedSubcategory := selectedSubcategory st;
     newSubcategory := newSubcategory st; error := error st;
     currentPage := currentPage st; totalPages := totalPages st;
     searchQuery := searchQuery st |}.
Definition set_subcategories (x : list Row) (st : State) : State :=
  {| categories := categories st; subcategories := x; loading := loading st;
     showAddModal := showAddModal st; showEditModal := showEditModal st;
     selectedSubcategory := selectedSubcategory st;
     newSubcategory := newSubcategory st; error := error st;
     currentPage := currentPage st; totalPages := totalPages st;
     searchQuery := searchQuery st |}.
Definition set_loading (x : bool) (st : State) : State :=
  {| categories := categories st; subcategories := subcategories st; loading := x;
     showAddModal := showAddModal st; showEditModal := showEditModal st;
     selectedSubcategory := selectedSubcategory st;
     newSubcategory := newSubcategory st; error := error st;
     currentPage := currentPage st; totalPages := totalPages st;
     searchQuery := searchQuery st |}.
Definition set_showAddModal (x : bool) (st : State) : State :=
  {| categories := categories st; subcategories := subcategories st;
     loading := loading st; showAddModal := x; showEditModal := showEditModal st;
     selectedSubcategory := selectedSubcategory st;
     newSubcategory := newSubcategory st; error := error st;
     currentPage := currentPage st; totalPages := totalPages st;
     searchQuery := searchQuery st |}.
Definition set_showEditModal (x : bool) (st : State) : State :=
  {| categories := categories st; subcategories := subcategories st;
     loading := loading st; showAddModal := showAddModal st; showEditModal := x;
     selectedSubcategory := selectedSubcategory st;
     newSubcategory := newSubcategory st; error := error st;
     currentPage := currentPage st; totalPages := totalPages st;
     searchQuery := searchQuery st |}.
Definition set_selectedSubcategory (x : option Row) (st : State) : State :=
  {| categories := categories st; subcategories := subcategories st;
     loading := loading st; showAddModal := showAddModal st;
     showEditModal := showEditModal st; selectedSubcategory := x;
     newSubcategory := newSubcategory st; error := error st;
     currentPage := currentPage st; totalPages := totalPages st;
     searchQuery := searchQuery st |}.
Definition set_newSubcategory (x : NewSubcategory) (st : State) : State :=
  {| categories := categories st; subcategories := subcategories st;
     loading := loading st; showAddModal := showAddModal st;
     showEditModal := showEditModal st;
     selectedSubcategory := selectedSubcategory st; newSubcategory := x;
     error := error st; currentPage := currentPage st; totalPages := totalPages st;
     searchQuery := searchQuery st |}.
Definition set_error (x : option string) (st : State) : State :=
  {| categories := categories st; subcategories := subcategories st;
     loading := loading st; showAddModal := showAddModal st;
     showEditModal := showEditModal st;
     selectedSubcategory := selectedSubcategory st;
     newSubcategory := newSubcategory st; error := x;
     currentPage := currentPage st; totalPages := totalPages st;
     searchQuery := searchQuery st |}.
Definition set_currentPage (x : Z) (st : State) : State :=
  {| categories := categories st; subcategories := subcategories st;
     loading := loading st; showAddModal := showAddModal st;
     showEditModal := showEditModal st;
     selectedSubcategory := selectedSubcategory st;
     newSubcategory := newSubcategory st; error := error st; currentPage := x;
     totalPages := totalPages st; searchQuery := searchQuery st |}.
Definition set_totalPages (x : Z) (st : State) : State :=
  {| categories := categories st; subcategories := subcategories st;
     loading := loading st; showAddModal := showAddModal st;
     showEditModal := showEditModal st;
     selectedSubcategory := selectedSubcategory st;
     newSubcategory := newSubcategory st; error := error st;
     currentPage := currentPage st; totalPages := x;
     searchQuery := searchQuery st |}.
Definition set_searchQuery (x : string) (st : State) : State :=
  {| categories := categories st; subcategories := subcategories st;
     loading := loading st; showAddModal := showAddModal st;
     showEditModal := showEditModal st;
     selectedSubcategory := selectedSubcategory st;
     newSubcategory := newSubcategory st; error := error st;
     currentPage := currentPage st; totalPages := totalPages st;
     searchQuery := x |}.

Definition empty_subcategory : NewSubcategory := {| name := ""; category_id := "" |}.

Definition init : State :=
  {| categories := []; subcategories := []; loading := true; showAddModal := false;
     showEditModal := false; selectedSubcategory := None;
     newSubcategory := empty_subcategory; error := None;
     currentPage := 1; totalPages := 1; searchQuery := "" |}.

Definition loadCategories (st : State) : M State :=
  res ← await_select (from "categories" .> select (Some ["id"; "name"]) false false
                        .> eq "is_deleted" (VBool false)
                        .> order "name" true);
  match r_error res with
  | Some err => toast.error "Failed to load categories";; mret st
  | None => mret (set_categories (default [] (r_data res)) st)
  end.

Definition loadSubcategories_query (st : State) : Query :=
  let query := from "subcategories" .> select None true false
                 .> eq "is_deleted" (VBool false) in
  let query := if truthy (searchQuery st)
               then query .> ilike "name" ("%" +:+ searchQuery st +:+ "%")
               else query in
  query .> range ((currentPage st - 1) * itemsPerPage)
                 (currentPage st * itemsPerPage - 1)
        .> order "created_at" false.

Definition loadSubcategories (st : State) : M State :=
  let st := set_error None (set_loading true st) in
  res ← await_select (loadSubcategories_query st);
  match r_error res with
  | Some err =>
      mret (set_loading false (set_error (Some "Failed to load subcategories") st))
  | None =>
      mret (set_loading false
             (set_totalPages (ceil_div (or_zero (r_count res)) itemsPerPage)
               (set_subcategories (default [] (r_data res)) st)))
  end.

Definition handlePageChange (page : Z) (st : State) : M State :=
  loadSubcategories (set_currentPage page st).

Definition handleSearch (value : string) (st : State) : M State :=
  loadSubcategories (set_currentPage 1 (set_searchQuery value st)).

Definition add_precheck (st : State) : Query :=
  from "subcategories" .> select (Some ["id"]) false false
    .> eq "name" (VStr (trim (name (newSubcategory st))))
    .> eq "category_id" (VStr (category_id (newSubcategory st)))
    .> eq "is_deleted" (VBool false).

Definition add_fields (st : State) : Row :=
  {[ "name" := VStr (trim (name (newSubcategory st)));
     "category_id" := VStr (category_id (newSubcategory st));
     "is_deleted" := VBool false ]}.

Definition add_failed (e : PgError) (st : State) : M State :=
  toast.error ("Failed to add subcategory: " +:+ error_message e);; mret st.

Definition handleAddSubcategory (st : State) : M State :=
  if negb (truthy (trim (name (newSubcategory st)))) then
    toast.error "Subcategory name is required";; mret st
  else if negb (truthy (category_id (newSubcategory st))) then
    toast.error "Please select a category";; mret st
  else
    chk ← await_single (add_precheck st);
    match check_failed chk with
    | Some e => add_failed e st
    | None =>
        if bool_decide (is_Some (s_data chk)) then
          toast.error
            "A subcategory with this name already exists in the selected category";;
          mret st
        else
          err ← await_insert "subcategories" (add_fields st);
          match err with
          | Some e => add_failed e st
          | None =>
              toast.success "Subcategory added successfully";;
              loadSubcategories
                (set_newSubcategory empty_subcategory (set_showAddModal false st))
          end
    end.

Definition edit_precheck (sel : Row) : Query :=
  from "subcategories" .> select (Some ["id"]) false false
    .> eq "name" (VStr (trim (str sel "name")))
    .> eq "category_id" (VStr (str sel "category_id"))
    .> eq "is_deleted" (VBool false)
    .> neq "id" (cell sel "id").

Definition edit_fields (sel : Row) (t : Z) : Row :=
  {[ "name" := VStr (trim (str sel "name"));
     "category_id" := VStr (str sel "category_id");
     "updated_at" := VTime t ]}.

Definition edit_failed (st : State) : M State :=
  toast.error "Failed to update subcategory";; mret st.

Definition handleEditSubcategory (st : State) : M State :=
  match selectedSubcategory st with
  | None => mret st
  | Some sel =>
      if negb (truthy (trim (str sel "name"))) then
        toast.error "Subcategory name is required";; mret st
      else if negb (truthy (str sel "category_id")) then
        toast.error "Please select a category";; mret st
      else
        chk ← await_single (edit_precheck sel);
        match check_failed chk with
        | Some e => edit_failed st
        | None =>
            if bool_decide (is_Some (s_data chk)) then
              toast.error
                "A subcategory with this name already exists in the selected category";;
              mret st
            else
              t ← now;
              err ← await_update "subcategories" (edit_fields sel t)
                                 [FEq "id" (cell sel "id")];
              match err with
              | Some e => edit_failed st
              | None =>
                  toast.success "Subcategory updated successfully";;
                  loadSubcategories
                    (set_selectedSubcategory None (set_showEditModal false st))
              end
        end
  end.

Definition handleDeleteSubcategory (confirm : string → bool) (subcategoryId : string)
  (st : State) : M State :=
  if negb (confirm "Are you sure you want to delete this subcategory?") then mret st
  else
    err ← await_update "subcategories" {[ "is_deleted" := VBool true ]}
                       [FEq "id" (VStr subcategoryId)];
    match err with
    | Some e => toast.error "Failed to delete subcategory";; mret st
    | None =>
        toast.success "Subcategory deleted successfully";;
        loadSubcategories st
    end.

Definition handleCloseAddModal (st : State) : State :=
  set_newSubcategory empty_subcategory (set_showAddModal false st).

Definition handleCloseEditModal (st : State) : State :=
  set_selectedSubcategory None (set_showEditModal false st).

End Subcategories.

(** * The sizes screen (the second component of
    [routes/admin/subcategories/+page.svelte]) *)

Module Sizes.

Record NewSize := {
  label : string;
  size_type_of : size_type;
  category : size_category;
  numeric_value : option Z;
  display_order : Z;
  description : string;
  is_active : bool
}.

Record State := {
  sizes : list Row;
  loading : bool;
  showAddModal : bool;
  showEditModal : bool;
  selectedSize : option Row;
  newSize : NewSize;
  error : option string;
  currentPage : Z;
  totalPages : Z;
  searchQuery : string
}.

Definition set_sizes (x : list Row) (st : State) : State :=
  {| sizes := x; loading := loading st; showAddModal := showAddModal st;
     showEditModal := showEditModal st; selectedSize := selectedSize st;
     newSize := newSize st; error := error st; currentPage := currentPage st;
     totalPages := totalPages st; searchQuery := searchQuery st |}.
Definition set_loading (x : bool) (st : State) : State :=
  {| sizes := sizes st; loading := x; showAddModal := showAddModal st;
     showEditModal := showEditModal st; selectedSize := selectedSize st;
     newSize := newSize st; error := error st; currentPage := currentPage st;
     totalPages := totalPages st; searchQuery := searchQuery st |}.
Definition set_showAddModal (x : bool) (st : State) : State :=
  {| sizes := sizes st; loading := loading st; showAddModal := x;
     showEditModal := showEditModal st; selectedSize := selectedSize st;
     newSize := newSize st; error := error st; currentPage := currentPage st;
     totalPages := totalPages st; searchQuery := searchQuery st |}.
Definition set_showEditModal (x : bool) (st : State) : State :=
  {| sizes := sizes st; loading := loading st; showAddModal := showAddModal st;
     showEditModal := x; selectedSize := selectedSize st; newSize := newSize st;
     error := error st; currentPage := currentPage st; totalPages := totalPages st;
     searchQuery := searchQuery st |}.
Definition set_selectedSize (x : option Row) (st : State) : State :=
  {| sizes := sizes st; loading := loading st; showAddModal := showAddModal st;
     showEditModal := showEditModal st; selectedSize := x; newSize := newSize st;
     error := error st; currentPage := currentPage st; totalPages := totalPages st;
     searchQuery := searchQuery st |}.
Definition set_newSize (x : NewSize) (st : State) : State :=
  {| sizes := sizes st; loading := loading st; showAddModal := showAddModal st;
     showEditModal := showEditModal st; selectedSize := selectedSize st;
     newSize := x; error := error st; currentPage := currentPage st;
     totalPages := totalPages st; searchQuery := searchQuery st |}.
Definition set_error (x : option string) (st : State) : State :=
  {| sizes := sizes st; loading := loading st; showAddModal := showAddModal st;
     showEditModal := showEditModal st; selectedSize := selectedSize st;
     newSize := newSize st; error := x; currentPage := currentPage st;
     totalPages := totalPages st; searchQuery := searchQuery st |}.
Definition set_currentPage (x : Z) (st : State) : State :=
  {| sizes := sizes st; loading := loading st; showAddModal := showAddModal st;
     showEditModal := showEditModal st; selectedSize := selectedSize st;
     newSize := newSize st; error := error st; currentPage := x;
     totalPages := totalPages st; searchQuery := searchQuery st |}.
Definition set_totalPages (x : Z) (st : State) : State :=
  {| sizes := sizes st; loading := loading st; showAddModal := showAddModal st;
     showEditModal := showEditModal st; selectedSize := selectedSize st;
     newSize := newSize st; error := error st; currentPage := currentPage st;
     totalPages := x; searchQuery := searchQuery st |}.
Definition set_searchQuery (x : string) (st : State) : State :=
  {| sizes := sizes st; loading := loading st; showAddModal := showAddModal st;
     showEditModal := showEditModal st; selectedSize := selectedSize st;
     newSize := newSize st; error := error st; currentPage := currentPage st;
     totalPages := totalPages st; searchQuery := x |}.

Definition empty_size : NewSize :=
  {| label := ""; size_type_of := alpha; category := unisex; numeric_value := None;
     display_order := 0; description := ""; is_active := true |}.

Definition init : State :=
  {| sizes := []; loading := true; showAddModal := false; showEditModal := false;
     selectedSize := None; newSize := empty_size; error := None;
     currentPage := 1; totalPages := 1; searchQuery := "" |}.

Definition fetchSizes_query (st : State) : Query :=
  let query := from "sizes" .> select None true false
                 .> eq "is_deleted" (VBool false)
                 .> order "category" true
                 .> order "display_order" true in
  let query := if truthy (searchQuery st)
               then query .> or_ilike [("label", "%" +:+ searchQuery st +:+ "%");
                                       ("description", "%" +:+ searchQuery st +:+ "%")]
               else query in
  query .> range ((currentPage st - 1) * itemsPerPage)
                 (currentPage st * itemsPerPage - 1).

Definition fetchSizes (st : State) : M State :=
  let st := set_error None (set_loading true st) in
  res ← await_select (fetchSizes_query st);
  match r_error res with
  | Some err =>
      mret (set_loading false (set_error (Some "Failed to load sizes") st))
  | None =>
      mret (set_loading false
             (set_totalPages (ceil_div (or_zero (r_count res)) itemsPerPage)
               (set_sizes (default [] (r_data res)) st)))
  end.

Definition handlePageChange (page : Z) (st : State) : M State :=
  fetchSizes (set_currentPage page st).

Definition handleSearch (value : string) (st : State) : M State :=
  fetchSizes (set_currentPage 1 (set_searchQuery value st)).

(** [s?.trim() || null] *)
Definition trimmed_or_null (s : string) : val :=
  if truthy (trim s) then VStr (trim s) else VNull.

Definition num_or_null (n : option Z) : val :=
  match n with Some z => VNum z | None => VNull end.

Definition add_precheck (st : State) : Query :=
  from "sizes" .> select (Some ["id"]) false false
    .> eq "label" (VStr (trim (label (newSize st))))
    .> eq "category" (size_category_val (category (newSize st)))
    .> eq "is_deleted" (VBool false).

Definition add_fields (st : State) : Row :=
  {[ "label" := VStr (trim (label (newSize st)));
     "size_type" := size_type_val (size_type_of (newSize st));
     "category" := size_category_val (category (newSize st));
     "numeric_value" := num_or_null (numeric_value (newSize st));
     "display_order" := VNum (display_order (newSize st));
     "description" := trimmed_or_null (description (newSize st));
     "is_active" := VBool (is_active (newSize st));
     "is_deleted" := VBool false ]}.

Definition add_failed (e : PgError) (st : State) : M State :=
  toast.error ("Failed to add size: " +:+ error_message e);; mret st.

Definition handleAddSize (st : State) : M State :=
  if negb (truthy (trim (label (newSize st)))) then
    toast.error "Size label is required";; mret st
  else
    chk ← await_single (add_precheck st);
    match check_failed chk with
    | Some e => add_failed e st
    | None =>
        if bool_decide (is_Some (s_data chk)) then
          toast.error "A size with this label already exists in this category";;
          mret st
        else
          err ← await_insert "sizes" (add_fields st);
          match err with
          | Some e => add_failed e st
          | None =>
              toast.success "Size added successfully";;
              fetchSizes (set_newSize empty_size (set_showAddModal false st))
          end
    end.

Definition edit_precheck (sel : Row) : Query :=
  from "sizes" .> select (Some ["id"]) false false
    .> eq "label" (VStr (trim (str sel "label")))
    .> eq "category" (cell sel "category")
    .> eq "is_deleted" (VBool false)
    .> neq "id" (cell sel "id").

Definition edit_fields (sel : Row) (t : Z) : Row :=
  {[ "label" := VStr (trim (str sel "label"));
     "size_type" := cell sel "size_type";
     "category" := cell sel "category";
     "numeric_value" := cell sel "numeric_value";
     "display_order" := cell sel "display_order";
     "description" := trimmed_or_null (str sel "description");
     "is_active" := cell sel "is_active";
     "updated_at" := VTime t ]}.

Definition edit_failed (st : State) : M State :=
  toast.error "Failed to update size";; mret st.

Definition handleEditSize (st : State) : M State :=
  match selectedSize st with
  | None => mret st
  | Some sel =>
      if negb (truthy (trim (str sel "label"))) then
        toast.error "Size label is required";; mret st
      else
        chk ← await_single (edit_precheck sel);
        match check_failed chk with
        | Some e => edit_failed st
        | None =>
            if bool_decide (is_Some (s_data chk)) then
              toast.error "A size with this label already exists in this category";;
              mret st
            else
              t ← now;
              err ← await_update "sizes" (edit_fields sel t)
                                 [FEq "id" (cell sel "id")];
              match err with
              | Some e => edit_failed st
              | None =>
                  toast.success "Size updated successfully";;
                  fetchSizes (set_selectedSize None (set_showEditModal false st))
              end
        end
  end.

Definition handleDeleteSize (confirm : string → bool) (sizeId : string)
  (st : State) : M State :=
  if negb (confirm "Are you sure you want to delete this size?") then mret st
  else
    err ← await_update "sizes" {[ "is_deleted" := VBool true ]}
                       [FEq "id" (VStr sizeId)];
    match err with
    | Some e => toast.error "Failed to delete size";; mret st
    | None =>
        toast.success "Size deleted successfully";;
        fetchSizes st
    end.

Definition handleCloseAddModal (st : State) : State :=
  set_newSize empty_size (set_showAddModal false st).

Definition handleCloseEditModal (st : State) : State :=
  set_selectedSize None (set_showEditModal false st).

End Sizes.

(** * The sellers screen ([unnamed/part_001])

    The list query joins each user with its e-mail rows
    ([user_emails!inner(email)]): a user without an e-mail row is left out;
    the embedded e-mail objects are not part of the rows here.  The success
    banner clears itself on a timer, which is not shown. *)

Module Sellers.

Record SellerFormData := {
  id : option string;
  email : string;
  name : string;
  gender : string;
  age : Z
}.

Record State := {
  sellers : list Row;
  isLoading : bool;
  error : option string;
  success : option string;
  currentPage : Z;
  totalPages : Z;
  totalItems : Z;
  showForm : bool;
  isEditing : bool;
  formData : SellerFormData
}.

Definition set_sellers (x : list Row) (st : State) : State :=
  {| sellers := x; isLoading := isLoading st; error := error st;
     success := success st; currentPage := currentPage st;
     totalPages := totalPages st; totalItems := totalItems st;
     showForm := showForm st; isEditing := isEditing st; formData := formData st |}.
Definition set_isLoading (x : bool) (st : State) : State :=
  {| sellers := sellers st; isLoading := x; error := error st;
     success := success st; currentPage := currentPage st;
     totalPages := totalPages st; totalItems := totalItems st;
     showForm := showForm st; isEditing := isEditing st; formData := formData st |}.
Definition set_error (x : option string) (st : State) : State :=
  {| sellers := sellers st; isLoading := isLoading st; error := x;
     success := success st; currentPage := currentPage st;
     totalPages := totalPages st; totalItems := totalItems st;
     showForm := showForm st; isEditing := isEditing st; formData := formData st |}.
Definition set_success (x : option string) (st : State) : State :=
  {| sellers := sellers st; isLoading := isLoading st; error := error st;
     success := x; currentPage := currentPage st;
     totalPages := totalPages st; totalItems := totalItems st;
     showForm := showForm st; isEditing := isEditing st; formData := formData st |}.
Definition set_currentPage (x : Z) (st : State) : State :=
  {| sellers := sellers st; isLoading := isLoading st; error := error st;
     success := success st; currentPage := x;
     totalPages := totalPages st; totalItems := totalItems st;
     showForm := showForm st; isEditing := isEditing st; formData := formData st |}.
Definition set_totalPages (x : Z) (st : State) : State :=
  {| sellers := sellers st; isLoading := isLoading st; error := error st;
     success := success st; currentPage := currentPage st;
     totalPages := x; totalItems := totalItems st; showForm := showForm st;
     isEditing := isEditing st; formData := formData st |}.
Definition set_totalItems (x : Z) (st : State) : State :=
  {| sellers := sellers st; isLoading := isLoading st; error := error st;
     success := success st; currentPage := currentPage st;
     totalPages := totalPages st; totalItems := x; showForm := showForm st;
     isEditing := isEditing st; formData := formData st |}.
Definition set_showForm (x : bool) (st : State) : State :=
  {| sellers := sellers st; isLoading := isLoading st; error := error st;
     success := success st; currentPage := currentPage st;
     totalPages := totalPages st; totalItems := totalItems st; showForm := x;
     isEditing := isEditing st; formData := formData st |}.
Definition set_isEditing (x : bool) (st : State) : State :=
  {| sellers := sellers st; isLoading := isLoading st; error := error st;
     success := success st; currentPage := currentPage st;
     totalPages := totalPages st; totalItems := totalItems st;
     showForm := showForm st; isEditing := x; formData := formData st |}.
Definition set_formData (x : SellerFormData) (st : State) : State :=
  {| sellers := sellers st; isLoading := isLoading st; error := error st;
     success := success st; currentPage := currentPage st;
     totalPages := totalPages st; totalItems := totalItems st;
     showForm := showForm st; isEditing := isEditing st; formData := x |}.

Definition empty_form : SellerFormData :=
  {| id := None; email := ""; name := ""; gender := "other"; age := 18 |}.

Definition init : State :=
  {| sellers := []; isLoading := false; error := None; success := None;
     currentPage := 1; totalPages := 1; totalItems := 0;
     showForm := false; isEditing := false; formData := empty_form |}.

Definition count_query : Query :=
  from "users" .> select None true true
    .> eq "user_type" (VStr "seller")
    .> eq "is_deleted" (VBool false).

Definition page_query (st : State) : Query :=
  from "users" .> select None false false .> inner "user_emails" "user_id"
    .> eq "user_type" (VStr "seller")
    .> eq "is_deleted" (VBool false)
    .> range ((currentPage st - 1) * itemsPerPage)
             (currentPage st * itemsPerPage - 1)
    .> order "created_at" false.

Definition load_failed (e : PgError) (st : State) : State :=
  set_isLoading false
    (set_error (Some (message_or (message e)
                        "An error occurred while loading sellers")) st).

Definition loadSellers (st : State) : M State :=
  let st := set_error None (set_isLoading true st) in
  res ← await_select count_query;
  match r_error res with
  | Some countError => mret (load_failed countError st)
  | None =>
      let st := set_totalItems (or_zero (r_count res)) st in
      let st := set_totalPages (ceil_div (totalItems st) itemsPerPage) st in
      res ← await_select (page_query st);
      match r_error res with
      | Some sellersError => mret (load_failed sellersError st)
      | None => mret (set_isLoading false (set_sellers (default [] (r_data res)) st))
      end
  end.

Definition showSuccessMessage (msg : string) (st : State) : State :=
  set_success (Some msg) st.

Definition add_failed (msg : string) (st : State) : M State :=
  mret (set_isLoading false
          (set_error (Some (message_or msg "An error occurred while adding seller")) st)).

Definition handleAddSeller (st : State) : M State :=
  let st := set_success None (set_error None (set_isLoading true st)) in
  result ← await_invite (email (formData st));
  match result with
  | None => add_failed (message network_error) st
  | Some result =>
      if negb (Invite.success result) then add_failed (Invite.error result) st
      else
        userError ← await_insert "users"
          {[ "id" := VStr (Invite.user_id result);
             "user_type" := VStr "seller";
             "status" := VStr "pending_verification";
             "name" := VStr (name (formData st));
             "gender" := VStr (gender (formData st));
             "age" := VNum (age (formData st)) ]};
        match userError with
        | Some e => add_failed (message e) st
        | None =>
            emailError ← await_insert "user_emails"
              {[ "user_id" := VStr (Invite.user_id result);
                 "email" := VStr (email (formData st));
                 "is_primary" := VBool true ]};
            match emailError with
            | Some e => add_failed (message e) st
            | None =>
                st ← loadSellers
                       (set_showForm false
                          (showSuccessMessage
                             "Seller invited successfully. They will receive an email to set up their account."
                             st));
                mret (set_isLoading false st)
            end
        end
  end.

(** [.eq('id', formData.id)] with an optional id *)
Definition id_val (i : option string) : val :=
  match i with Some s => VStr s | None => VNull end.

Definition edit_fields (st : State) : Row :=
  {[ "name" := VStr (name (formData st));
     "gender" := VStr (gender (formData st));
     "age" := VNum (age (formData st)) ]}.

Definition handleEditSeller (st : State) : M State :=
  let st := set_success None (set_error None (set_isLoading true st)) in
  updateError ← await_update "users" (edit_fields st)
                             [FEq "id" (id_val (id (formData st)))];
  match updateError with
  | Some e =>
      mret (set_isLoading false
              (set_error (Some (message_or (message e)
                                  "An error occurred while updating seller")) st))
  | None =>
      st ← loadSellers
             (set_showForm false (showSuccessMessage "Seller updated successfully" st));
      mret (set_isLoading false st)
  end.

Definition handleDeleteSeller (confirm : string → bool) (sellerId : string)
  (st : State) : M State :=
  if negb (confirm "Are you sure you want to delete this seller?") then mret st
  else
    let st := set_success None (set_error None (set_isLoading true st)) in
    deleteError ← await_update "users" {[ "is_deleted" := VBool true ]}
                               [FEq "id" (VStr sellerId)];
    match deleteError with
    | Some e =>
        mret (set_isLoading false
                (set_error (Some (message_or (message e)
                                    "An error occurred while deleting seller")) st))
    | None =>
        st ← loadSellers (showSuccessMessage "Seller deleted successfully" st);
        mret (set_isLoading false st)
    end.

Definition resetForm (st : State) : State :=
  set_showForm false (set_isEditing false (set_formData empty_form st)).

(** The pager: rendered when [totalPages > 1]; [Previous] is disabled on
    page 1 and [Next] on the last page.  A click on a button that is not
    rendered or is disabled does not reach its handler. *)
Inductive PagerButton := Previous | Next.

Definition pager_rendered (st : State) : bool := 1 <? totalPages st.

Definition pager_disabled (b : PagerButton) (st : State) : bool :=
  match b with
  | Previous => currentPage st =? 1
  | Next => currentPage st =? totalPages st
  end.

Definition pager_click (b : PagerButton) (st : State) : M State :=
  if pager_rendered st && negb (pager_disabled b st) then
    match b with
    | Previous => loadSellers (set_currentPage (currentPage st - 1) st)
    | Next => loadSellers (set_currentPage (currentPage st + 1) st)
    end
  else mret st.

End Sellers.

(** * The earlier brands screen ([unnamed/part_002])

    No paging, no search, no name check; the logo is uploaded to object
    storage before the row is written. *)

Module BrandsLegacy.

Record NewBrand := { name : string; description : string; logo_url : string }.

Record State := {
  brands : list Row;
  loading : bool;
  showAddModal : bool;
  showEditModal : bool;
  selectedBrand : option Row;
  newBrand : NewBrand;
  uploadingLogo : bool;
  selectedFile : option File;
  selectedEditFile : option File
}.

Definition set_brands (x : list Row) (st : State) : State :=
  {| brands := x; loading := loading st; showAddModal := showAddModal st;
     showEditModal := showEditModal st; selectedBrand := selectedBrand st;
     newBrand := newBrand st; uploadingLogo := uploadingLogo st;
     selectedFile := selectedFile st; selectedEditFile := selectedEditFile st |}.
Definition set_loading (x : bool) (st : State) : State :=
  {| brands := brands st; loading := x; showAddModal := showAddModal st;
     showEditModal := showEditModal st; selectedBrand := selectedBrand st;
     newBrand := newBrand st; uploadingLogo := uploadingLogo st;
     selectedFile := selectedFile st; selectedEditFile := selectedEditFile st |}.
Definition set_showAddModal (x : bool) (st : State) : State :=
  {| brands := brands st; loading := loading st; showAddModal := x;
     showEditModal := showEditModal st; selectedBrand := selectedBrand st;
     newBrand := newBrand st; uploadingLogo := uploadingLogo st;
     selectedFile := selectedFile st; selectedEditFile := selectedEditFile st |}.
Definition set_showEditModal (x : bool) (st : State) : State :=
  {| brands := brands st; loading := loading st; showAddModal := showAddModal st;
     showEditModal := x; selectedBrand := selectedBrand st;
     newBrand := newBrand st; uploadingLogo := uploadingLogo st;
     selectedFile := selectedFile st; selectedEditFile := selectedEditFile st |}.
Definition set_selectedBrand (x : option Row) (st : State) : State :=
  {| brands := brands st; loading := loading st; showAddModal := showAddModal st;
     showEditModal := showEditModal st; selectedBrand := x;
     newBrand := newBrand st; uploadingLogo := uploadingLogo st;
     selectedFile := selectedFile st; selectedEditFile := selectedEditFile st |}.
Definition set_newBrand (x : NewBrand) (st : State) : State :=
  {| brands := brands st; loading := loading st; showAddModal := showAddModal st;
     showEditModal := showEditModal st; selectedBrand := selectedBrand st;
     newBrand := x; uploadingLogo := uploadingLogo st;
     selectedFile := selectedFile st; selectedEditFile := selectedEditFile st |}.
Definition set_uploadingLogo (x : bool) (st : State) : State :=
  {| brands := brands st; loading := loading st; showAddModal := showAddModal st;
     showEditModal := showEditModal st; selectedBrand := selectedBrand st;
     newBrand := newBrand st; uploadingLogo := x; selectedFile := selectedFile st;
     selectedEditFile := selectedEditFile st |}.
Definition set_selectedFile (x : option File) (st : State) : State :=
  {| brands := brands st; loading := loading st; showAddModal := showAddModal st;
     showEditModal := showEditModal st; selectedBrand := selectedBrand st;
     newBrand := newBrand st; uploadingLogo := uploadingLogo st; selectedFile := x;
     selectedEditFile := selectedEditFile st |}.
Definition set_selectedEditFile (x : option File) (st : State) : State :=
  {| brands := brands st; loading := loading st; showAddModal := showAddModal st;
     showEditModal := showEditModal st; selectedBrand := selectedBrand st;
     newBrand := newBrand st; uploadingLogo := uploadingLogo st;
     selectedFile := selectedFile st; selectedEditFile := x |}.

Definition empty_brand : NewBrand := {| name := ""; description := ""; logo_url := "" |}.

Definition init : State :=
  {| brands := []; loading := true; showAddModal := false; showEditModal := false;
     selectedBrand := None; newBrand := empty_brand; uploadingLogo := false;
     selectedFile := None; selectedEditFile := None |}.

Definition loadBrands_query : Query :=
  from "brands" .> select None false false
    .> eq "is_deleted" (VBool false)
    .> order "created_at" false.

Definition loadBrands (st : State) : M State :=
  let st := set_loading true st in
  res ← await_select loadBrands_query;
  match r_error res with
  | Some err => toast.error "Failed to load brands";; mret (set_loading false st)
  | None => mret (set_loading false (set_brands (default [] (r_data res)) st))
  end.

Definition uploadLogo (file : File) (st : State) : M (option string * State) :=
  let st := set_uploadingLogo true st in
  rnd ← random_base36;
  let fileName := rnd +:+ "." +:+ file_ext (f_name file) in
  uploadError ← await_upload "brand-logos" fileName file;
  match uploadError with
  | Some e =>
      toast.error "Failed to upload logo";;
      mret (None, set_uploadingLogo false st)
  | None =>
      mret (Some (getPublicUrl "brand-logos" fileName), set_uploadingLogo false st)
  end.

Definition add_fields (st : State) (logoUrl : string) : Row :=
  {[ "name" := VStr (name (newBrand st));
     "description" := VStr (description (newBrand st));
     "logo_url" := VStr logoUrl;
     "is_deleted" := VBool false ]}.

Definition insert_brand (logoUrl : string) (st : State) : M State :=
  err ← await_insert "brands" (add_fields st logoUrl);
  match err with
  | Some e => toast.error "Failed to add brand";; mret st
  | None =>
      toast.success "Brand added successfully";;
      loadBrands (set_selectedFile None
                   (set_newBrand empty_brand (set_showAddModal false st)))
  end.

Definition handleAddBrand (st : State) : M State :=
  match selectedFile st with
  | Some file =>
      '(uploadedUrl, st) ← uploadLogo file st;
      match uploadedUrl with
      | Some url =>
          if truthy url then insert_brand url st
          else toast.error "Failed to upload logo";; mret st
      | None => toast.error "Failed to upload logo";; mret st
      end
  | None => insert_brand (logo_url (newBrand st)) st
  end.

Definition edit_fields (sel : Row) (logoUrl : val) (t : Z) : Row :=
  {[ "name" := cell sel "name";
     "description" := cell sel "description";
     "logo_url" := logoUrl;
     "updated_at" := VTime t ]}.

Definition update_brand (sel : Row) (logoUrl : val) (st : State) : M State :=
  t ← now;
  err ← await_update "brands" (edit_fields sel logoUrl t) [FEq "id" (cell sel "id")];
  match err with
  | Some e => toast.error "Failed to update brand";; mret st
  | None =>
      toast.success "Brand updated successfully";;
      loadBrands (set_selectedEditFile None
                   (set_selectedBrand None (set_showEditModal false st)))
  end.

Definition handleEditBrand (st : State) : M State :=
  match selectedBrand st with
  | None => mret st
  | Some sel =>
      match selectedEditFile st with
      | Some file =>
          '(uploadedUrl, st) ← uploadLogo file st;
          match uploadedUrl with
          | Some url =>
              if truthy url then update_brand sel (VStr url) st
              else toast.error "Failed to upload logo";; mret st
          | None => toast.error "Failed to upload logo";; mret st
          end
      | None => update_brand sel (cell sel "logo_url") st
      end
  end.

Definition handleDeleteBrand (confirm : string → bool) (brandId : string)
  (st : State) : M State :=
  if negb (confirm "Are you sure you want to delete this brand?") then mret st
  else
    err ← await_update "brands" {[ "is_deleted" := VBool true ]}
                       [FEq "id" (VStr brandId)];
    match err with
    | Some e => toast.error "Failed to delete brand";; mret st
    | None =>
        toast.success "Brand deleted successfully";;
        loadBrands st
    end.

End BrandsLegacy.

(** * The image pickers ([lib/components/ImageUpload.svelte])

    The file holds two versions of the component.  Each is embedded with
    the events it has dispatched so far and the object URLs it has created
    and not yet revoked. *)

(** [s.startsWith(p)] *)
Fixpoint startsWith (p s : string) : bool :=
  match p, s with
  | EmptyString, _ => true
  | String a p', String b s' => Ascii.eqb a b && startsWith p' s'
  | String _ _, EmptyString => false
  end.

Inductive ModalType := modal_add | modal_edit.

(** A message is a literal, or the size message of the first picker, which
    prints [maxSize / 1024 / 1024] between its two literal halves. *)
Inductive Message :=
  | text (s : string)
  | size_limit (maxSize : Z).   (* `File size must be less than ${...}MB` *)

Inductive Event :=
  | fileSelect (file : File) (tag : option ModalType)
  | error_event (message : Message)
  | remove.

(** [URL.createObjectURL]: a fresh URL per call. *)
Definition object_url (n : nat) : string := "blob:" +:+ pretty n.

(** ** First version: drag and drop, errors as events *)

Module ImageUpload.

Record Picker := {
  currentImageUrl : option string;
  accept : string;
  maxSize : Z;
  dragActive : bool;
  error : option Message;
  previewUrl : option string;
  dispatched : list Event;
  object_urls : list string;
  created : nat
}.

Definition set_currentImageUrl (x : option string) (st : Picker) : Picker :=
  {| currentImageUrl := x; accept := accept st; maxSize := maxSize st;
     dragActive := dragActive st; error := error st; previewUrl := previewUrl st;
     dispatched := dispatched st; object_urls := object_urls st;
     created := created st |}.
Definition set_accept (x : string) (st : Picker) : Picker :=
  {| currentImageUrl := currentImageUrl st; accept := x; maxSize := maxSize st;
     dragActive := dragActive st; error := error st; previewUrl := previewUrl st;
     dispatched := dispatched st; object_urls := object_urls st;
     created := created st |}.
Definition set_maxSize (x : Z) (st : Picker) : Picker :=
  {| currentImageUrl := currentImageUrl st; accept := accept st; maxSize := x;
     dragActive := dragActive st; error := error st; previewUrl := previewUrl st;
     dispatched := dispatched st; object_urls := object_urls st;
     created := created st |}.
Definition set_dragActive (x : bool) (st : Picker) : Picker :=
  {| currentImageUrl := currentImageUrl st; accept := accept st;
     maxSize := maxSize st; dragActive := x; error := error st;
     previewUrl := previewUrl st; dispatched := dispatched st;
     object_urls := object_urls st; created := created st |}.
Definition set_error (x : option Message) (st : Picker) : Picker :=
  {| currentImageUrl := currentImageUrl st; accept := accept st;
     maxSize := maxSize st; dragActive := dragActive st; error := x;
     previewUrl := previewUrl st; dispatched := dispatched st;
     object_urls := object_urls st; created := created st |}.
Definition set_previewUrl (x : option string) (st : Picker) : Picker :=
  {| currentImageUrl := currentImageUrl st; accept := accept st;
     maxSize := maxSize st; dragActive := dragActive st; error := error st;
     previewUrl := x; dispatched := dispatched st; object_urls := object_urls st;
     created := created st |}.
Definition set_dispatched (x : list Event) (st : Picker) : Picker :=
  {| currentImageUrl := currentImageUrl st; accept := accept st;
     maxSize := maxSize st; dragActive := dragActive st; error := error st;
     previewUrl := previewUrl st; dispatched := x; object_urls := object_urls st;
     created := created st |}.
Definition set_object_urls (x : list string) (st : Picker) : Picker :=
  {| currentImageUrl := currentImageUrl st; accept := accept st;
     maxSize := maxSize st; dragActive := dragActive st; error := error st;
     previewUrl := previewUrl st; dispatched := dispatched st; object_urls := x;
     created := created st |}.
Definition set_created (x : nat) (st : Picker) : Picker :=
  {| currentImageUrl := currentImageUrl st; accept := accept st;
     maxSize := maxSize st; dragActive := dragActive st; error := error st;
     previewUrl := previewUrl st; dispatched := dispatched st;
     object_urls := object_urls st; created := x |}.

Definition mount (currentImageUrl : option string) (maxSize : Z) : Picker :=
  {| currentImageUrl := currentImageUrl; accept := "image/*"; maxSize := maxSize;
     dragActive := false; error := None; previewUrl := None; dispatched := [];
     object_urls := []; created := 0 |}.

Definition default_maxSize : Z := 1048576.

Definition dispatch (e : Event) (p : Picker) : Picker :=
  set_dispatched (dispatched p ++ [e]) p.

Definition revokeObjectURL (url : string) (p : Picker) : Picker :=
  set_object_urls (filter (λ u, u ≠ url) (object_urls p)) p.

Definition revoke_preview (p : Picker) : Picker :=
  match previewUrl p with
  | Some url => revokeObjectURL url p
  | None => p
  end.

Definition createObjectURL (p : Picker) : string * Picker :=
  (object_url (created p),
   set_created (S (created p))
     (set_object_urls (object_urls p ++ [object_url (created p)]) p)).

Definition handleFile (file : File) (p : Picker) : Picker :=
  let p := set_error None p in
  if maxSize p <? f_size file then
    dispatch (error_event (size_limit (maxSize p)))
      (set_error (Some (size_limit (maxSize p))) p)
  else if negb (startsWith "image/" (f_type file)) then
    dispatch (error_event (text "Please select an image file"))
      (set_error (Some (text "Please select an image file")) p)
  else
    let p := revoke_preview p in
    let '(url, p) := createObjectURL p in
    dispatch (fileSelect file None) (set_previewUrl (Some url) p).

Definition handleDrop (files : list File) (p : Picker) : Picker :=
  let p := set_dragActive false p in
  match files with
  | [] => p
  | file :: _ => handleFile file p
  end.

Definition handleFileSelect (files : list File) (p : Picker) : Picker :=
  match files with
  | [] => p
  | file :: _ => handleFile file p
  end.

Definition handleRemove (p : Picker) : Picker :=
  dispatch remove
    match previewUrl p with
    | Some url => set_previewUrl None (revokeObjectURL url p)
    | None => p
    end.

Definition onDestroy (p : Picker) : Picker := revoke_preview p.

End ImageUpload.

(** ** Second version: tagged with the modal it serves, errors as toasts *)

Module ImageUploadTagged.

Record Picker := {
  currentImageUrl : option string;
  accept : string;
  maxSize : Z;
  modalType : ModalType;
  dragAndDrop : bool;
  previewUrl : option string;
  isDragging : bool;
  dispatched : list Event;
  object_urls : list string;
  created : nat
}.

Definition set_currentImageUrl (x : option string) (st : Picker) : Picker :=
  {| currentImageUrl := x; accept := accept st; maxSize := maxSize st;
     modalType := modalType st; dragAndDrop := dragAndDrop st;
     previewUrl := previewUrl st; isDragging := isDragging st;
     dispatched := dispatched st; object_urls := object_urls st;
     created := created st |}.
Definition set_accept (x : string) (st : Picker) : Picker :=
  {| currentImageUrl := currentImageUrl st; accept := x; maxSize := maxSize st;
     modalType := modalType st; dragAndDrop := dragAndDrop st;
     previewUrl := previewUrl st; isDragging := isDragging st;
     dispatched := dispatched st; object_urls := object_urls st;
     created := created st |}.
Definition set_maxSize (x : Z) (st : Picker) : Picker :=
  {| currentImageUrl := currentImageUrl st; accept := accept st; maxSize := x;
     modalType := modalType st; dragAndDrop := dragAndDrop st;
     previewUrl := previewUrl st; isDragging := isDragging st;
     dispatched := dispatched st; object_urls := object_urls st;
     created := created st |}.
Definition set_modalType (x : ModalType) (st : Picker) : Picker :=
  {| currentImageUrl := currentImageUrl st; accept := accept st;
     maxSize := maxSize st; modalType := x; dragAndDrop := dragAndDrop st;
     previewUrl := previewUrl st; isDragging := isDragging st;
     dispatched := dispatched st; object_urls := object_urls st;
     created := created st |}.
Definition set_dragAndDrop (x : bool) (st : Picker) : Picker :=
  {| currentImageUrl := currentImageUrl st; accept := accept st;
     maxSize := maxSize st; modalType := modalType st; dragAndDrop := x;
     previewUrl := previewUrl st; isDragging := isDragging st;
     dispatched := dispatched st; object_urls := object_urls st;
     created := created st |}.
Definition set_previewUrl (x : option string) (st : Picker) : Picker :=
  {| currentImageUrl := currentImageUrl st; accept := accept st;
     maxSize := maxSize st; modalType := modalType st;
     dragAndDrop := dragAndDrop st; previewUrl := x; isDragging := isDragging st;
     dispatched := dispatched st; object_urls := object_urls st;
     created := created st |}.
Definition set_isDragging (x : bool) (st : Picker) : Picker :=
  {| currentImageUrl := currentImageUrl st; accept := accept st;
     maxSize := maxSize st; modalType := modalType st;
     dragAndDrop := dragAndDrop st; previewUrl := previewUrl st; isDragging := x;
     dispatched := dispatched st; object_urls := object_urls st;
     created := created st |}.
Definition set_dispatched (x : list Event) (st : Picker) : Picker :=
  {| currentImageUrl := currentImageUrl st; accept := accept st;
     maxSize := maxSize st; modalType := modalType st;
     dragAndDrop := dragAndDrop st; previewUrl := previewUrl st;
     isDragging := isDragging st; dispatched := x; object_urls := object_urls st;
     created := created st |}.
Definition set_object_urls (x : list string) (st : Picker) : Picker :=
  {| currentImageUrl := currentImageUrl st; accept := accept st;
     maxSize := maxSize st; modalType := modalType st;
     dragAndDrop := dragAndDrop st; previewUrl := previewUrl st;
     isDragging := isDragging st; dispatched := dispatched st; object_urls := x;
     created := created st |}.
Definition set_created (x : nat) (st : Picker) : Picker :=
  {| currentImageUrl := currentImageUrl st; accept := accept st;
     maxSize := maxSize st; modalType := modalType st;
     dragAndDrop := dragAndDrop st; previewUrl := previewUrl st;
     isDragging := isDragging st; dispatched := dispatched st;
     object_urls := object_urls st; created := x |}.

Definition mount (currentImageUrl : option string) (maxSize : Z) (tag : ModalType)
  (dragAndDrop : bool) : Picker :=
  {| currentImageUrl := currentImageUrl; accept := "image/*"; maxSize := maxSize;
     modalType := tag; dragAndDrop := dragAndDrop; previewUrl := None;
     isDragging := false; dispatched := []; object_urls := []; created := 0 |}.

Definition default_maxSize : Z := 1048576.

Definition hasImage (p : Picker) : bool :=
  bool_decide (is_Some (previewUrl p)) || bool_decide (is_Some (currentImageUrl p)).

Definition dispatch (e : Event) (p : Picker) : Picker :=
  set_dispatched (dispatched p ++ [e]) p.

Definition revokeObjectURL (url : string) (p : Picker) : Picker :=
  set_object_urls (filter (λ u, u ≠ url) (object_urls p)) p.

Definition revoke_preview (p : Picker) : Picker :=
  match previewUrl p with
  | Some url => revokeObjectURL url p
  | None => p
  end.

Definition createObjectURL (p : Picker) : string * Picker :=
  (object_url (created p),
   set_created (S (created p))
     (set_object_urls (object_urls p ++ [object_url (created p)]) p)).

Definition validateAndProcessFile (file : File) (p : Picker) : M Picker :=
  if negb (startsWith "image/" (f_type file)) then
    toast.error "Please select an image file";; mret p
  else if maxSize p <? f_size file then
    toast.error "Image size should be less than 1MB";; mret p
  else
    let p := revoke_preview p in
    let '(url, p) := createObjectURL p in
    mret (dispatch (fileSelect file (Some (modalType p))) (set_previewUrl (Some url) p)).

Definition handleFileSelect (files : list File) (p : Picker) : M Picker :=
  match files with
  | [] => mret p
  | file :: _ => validateAndProcessFile file p
  end.

Definition handleDrop (files : list File) (p : Picker) : M Picker :=
  let p := set_isDragging false p in
  if negb (dragAndDrop p) then mret p
  else
    match files with
    | [] => mret p
    | file :: _ => validateAndProcessFile file p
    end.

Definition handleRemove (p : Picker) : Picker :=
  dispatch remove
    match previewUrl p with
    | Some url => set_previewUrl None (revokeObjectURL url p)
    | None => p
    end.

Definition onDestroy (p : Picker) : Picker := revoke_preview p.

End ImageUploadTagged.

(** * What the claims talk about *)

(** A row of the table that is not soft-deleted. *)
Definition active_in (d : DB) (tbl : string) (r : Row) : Prop :=
  r ∈ table d tbl ∧ cell r "is_deleted" = VBool false.

(** The slice a range cuts out of a list of rows. *)
Definition slice (q : Query) (rows : list Row) : list Row :=
  match q_range q with
  | None => rows
  | Some (lo, hi) => take (Z.to_nat (hi - lo + 1)) (drop (Z.to_nat lo) rows)
  end.

(** The rows a listing query shows when the backend answers it. *)
Definition page_of (d : DB) (q : Query) : list Row := slice q (ordered d q).

(** The requests a run sends. *)
Definition issued {A} (m : M A) (w : World) : list (Z * Request) :=
  drop (length (log w)) (log (m w).2).

Definition is_select (e : Z * Request) : Prop := ∃ q, e.2 = RSelect q.

(** What a soft delete does to a row. *)
Definition mark_deleted (id : string) (r : Row) : Row :=
  if bool_decide (cell r "id" = VStr id) then <["is_deleted" := VBool true]> r else r.

Definition soft_delete_request (tbl id : string) : Request :=
  RUpdate tbl {[ "is_deleted" := VBool true ]} [FEq "id" (VStr id)].

(** ** The screens as listings

    A listing is a screen seen through its list: the component state, the
    table behind it, the rows on display, the query [load] sends for them,
    how a failed load shows, and the delete handler. *)
Record Listing := {
  l_state : Type;
  l_table : string;
  l_rows : l_state → list Row;
  l_query : l_state → Query;
  l_load : l_state → M l_state;
  l_failed : l_state → World → World → Prop;   (* new state, world before, after *)
  l_delete : (string → bool) → string → l_state → M l_state
}.

Definition color_listing : Listing :=
  {| l_state := Colors.State; l_table := "colors"; l_rows := Colors.colors;
     l_query := Colors.fetchColors_query; l_load := Colors.fetchColors;
     l_failed := λ st' _ _, Colors.error st' ≠ None;
     l_delete := Colors.handleDeleteColor |}.

Definition brand_listing : Listing :=
  {| l_state := Brands.State; l_table := "brands"; l_rows := Brands.brands;
     l_query := Brands.fetchBrands_query; l_load := Brands.fetchBrands;
     l_failed := λ st' _ _, Brands.error st' ≠ None;
     l_delete := Brands.handleDeleteBrand |}.

Definition audience_listing : Listing :=
  {| l_state := Audiences.State; l_table := "audiences";
     l_rows := Audiences.audiences;
     l_query := Audiences.fetchAudiences_query; l_load := Audiences.fetchAudiences;
     l_failed := λ st' _ _, Audiences.error st' ≠ None;
     l_delete := Audiences.handleDeleteAudience |}.

Definition category_listing : Listing :=
  {| l_state := Categories.State; l_table := "categories";
     l_rows := Categories.categories;
     l_query := Categories.fetchCategories_query;
     l_load := Categories.fetchCategories;
     l_failed := λ st' _ _, Categories.error st' ≠ None;
     l_delete := Categories.handleDeleteCategory |}.

Definition subcategory_listing : Listing :=
  {| l_state := Subcategories.State; l_table := "subcategories";
     l_rows := Subcategories.subcategories;
     l_query := Subcategories.loadSubcategories_query;
     l_load := Subcategories.loadSubcategories;
     l_failed := λ st' _ _, Subcategories.error st' ≠ None;
     l_delete := Subcategories.handleDeleteSubcategory |}.

Definition size_listing : Listing :=
  {| l_state := Sizes.State; l_table := "sizes"; l_rows := Sizes.sizes;
     l_query := Sizes.fetchSizes_query; l_load := Sizes.fetchSizes;
     l_failed := λ st' _ _, Sizes.error st' ≠ None;
     l_delete := Sizes.handleDeleteSize |}.

Definition seller_listing : Listing :=
  {| l_state := Sellers.State; l_table := "users"; l_rows := Sellers.sellers;
     l_query := Sellers.page_query; l_load := Sellers.loadSellers;
     l_failed := λ st' _ _, Sellers.error st' ≠ None;
     l_delete := Sellers.handleDeleteSeller |}.

Definition legacy_brand_listing : Listing :=
  {| l_state := BrandsLegacy.State; l_table := "brands";
     l_rows := BrandsLegacy.brands;
     l_query := λ _, BrandsLegacy.loadBrands_query;
     l_load := BrandsLegacy.loadBrands;
     l_failed := λ _ w w', toasts w' ≠ toasts w;
     l_delete := BrandsLegacy.handleDeleteBrand |}.

Definition listings : list Listing :=
  [color_listing; brand_listing; legacy_brand_listing; category_listing;
   subcategory_listing; audience_listing; size_listing; seller_listing].

(** Either the load is flagged as failed and the list is left alone, or
    the list holds only rows of the table that are not soft-deleted. *)
Definition loads_only_active (L : Listing) : Prop := ∀ st w,
  let st' := (l_load L st w).1 in
  let w' := (l_load L st w).2 in
  (¬ l_failed L st' w w' ∧ Forall (active_in (db w) (l_table L)) (l_rows L st'))
  ∨ (l_failed L st' w w' ∧ l_rows L st' = l_rows L st).

(** Soft delete, for a user who confirms and a backend that answers the
    update. *)
Definition soft_deletes (L : Listing) : Prop := ∀ confirm id st w,
  (∀ m, confirm m = true) → outage w (clock w) = false →
  let w' := (l_delete L confirm id st w).2 in
  (* the one write is an update of the flag; reads may follow *)
  (∃ reads, issued (l_delete L confirm id st) w
              = (clock w, soft_delete_request (l_table L) id) :: reads
            ∧ Forall is_select reads)
  (* no row leaves the table; the rows of that id get the flag *)
  ∧ db w' = <[l_table L := mark_deleted id <$> table (db w) (l_table L)]> (db w)
  ∧ (∀ r, r ∈ table (db w) (l_table L) → cell r "id" = VStr id →
       ∃ r', r' ∈ table (db w') (l_table L)
             ∧ cell r' "is_deleted" = VBool true
             ∧ ∀ col, col ≠ "is_deleted" → r' !! col = r !! col)
  ∧ (∀ r, r ∈ table (db w) (l_table L) → cell r "id" ≠ VStr id →
       r ∈ table (db w') (l_table L))
  ∧ length (table (db w') (l_table L)) = length (table (db w) (l_table L))
  (* no later load shows the id *)
  ∧ ∀ st2 w2, db w2 = db w' →
      let st3 := (l_load L st2 w2).1 in
      let w3 := (l_load L st2 w2).2 in
      (¬ l_failed L st3 w2 w3 ∧ Forall (λ r, cell r "id" ≠ VStr id) (l_rows L st3))
      ∨ (l_failed L st3 w2 w3 ∧ l_rows L st3 = l_rows L st2).

(** Orders on rows. *)
Definition newest_first (r1 r2 : Row) : Prop :=
  val_compare (cell r2 "created_at") (cell r1 "created_at") ≠ Gt.

Definition by_category_then_display_order (r1 r2 : Row) : Prop :=
  match val_compare (cell r1 "category") (cell r2 "category") with
  | Lt => True
  | Eq => val_compare (cell r1 "display_order") (cell r2 "display_order") ≠ Gt
  | Gt => False
  end.

Definition shows_in_order (R : relation Row) (L : Listing) : Prop := ∀ st w,
  let st' := (l_load L st w).1 in
  let w' := (l_load L st w).2 in
  (¬ l_failed L st' w w' ∧ Sorted R (l_rows L st'))
  ∨ (l_failed L st' w w' ∧ l_rows L st' = l_rows L st).

(** ** What each screen is checked against

    A load leaves the tables alone, sends only reads, and either puts the
    page of its query on display or flags a failure and keeps the list. *)
Definition load_sound (L : Listing) : Prop := ∀ st w,
  let st' := (l_load L st w).1 in
  let w' := (l_load L st w).2 in
  db w' = db w
  ∧ (∃ reads, log w' = log w ++ reads ∧ Forall is_select reads)
  ∧ ((¬ l_failed L st' w w' ∧ l_rows L st' = page_of (db w) (l_query L st))
     ∨ (l_failed L st' w w' ∧ l_rows L st' = l_rows L st)).

Definition query_sound (L : Listing) : Prop := ∀ st,
  q_from (l_query L st) = l_table L
  ∧ FEq "is_deleted" (VBool false) ∈ q_filters (l_query L st).

(** A confirmed delete sends the flag update and then reloads. *)
Definition delete_sound (L : Listing) : Prop := ∀ confirm id st w,
  (∀ m, confirm m = true) → outage w (clock w) = false →
  ∃ st2 w2,
    (l_delete L confirm id st w).2 = (l_load L st2 w2).2
    ∧ db w2 = <[l_table L := mark_deleted id <$> table (db w) (l_table L)]> (db w)
    ∧ log w2 = log w ++ [(clock w, soft_delete_request (l_table L) id)].

(** The shape of a paged list query. *)
Definition paged_shape (q : Query) (tbl : string) : Prop :=
  q_select q = None ∧ q_head q = false ∧ q_count q = true ∧ q_from q = tbl
  ∧ FEq "is_deleted" (VBool false) ∈ q_filters q.


(** ** Paging *)
Record Paged := {
  p_listing : Listing;
  p_init : l_state p_listing;
  p_currentPage : l_state p_listing → Z;
  p_totalPages : l_state p_listing → Z;
  p_counted : l_state p_listing → Query   (* the query whose count is used *)
}.

Definition color_paged : Paged :=
  {| p_listing := color_listing; p_init := Colors.init;
     p_currentPage := Colors.currentPage; p_totalPages := Colors.totalPages;
     p_counted := Colors.fetchColors_query |}.

Definition brand_paged : Paged :=
  {| p_listing := brand_listing; p_init := Brands.init;
     p_currentPage := Brands.currentPage; p_totalPages := Brands.totalPages;
     p_counted := Brands.fetchBrands_query |}.

Definition audience_paged : Paged :=
  {| p_listing := audience_listing; p_init := Audiences.init;
     p_currentPage := Audiences.currentPage; p_totalPages := Audiences.totalPages;
     p_counted := Audiences.fetchAudiences_query |}.

Definition category_paged : Paged :=
  {| p_listing := category_listing; p_init := Categories.init;
     p_currentPage := Categories.currentPage; p_totalPages := Categories.totalPages;
     p_counted := Categories.fetchCategories_query |}.

Definition subcategory_paged : Paged :=
  {| p_listing := subcategory_listing; p_init := Subcategories.init;
     p_currentPage := Subcategories.currentPage;
     p_totalPages := Subcategories.totalPages;
     p_counted := Subcategories.loadSubcategories_query |}.

Definition size_paged : Paged :=
  {| p_listing := size_listing; p_init := Sizes.init;
     p_currentPage := Sizes.currentPage; p_totalPages := Sizes.totalPages;
     p_counted := Sizes.fetchSizes_query |}.

Definition seller_paged : Paged :=
  {| p_listing := seller_listing; p_init := Sellers.init;
     p_currentPage := Sellers.currentPage; p_totalPages := Sellers.totalPages;
     p_counted := λ _, Sellers.count_query |}.

Definition paged_screens : list Paged :=
  [color_paged; brand_paged; category_paged; subcategory_paged; audience_paged;
   size_paged; seller_paged].



Definition paging_sound (P : Paged) : Prop :=
  let L := p_listing P in
  ∀ st w,
    let st' := (l_load L st w).1 in
    let w' := (l_load L st w).2 in
    p_currentPage P st' = p_currentPage P st
    ∧ (¬ l_failed L st' w w' →
       p_totalPages P st'
       = ceil_div (Z.of_nat (length (matching (db w) (p_counted P st)))) itemsPerPage).

(** ** Adding under a name that is taken *)

(** A row is in scope of a key when it agrees with it on every column and
    is not soft-deleted. *)
Definition in_scope (key : list (string * val)) (r : Row) : bool :=
  forallb (λ kv, bool_decide (cell r kv.1 = kv.2)) key
  && bool_decide (cell r "is_deleted" = VBool false).

(** A screen seen through its add form: the checks the form passes before
    any request, the name and its scope as the pre-check reads them, and
    the message shown for a taken name. *)
Record Adding := {
  a_state : Type;
  a_table : string;
  a_add : a_state → M a_state;
  a_valid : a_state → bool;
  a_key : a_state → list (string * val);
  a_message : string
}.

Definition color_adding : Adding :=
  {| a_state := Colors.State; a_table := "colors"; a_add := Colors.handleAddColor;
     a_valid := λ st,
       truthy (trim (Colors.name (Colors.newColor st)))
       && truthy (trim (Colors.hex_code (Colors.newColor st)))
       && Colors.validateHexCode (trim (Colors.hex_code (Colors.newColor st)));
     a_key := λ st, [("name", VStr (trim (Colors.name (Colors.newColor st))))];
     a_message := "A color with this name already exists" |}.

Definition brand_adding : Adding :=
  {| a_state := Brands.State; a_table := "brands"; a_add := Brands.handleAddBrand;
     a_valid := λ st, truthy (trim (Brands.name (Brands.newBrand st)));
     a_key := λ st, [("name", VStr (trim (Brands.name (Brands.newBrand st))))];
     a_message := "A brand with this name already exists" |}.

Definition audience_adding : Adding :=
  {| a_state := Audiences.State; a_table := "audiences";
     a_add := Audiences.handleAddAudience;
     a_valid := λ st, truthy (trim (Audiences.name (Audiences.newAudience st)));
     a_key := λ st,
       [("name", VStr (trim (Audiences.name (Audiences.newAudience st))))];
     a_message := "An audience with this name already exists" |}.

Definition category_adding : Adding :=
  {| a_state := Categories.State; a_table := "categories";
     a_add := Categories.handleAddCategory;
     a_valid := λ st, truthy (trim (Categories.name (Categories.newCategory st)));
     a_key := λ st,
       [("name", VStr (trim (Categories.name (Categories.newCategory st))))];
     a_message := "A category with this name already exists" |}.

Definition subcategory_adding : Adding :=
  {| a_state := Subcategories.State; a_table := "subcategories";
     a_add := Subcategories.handleAddSubcategory;
     a_valid := λ st,
       truthy (trim (Subcategories.name (Subcategories.newSubcategory st)))
       && truthy (Subcategories.category_id (Subcategories.newSubcategory st));
     a_key := λ st,
       [("name", VStr (trim (Subcategories.name (Subcategories.newSubcategory st))));
        ("category_id",
         VStr (Subcategories.category_id (Subcategories.newSubcategory st)))];
     a_message :=
       "A subcategory with this name already exists in the selected category" |}.

Definition size_adding : Adding :=
  {| a_state := Sizes.State; a_table := "sizes"; a_add := Sizes.handleAddSize;
     a_valid := λ st, truthy (trim (Sizes.label (Sizes.newSize st)));
     a_key := λ st,
       [("label", VStr (trim (Sizes.label (Sizes.newSize st))));
        ("category", size_category_val (Sizes.category (Sizes.newSize st)))];
     a_message := "A size with this label already exists in this category" |}.

Definition checked_adds : list Adding :=
  [color_adding; brand_adding; category_adding; subcategory_adding;
   audience_adding; size_adding].

(** With a valid form, a backend that answers, and exactly one row in scope
    of the key: the add leaves the screen and the tables as they were, sends
    the pre-check and nothing else, and raises the one error toast. *)
Definition rejects_duplicate (A : Adding) : Prop := ∀ st w r,
  a_valid A st = true → outage w (clock w) = false →
  filter (λ r, in_scope (a_key A st) r = true) (table (db w) (a_table A)) = [r] →
  let st' := (a_add A st w).1 in
  let w' := (a_add A st w).2 in
  st' = st
  ∧ db w' = db w
  ∧ (∃ q, issued (a_add A st) w = [(clock w, RSingle q)])
  ∧ toasts w' = toasts w ++ [{| toast_ident := toast_id w; toast_type := t_error;
                                toast_message := a_message A |}].

(** The filters a pre-check for a key carries. *)
Definition key_filters (key : list (string * val)) : list Filter :=
  ((λ kv, FEq kv.1 kv.2) <$> key) ++ [FEq "is_deleted" (VBool false)].

(** ** Editing *)
Record Editing := {
  e_state : Type;
  e_edit : e_state → M e_state
}.

Definition editings : list Editing :=
  [ {| e_state := Colors.State; e_edit := Colors.handleEditColor |};
    {| e_state := Brands.State; e_edit := Brands.handleEditBrand |};
    {| e_state := BrandsLegacy.State; e_edit := BrandsLegacy.handleEditBrand |};
    {| e_state := Categories.State; e_edit := Categories.handleEditCategory |};
    {| e_state := Subcategories.State; e_edit := Subcategories.handleEditSubcategory |};
    {| e_state := Audiences.State; e_edit := Audiences.handleEditAudience |};
    {| e_state := Sizes.State; e_edit := Sizes.handleEditSize |} ].

(** Every update the edit sends carries [updated_at], set to the time it
    is sent. *)
Definition stamps_updates (E : Editing) : Prop := ∀ st w t tbl fields fs,
  (t, RUpdate tbl fields fs) ∈ issued (e_edit E st) w →
  fields !! "updated_at" = Some (VTime t).

Definition stamped (e : Z * Request) : Prop :=
  match e.2 with
  | RUpdate _ fields _ => fields !! "updated_at" = Some (VTime e.1)
  | _ => True
  end.

Definition log_stamped {A} (m : M A) (w : World) : Prop :=
  ∃ l, log (m w).2 = log w ++ l ∧ Forall stamped l.


(** ** Hex codes *)

Definition hex_digits : list ascii :=
  list_ascii_of_string "0123456789abcdefABCDEF".

(** [#RGB] or [#RRGGBB]: a hash sign, then three or six hex digits. *)
Definition is_hex_color (s : string) : Prop :=
  ∃ digits, s = String "#" digits
    ∧ (String.length digits = 3 ∨ String.length digits = 6)%nat
    ∧ Forall (λ c, c ∈ hex_digits) (list_ascii_of_string digits).

Definition error_toast (w : World) (msg : string) : Toast :=
  {| toast_ident := toast_id w; toast_type := t_error; toast_message := msg |}.

(** A handler that stops before any request: the screen and the tables
    are as before, nothing is sent, and one error toast is raised. *)
Definition stops_early {S} (handler : S → M S) (st : S) (w : World) : Prop :=
  (handler st w).1 = st
  ∧ db (handler st w).2 = db w
  ∧ issued (handler st) w = []
  ∧ ∃ msg, toasts (handler st w).2 = toasts w ++ [error_toast w msg].

(** ** Picking an image *)

Inductive Verdict := accepted | not_an_image | too_large.

Definition is_image (file : File) : bool := startsWith "image/" (f_type file).

(** The two orders in which the checks can be made. *)
Definition type_then_size (maxSize : Z) (file : File) : Verdict :=
  if negb (is_image file) then not_an_image
  else if maxSize <? f_size file then too_large
  else accepted.

Definition size_then_type (maxSize : Z) (file : File) : Verdict :=
  if maxSize <? f_size file then too_large
  else if negb (is_image file) then not_an_image
  else accepted.

(** What the first picker dispatches for a verdict. *)
Definition verdict_event (maxSize : Z) (file : File) (v : Verdict) : Event :=
  match v with
  | accepted => fileSelect file None
  | not_an_image => error_event (text "Please select an image file")
  | too_large => error_event (size_limit maxSize)
  end.

(** The first picker dispatches exactly the event of the verdict reached
    in the given order. *)
Definition dispatches_by (order : Z → File → Verdict) : Prop := ∀ file p,
  ImageUpload.dispatched (ImageUpload.handleFile file p)
  = ImageUpload.dispatched p
    ++ [verdict_event (ImageUpload.maxSize p) file (order (ImageUpload.maxSize p) file)].

(** ** Changing the page *)

(** A page change that ignores pages out of range. *)
Definition page_change_guarded {S} (totalPages : S → Z) (change : Z → S → M S)
  : Prop :=
  ∀ p st w, p < 1 ∨ totalPages st < p → change p st w = (st, w).

Record PageChange := {
  c_paged : Paged;
  c_change : Z → l_state (p_listing c_paged) → M (l_state (p_listing c_paged))
}.

Definition page_changes : list PageChange :=
  [ {| c_paged := color_paged; c_change := Colors.handlePageChange |};
    {| c_paged := brand_paged; c_change := Brands.handlePageChange |};
    {| c_paged := category_paged; c_change := Categories.handlePageChange |};
    {| c_paged := subcategory_paged; c_change := Subcategories.handlePageChange |};
    {| c_paged := audience_paged; c_change := Audiences.handlePageChange |};
    {| c_paged := size_paged; c_change := Sizes.handlePageChange |} ].

(** The handler takes any page: it becomes the current page and the
    slice of that page is requested. *)
Definition changes_to_any_page (C : PageChange) : Prop := ∀ p st w,
  p_currentPage (c_paged C) (c_change C p st w).1 = p
  ∧ ∃ q, issued (c_change C p st) w = [(clock w, RSelect q)]
         ∧ q_range q = Some ((p - 1) * itemsPerPage, p * itemsPerPage - 1).

(** ** Worlds and forms for the scenarios *)

(** A world in which the backend always answers and nothing has happened
    yet. *)
Definition quiet (d : DB) : World :=
  {| db := d; clock := 0; next_id := 1; outage := λ _, false; log := [];
     toasts := []; toast_id := 0; objects := ∅; random := λ n, pretty n;
     draws := 0; auth_rejects := λ _, false |}.

Definition color_form (name hex : string) (st : Colors.State) : Colors.State :=
  Colors.set_newColor {| Colors.name := name; Colors.hex_code := hex |} st.

(** The scenario of the colors screen: Red is added to an empty table. *)
Definition red_added : Colors.State * World :=
  Colors.handleAddColor (color_form "Red" "#FF0000" Colors.init) (quiet ∅).

Definition is_insert (e : Z * Request) : Prop := ∃ tbl fields, e.2 = RInsert tbl fields.

(** The earlier brands screen and the sellers screen, seen through their
    add and edit forms. *)
Definition legacy_brand_adding : Adding :=
  {| a_state := BrandsLegacy.State; a_table := "brands";
     a_add := BrandsLegacy.handleAddBrand;
     a_valid := λ _, true;
     a_key := λ st,
       [("name", VStr (BrandsLegacy.name (BrandsLegacy.newBrand st)))];
     a_message := "A brand with this name already exists" |}.

Definition seller_editing : Editing :=
  {| e_state := Sellers.State; e_edit := Sellers.handleEditSeller |}.

Definition nike : Row :=
  {[ "id" := VStr "1"; "name" := VStr "Nike"; "description" := VStr "";
     "logo_url" := VStr ""; "is_deleted" := VBool false;
     "created_at" := VTime 0; "updated_at" := VTime 0 ]}.

Definition color_row (id name : string) (c : color_category) (pos created : Z) : Row :=
  {[ "id" := VStr id; "name" := VStr name; "hex_code" := VStr "#000000";
     "category" := color_category_val c; "display_order" := VNum pos;
     "is_active" := VBool true; "is_deleted" := VBool false;
     "created_at" := VTime created; "updated_at" := VTime created ]}.

(** [n] stored colors, each created a tick after the one before. *)
Definition swatches (n : nat) : list Row :=
  (λ i, color_row (pretty i) ("Color " +:+ pretty i) primary 0 (Z.of_nat i)) <$> seq 1 n.

(** * More of the screens

    What the handlers are checked against beyond the listings: paging,
    search, storing, renaming, the pickers, the toast store. *)

(** * Further properties of the screens *)

(** ** Paging through a list *)

(** The page numbers [1..n]. *)
Definition page_numbers (n : Z) : list Z :=
  (λ i, Z.of_nat i + 1) <$> seq 0 (Z.to_nat n).

(** The lists a screen shows while the user goes through the given pages
    one after the other. *)
Fixpoint browse (C : PageChange) (ps : list Z) (st : l_state (p_listing (c_paged C)))
  (w : World) : list (list Row) :=
  match ps with
  | [] => []
  | p :: ps =>
      let r := c_change C p st w in
      l_rows (p_listing (c_paged C)) r.1 :: browse C ps r.1 r.2
  end.

(** No two rows of the list tie on the sort keys. *)
Fixpoint untied (specs : list (string * bool)) (rows : list Row) : bool :=
  match rows with
  | [] => true
  | r :: rest =>
      forallb (λ r', negb (bool_decide (order_compare specs r r' = Eq))) rest
      && untied specs rest
  end.

(** With a backend that answers and a list in which no two rows tie on the
    sort keys, the list has one order only, and going through pages 1 to
    the last shows every row of it once, in that order, at most ten at a
    time. *)
Definition pages_cover (C : PageChange) : Prop := ∀ st w,
  (∀ t, outage w t = false) →
  let L := p_listing (c_paged C) in
  let q := l_query L st in
  untied (q_order q) (matching (db w) q) = true →
  let rows := ordered (db w) q in
  let shown := browse C (page_numbers (ceil_div (Z.of_nat (length rows)) itemsPerPage))
                 st w in
  (∀ l, l ≡ₚ matching (db w) q → Sorted (order_le (q_order q)) l → l = rows)
  ∧ concat shown = rows ∧ Forall (λ page, (length page ≤ 10)%nat) shown.

(** One page change, as the generic argument needs it. *)
Definition page_step (C : PageChange) : Prop := ∀ p st w,
  let L := p_listing (c_paged C) in
  let st' := (c_change C p st w).1 in
  let w' := (c_change C p st w).2 in
  db w' = db w ∧ outage w' = outage w
  ∧ (∀ d, ordered d (l_query L st') = ordered d (l_query L st))
  ∧ (outage w (clock w) = false → 1 ≤ p →
     (p - 1) * itemsPerPage ≤ Z.of_nat (length (ordered (db w) (l_query L st))) →
     l_rows L st'
     = take 10 (drop (Z.to_nat ((p - 1) * itemsPerPage)) (ordered (db w) (l_query L st)))).

(** ** Searching by name *)

(** A string in lower case, letter by letter. *)
Fixpoint lower_case (s : string) : string :=
  match s with
  | EmptyString => EmptyString
  | String c s' => String (lower c) (lower_case s')
  end.

(** [v] occurs in [s] when letter case is ignored. *)
Definition occurs_in (v s : string) : Prop :=
  ∃ pre mid post, s = pre +:+ mid +:+ post ∧ lower_case mid = lower_case v.

(** A search text without the characters the backend reads as part of a
    pattern: [%] and [_] (wildcards), [*] (the request's alias for [%]) and
    the backslash (the escape character). *)
Fixpoint plain (v : string) : bool :=
  match v with
  | EmptyString => true
  | String c v' =>
      negb (Ascii.eqb c "%" || Ascii.eqb c "_" || Ascii.eqb c "*" || Ascii.eqb c "\")
      && plain v'
  end.

(** A screen seen through its search box. *)
Record Searching := {
  s_paged : Paged;
  s_search : string → l_state (p_listing s_paged) → M (l_state (p_listing s_paged))
}.

Definition name_searches : list Searching :=
  [ {| s_paged := color_paged; s_search := Colors.handleSearch |};
    {| s_paged := brand_paged; s_search := Brands.handleSearch |};
    {| s_paged := category_paged; s_search := Categories.handleSearch |};
    {| s_paged := subcategory_paged; s_search := Subcategories.handleSearch |};
    {| s_paged := audience_paged; s_search := Audiences.handleSearch |} ].

(** A row the search for [v] is meant to find: stored, not soft-deleted,
    with a name in which [v] occurs. *)
Definition found_by (d : DB) (tbl v : string) (r : Row) : Prop :=
  active_in d tbl r ∧ ∃ s, r !! "name" = Some (VStr s) ∧ occurs_in v s.

(** A search goes back to page 1 and asks for the first ten rows.  When the
    load succeeds, every row shown is one the search is meant to find, and
    if fewer than ten are shown, every such row is shown. *)
Definition search_finds (S : Searching) : Prop := ∀ v st w,
  v ≠ "" → plain v = true →
  let L := p_listing (s_paged S) in
  let st' := (s_search S v st w).1 in
  let w' := (s_search S v st w).2 in
  p_currentPage (s_paged S) st' = 1
  ∧ (∃ q, issued (s_search S v st) w = [(clock w, RSelect q)]
          ∧ q_range q = Some (0, 9))
  ∧ (¬ l_failed L st' w w' →
     Forall (found_by (db w) (l_table L) v) (l_rows L st')
     ∧ ((length (l_rows L st') < 10)%nat →
        ∀ r, found_by (db w) (l_table L) v r → r ∈ l_rows L st')).

(** ** Adding under a name that is free *)

(** A screen seen through the rest of its add form: the pre-check, the
    fields of the insert, the screen once the add has gone through, the
    reload, and the message of success. *)
Record Storing := {
  t_adding : Adding;
  t_precheck : a_state t_adding → Query;
  t_fields : a_state t_adding → Row;
  t_reset : a_state t_adding → a_state t_adding;
  t_load : a_state t_adding → M (a_state t_adding);
  t_added : string
}.

Definition color_storing : Storing :=
  {| t_adding := color_adding; t_precheck := Colors.add_precheck;
     t_fields := Colors.add_fields;
     t_reset := Colors.handleCloseAddModal; t_load := Colors.fetchColors;
     t_added := "Color added successfully" |}.

Definition brand_storing : Storing :=
  {| t_adding := brand_adding; t_precheck := Brands.add_precheck;
     t_fields := Brands.add_fields;
     t_reset := Brands.handleCloseAddModal; t_load := Brands.fetchBrands;
     t_added := "Brand added successfully" |}.

Definition category_storing : Storing :=
  {| t_adding := category_adding; t_precheck := Categories.add_precheck;
     t_fields := Categories.add_fields;
     t_reset := Categories.handleCloseAddModal; t_load := Categories.fetchCategories;
     t_added := "Category added successfully" |}.

Definition subcategory_storing : Storing :=
  {| t_adding := subcategory_adding; t_precheck := Subcategories.add_precheck;
     t_fields := Subcategories.add_fields;
     t_reset := Subcategories.handleCloseAddModal;
     t_load := Subcategories.loadSubcategories;
     t_added := "Subcategory added successfully" |}.

Definition audience_storing : Storing :=
  {| t_adding := audience_adding; t_precheck := Audiences.add_precheck;
     t_fields := Audiences.add_fields;
     t_reset := Audiences.handleCloseAddModal; t_load := Audiences.fetchAudiences;
     t_added := "Audience added successfully" |}.

Definition size_storing : Storing :=
  {| t_adding := size_adding; t_precheck := Sizes.add_precheck;
     t_fields := Sizes.add_fields;
     t_reset := Sizes.handleCloseAddModal; t_load := Sizes.fetchSizes;
     t_added := "Size added successfully" |}.

Definition storings : list Storing :=
  [color_storing; brand_storing; category_storing; subcategory_storing;
   audience_storing; size_storing].

(** The row an add stores: the fields of the insert over the defaults. *)
Definition stored_row (T : Storing) (st : a_state (t_adding T)) (w : World) : Row :=
  new_row (a_table (t_adding T)) (next_id w) (clock w + 1) (t_fields T st).

Definition success_toast (w : World) (msg : string) : Toast :=
  {| toast_ident := toast_id w; toast_type := t_success; toast_message := msg |}.

(** The world once pre-check and insert have gone through and the success
    toast is up, before the reload. *)
Definition stored_world (T : Storing) (st : a_state (t_adding T)) (w : World) : World :=
  let A := t_adding T in
  let w1 := sent (RInsert (a_table A) (t_fields T st)) (sent (RSingle (t_precheck T st)) w) in
  (toast.success (t_added T)
     (with_next_id (S (next_id w))
        (with_db (<[a_table A := table (db w) (a_table A) ++ [stored_row T st w]]> (db w))
           w1))).2.

(** With a valid form, a backend that answers, no row in scope of the key
    and no stored row (soft-deleted or not) that shares a unique key with
    the new one: the add stores one row, which carries the key and is not
    soft-deleted, touches nothing else, sends the pre-check, the insert and
    then only reads, raises the one success toast, and leaves the form
    closed and empty. *)
Definition stores_the_row (T : Storing) : Prop := ∀ st w,
  let A := t_adding T in
  let new := stored_row T st w in
  a_valid A st = true →
  outage w (clock w) = false → outage w (clock w + 1) = false →
  filter (λ r, in_scope (a_key A st) r = true) (table (db w) (a_table A)) = [] →
  violates_unique (a_table A) (table (db w) (a_table A)) new = false →
  let w' := (a_add A st w).2 in
  in_scope (a_key A st) new = true
  ∧ cell new "id" = VStr (pretty (next_id w))
  ∧ db w' = <[a_table A := table (db w) (a_table A) ++ [new]]> (db w)
  ∧ (∃ reads, issued (a_add A st) w
              = (clock w, RSingle (t_precheck T st))
                :: (clock w + 1, RInsert (a_table A) (t_fields T st)) :: reads
              ∧ Forall is_select reads)
  ∧ toasts w' = toasts w ++ [success_toast w (t_added T)]
  ∧ a_add A st w = t_load T (t_reset T st) (stored_world T st w).

(** The id of a row is one the backend's counter has issued: it is the
    print of a number below the counter. *)
Definition id_issued (counter : nat) (r : Row) : bool :=
  existsb (λ n, bool_decide (cell r "id" = VStr (pretty n))) (seq 0 counter).

(** When, in addition, every id stored in the table was issued by the
    counter, the id of the new row is fresh: no row of the table has it.
    Afterwards every id of the table, the new one among them, was issued by
    the counter, which has moved on by one. *)
Definition stores_under_a_fresh_id (T : Storing) : Prop := ∀ st w,
  let A := t_adding T in
  let new := stored_row T st w in
  a_valid A st = true →
  outage w (clock w) = false → outage w (clock w + 1) = false →
  filter (λ r, in_scope (a_key A st) r = true) (table (db w) (a_table A)) = [] →
  violates_unique (a_table A) (table (db w) (a_table A)) new = false →
  forallb (id_issued (next_id w)) (table (db w) (a_table A)) = true →
  let w' := (a_add A st w).2 in
  Forall (λ r, cell r "id" ≠ cell new "id") (table (db w) (a_table A))
  ∧ next_id w' = S (next_id w)
  ∧ forallb (id_issued (next_id w')) (table (db w') (a_table A)) = true.

(** What the generic argument needs of a reload, for the counter. *)
Definition load_keeps_counter {S} (load : S → M S) : Prop := ∀ st w,
  next_id (load st w).2 = next_id w.

(** What the generic argument needs of a reload. *)
Definition quiet_load {S} (load : S → M S) : Prop := ∀ st w,
  db (load st w).2 = db w
  ∧ toasts (load st w).2 = toasts w
  ∧ ∃ reads, log (load st w).2 = log w ++ reads ∧ Forall is_select reads.

(** ** What no handler does *)

(** A handler with its argument, if it takes one. *)
Record Handler := {
  h_state : Type;
  h_arg : Type;
  h_run : h_arg → h_state → M h_state
}.

Definition plain_handler {S} (run : S → M S) : Handler :=
  {| h_state := S; h_arg := unit; h_run := λ _, run |}.

Definition delete_handler {S} (run : (string → bool) → string → S → M S) : Handler :=
  {| h_state := S; h_arg := (string → bool) * string;
     h_run := λ a, run a.1 a.2 |}.

Definition arg_handler {S A} (run : A → S → M S) : Handler :=
  {| h_state := S; h_arg := A; h_run := run |}.

(** Every handler of the eight entity screens that talks to the backend. *)
Definition handlers : list Handler :=
  [ plain_handler Colors.fetchColors; arg_handler Colors.handlePageChange;
    arg_handler Colors.handleSearch; plain_handler Colors.handleAddColor;
    plain_handler Colors.handleEditColor; delete_handler Colors.handleDeleteColor;
    plain_handler Brands.fetchBrands; arg_handler Brands.handlePageChange;
    arg_handler Brands.handleSearch; plain_handler Brands.handleAddBrand;
    plain_handler Brands.handleEditBrand; delete_handler Brands.handleDeleteBrand;
    plain_handler Categories.fetchCategories; arg_handler Categories.handlePageChange;
    arg_handler Categories.handleSearch; plain_handler Categories.handleAddCategory;
    plain_handler Categories.handleEditCategory;
    delete_handler Categories.handleDeleteCategory;
    plain_handler Subcategories.loadCategories;
    plain_handler Subcategories.loadSubcategories;
    arg_handler Subcategories.handlePageChange; arg_handler Subcategories.handleSearch;
    plain_handler Subcategories.handleAddSubcategory;
    plain_handler Subcategories.handleEditSubcategory;
    delete_handler Subcategories.handleDeleteSubcategory;
    plain_handler Audiences.fetchAudiences; arg_handler Audiences.handlePageChange;
    arg_handler Audiences.handleSearch; plain_handler Audiences.handleAddAudience;
    plain_handler Audiences.handleEditAudience;
    delete_handler Audiences.handleDeleteAudience;
    plain_handler Sizes.fetchSizes; arg_handler Sizes.handlePageChange;
    arg_handler Sizes.handleSearch; plain_handler Sizes.handleAddSize;
    plain_handler Sizes.handleEditSize; delete_handler Sizes.handleDeleteSize;
    plain_handler Sellers.loadSellers; plain_handler Sellers.handleAddSeller;
    plain_handler Sellers.handleEditSeller; delete_handler Sellers.handleDeleteSeller;
    arg_handler Sellers.pager_click;
    plain_handler BrandsLegacy.loadBrands; plain_handler BrandsLegacy.handleAddBrand;
    plain_handler BrandsLegacy.handleEditBrand;
    delete_handler BrandsLegacy.handleDeleteBrand ].

(** A relation between the world before and the world after that holds
    for every run. *)
Definition preserves (R : relation World) {A} (m : M A) : Prop := ∀ w, R w (m w).2.

(** A stored row keeps its id and its creation time, and stays
    soft-deleted once it is. *)
Definition row_kept (r r' : Row) : Prop :=
  cell r' "id" = cell r "id"
  ∧ cell r' "created_at" = cell r "created_at"
  ∧ (cell r "is_deleted" = VBool true → cell r' "is_deleted" = VBool true).

(** Every table keeps its rows, in place; new rows come after them. *)
Definition history_kept (w w' : World) : Prop :=
  ∀ tbl, ∃ kept more,
    table (db w') tbl = kept ++ more ∧ Forall2 row_kept (table (db w) tbl) kept.

(** What the handlers cannot touch: the backend's reachability, the random
    generator and the auth service. *)
Definition same_surroundings (w w' : World) : Prop :=
  outage w' = outage w ∧ random w' = random w ∧ auth_rejects w' = auth_rejects w.

(** The user's actions on a screen, one handler after the other. *)
Fixpoint run_all {S} (hs : list (S → M S)) (st : S) : M S :=
  match hs with
  | [] => mret st
  | h :: hs => st' ← h st; run_all hs st'
  end.

(** Each stored row is still there afterwards, in its place. *)
Definition rows_survive (H : Handler) : Prop := ∀ a st w tbl i r,
  table (db w) tbl !! i = Some r →
  ∃ r', table (db (h_run H a st w).2) tbl !! i = Some r' ∧ row_kept r r'.

(** ** Adding a name again *)

(** A screen seen through add and delete together. *)
Record Cycle := {
  y_storing : Storing;
  y_delete : (string → bool) → string → a_state (t_adding y_storing)
             → M (a_state (t_adding y_storing));
  y_refused : string   (* the message for an insert the backend refuses *)
}.

Definition constrained_cycles : list Cycle :=
  [ {| y_storing := color_storing; y_delete := Colors.handleDeleteColor;
       y_refused := "Failed to add color: Unknown error occurred" |};
    {| y_storing := size_storing; y_delete := Sizes.handleDeleteSize;
       y_refused := "Failed to add size: Unknown error occurred" |} ].

Definition free_cycles : list Cycle :=
  [ {| y_storing := brand_storing; y_delete := Brands.handleDeleteBrand;
       y_refused := "Failed to add brand: Unknown error occurred" |};
    {| y_storing := category_storing; y_delete := Categories.handleDeleteCategory;
       y_refused := "Failed to add category: Unknown error occurred" |};
    {| y_storing := subcategory_storing;
       y_delete := Subcategories.handleDeleteSubcategory;
       y_refused := "Failed to add subcategory: Unknown error occurred" |};
    {| y_storing := audience_storing; y_delete := Audiences.handleDeleteAudience;
       y_refused := "Failed to add audience: Unknown error occurred" |} ].

(** A name that was just added is taken: with the form filled in as
    before, a second add is turned down by the pre-check. *)
Definition second_add_rejected (T : Storing) : Prop := ∀ st w,
  let A := t_adding T in
  a_valid A st = true → (∀ t, outage w t = false) →
  filter (λ r, in_scope (a_key A st) r = true) (table (db w) (a_table A)) = [] →
  violates_unique (a_table A) (table (db w) (a_table A)) (stored_row T st w) = false →
  let w1 := (a_add A st w).2 in
  let st2 := (a_add A st w1).1 in
  let w2 := (a_add A st w1).2 in
  st2 = st
  ∧ db w2 = db w1
  ∧ (∃ q, issued (a_add A st) w1 = [(clock w1, RSingle q)])
  ∧ toasts w2 = toasts w1 ++ [error_toast w1 (a_message A)].

(** On a table with a unique constraint, the name of a soft-deleted row
    stays reserved: once the one row in scope is deleted, an add that would
    store a row with the same unique key passes the pre-check, is refused
    by the backend at the insert, and stores nothing. *)
Definition deleted_name_reserved (Y : Cycle) : Prop := ∀ confirm id st0 st w r,
  let T := y_storing Y in
  let A := t_adding T in
  (∀ m, confirm m = true) → (∀ t, outage w t = false) →
  a_valid A st = true →
  filter (λ r, in_scope (a_key A st) r = true) (table (db w) (a_table A)) = [r] →
  cell r "id" = VStr id →
  violates_unique (a_table A) [r] (stored_row T st w) = true →
  let w1 := (y_delete Y confirm id st0 w).2 in
  let st2 := (a_add A st w1).1 in
  let w2 := (a_add A st w1).2 in
  st2 = st
  ∧ db w2 = db w1
  ∧ issued (a_add A st) w1
    = [(clock w1, RSingle (t_precheck T st));
       (clock w1 + 1, RInsert (a_table A) (t_fields T st))]
  ∧ toasts w2 = toasts w1 ++ [error_toast w1 (y_refused Y)].

(** On a table without one, the name is free again: the same add stores
    its row. *)
Definition deleted_name_free (Y : Cycle) : Prop := ∀ confirm id st0 st w r,
  let T := y_storing Y in
  let A := t_adding T in
  (∀ m, confirm m = true) → (∀ t, outage w t = false) →
  a_valid A st = true →
  filter (λ r, in_scope (a_key A st) r = true) (table (db w) (a_table A)) = [r] →
  cell r "id" = VStr id →
  let w1 := (y_delete Y confirm id st0 w).2 in
  let w2 := (a_add A st w1).2 in
  db w2 = <[a_table A := (mark_deleted id <$> table (db w) (a_table A))
                         ++ [stored_row T st w1]]> (db w)
  ∧ in_scope (a_key A st) (stored_row T st w1) = true
  ∧ toasts w2 = toasts w1 ++ [success_toast w1 (t_added T)].

(** What the generic argument needs of a confirmed delete. *)
Definition delete_marks (tbl : string) {S} (del : (string → bool) → string → S → M S)
  : Prop := ∀ confirm id st w,
  (∀ m, confirm m = true) → outage w (clock w) = false →
  db (del confirm id st w).2 = <[tbl := mark_deleted id <$> table (db w) tbl]> (db w)
  ∧ same_surroundings w (del confirm id st w).2.

(** A stored color, with the columns the scenarios look at. *)
Definition red : Row :=
  {[ "id" := VStr "1"; "name" := VStr "Red";
     "category" := color_category_val primary; "is_deleted" := VBool false ]}.

(** A stored brand, likewise. *)
Definition puma : Row :=
  {[ "id" := VStr "1"; "name" := VStr "Puma"; "is_deleted" := VBool false ]}.

(** An update that names neither the id nor the creation time, and sets
    the soft-delete flag, if at all, to [true]. *)
Definition harmless (fields : Row) : Prop :=
  fields !! "id" = None ∧ fields !! "created_at" = None
  ∧ (fields !! "is_deleted" = None ∨ fields !! "is_deleted" = Some (VBool true)).

(** The insert of an add, refused by the backend. *)
Definition refuses_insert (Y : Cycle) : Prop := ∀ st w,
  let T := y_storing Y in
  let A := t_adding T in
  a_valid A st = true →
  outage w (clock w) = false → outage w (clock w + 1) = false →
  filter (λ r, in_scope (a_key A st) r = true) (table (db w) (a_table A)) = [] →
  violates_unique (a_table A) (table (db w) (a_table A)) (stored_row T st w) = true →
  a_add A st w
  = (st, (toast.error (y_refused Y)
            (sent (RInsert (a_table A) (t_fields T st))
               (sent (RSingle (t_precheck T st)) w))).2).

(** ** Editing *)

(** A screen seen through its edit form: the row on the form, the checks
    it passes before any request, the key the pre-check looks for in the
    other rows, the fields of the update, and the messages. *)
Record Renaming := {
  n_state : Type;
  n_table : string;
  n_edit : n_state → M n_state;
  n_selected : n_state → option Row;
  n_valid : Row → bool;
  n_key : Row → list (string * val);
  n_precheck : Row → Query;
  n_complete : Row → bool;   (* what the update reads off the row is there *)
  n_fields : Row → Z → Row;
  n_reset : n_state → n_state;
  n_load : n_state → M n_state;
  n_taken : string;
  n_updated : string;
  n_failed : string
}.

Definition color_renaming : Renaming :=
  {| n_state := Colors.State; n_table := "colors"; n_edit := Colors.handleEditColor;
     n_selected := Colors.selectedColor;
     n_valid := λ sel,
       truthy (trim (str sel "name")) && truthy (trim (str sel "hex_code"))
       && Colors.validateHexCode (trim (str sel "hex_code"));
     n_key := λ sel, [("name", VStr (trim (str sel "name")))];
     n_precheck := Colors.edit_precheck;
     n_complete := λ _, true;
     n_fields := Colors.edit_fields;
     n_reset := Colors.handleCloseEditModal; n_load := Colors.fetchColors;
     n_taken := "A color with this name already exists";
     n_updated := "Color updated successfully";
     n_failed := "Failed to update color" |}.

Definition brand_renaming : Renaming :=
  {| n_state := Brands.State; n_table := "brands"; n_edit := Brands.handleEditBrand;
     n_selected := Brands.selectedBrand;
     n_valid := λ sel, truthy (trim (str sel "name"));
     n_key := λ sel, [("name", VStr (trim (str sel "name")))];
     n_precheck := Brands.edit_precheck;
     n_complete := λ sel,
       bool_decide (is_Some (str_opt sel "description"))
       && bool_decide (is_Some (str_opt sel "logo_url"));
     n_fields := λ sel, Brands.edit_fields sel (str sel "description") (str sel "logo_url");
     n_reset := Brands.handleCloseEditModal; n_load := Brands.fetchBrands;
     n_taken := "A brand with this name already exists";
     n_updated := "Brand updated successfully";
     n_failed := "Failed to update brand" |}.

Definition category_renaming : Renaming :=
  {| n_state := Categories.State; n_table := "categories";
     n_edit := Categories.handleEditCategory;
     n_selected := Categories.selectedCategory;
     n_valid := λ sel, truthy (trim (str sel "name"));
     n_key := λ sel, [("name", VStr (trim (str sel "name")))];
     n_precheck := Categories.edit_precheck;
     n_complete := λ _, true;
     n_fields := Categories.edit_fields;
     n_reset := Categories.handleCloseEditModal; n_load := Categories.fetchCategories;
     n_taken := "A category with this name already exists";
     n_updated := "Category updated successfully";
     n_failed := "Failed to update category" |}.

Definition subcategory_renaming : Renaming :=
  {| n_state := Subcategories.State; n_table := "subcategories";
     n_edit := Subcategories.handleEditSubcategory;
     n_selected := Subcategories.selectedSubcategory;
     n_valid := λ sel,
       truthy (trim (str sel "name")) && truthy (str sel "category_id");
     n_key := λ sel, [("name", VStr (trim (str sel "name")));
                      ("category_id", VStr (str sel "category_id"))];
     n_precheck := Subcategories.edit_precheck;
     n_complete := λ _, true;
     n_fields := Subcategories.edit_fields;
     n_reset := Subcategories.handleCloseEditModal;
     n_load := Subcategories.loadSubcategories;
     n_taken := "A subcategory with this name already exists in the selected category";
     n_updated := "Subcategory updated successfully";
     n_failed := "Failed to update subcategory" |}.

Definition audience_renaming : Renaming :=
  {| n_state := Audiences.State; n_table := "audiences";
     n_edit := Audiences.handleEditAudience;
     n_selected := Audiences.selectedAudience;
     n_valid := λ sel, truthy (trim (str sel "name"));
     n_key := λ sel, [("name", VStr (trim (str sel "name")))];
     n_precheck := Audiences.edit_precheck;
     n_complete := λ _, true;
     n_fields := Audiences.edit_fields;
     n_reset := Audiences.handleCloseEditModal; n_load := Audiences.fetchAudiences;
     n_taken := "An audience with this name already exists";
     n_updated := "Audience updated successfully";
     n_failed := "Failed to update audience" |}.

Definition size_renaming : Renaming :=
  {| n_state := Sizes.State; n_table := "sizes"; n_edit := Sizes.handleEditSize;
     n_selected := Sizes.selectedSize;
     n_valid := λ sel, truthy (trim (str sel "label"));
     n_key := λ sel, [("label", VStr (trim (str sel "label")));
                      ("category", cell sel "category")];
     n_precheck := Sizes.edit_precheck;
     n_complete := λ _, true;
     n_fields := Sizes.edit_fields;
     n_reset := Sizes.handleCloseEditModal; n_load := Sizes.fetchSizes;
     n_taken := "A size with this label already exists in this category";
     n_updated := "Size updated successfully";
     n_failed := "Failed to update size" |}.

Definition renamings : list Renaming :=
  [color_renaming; brand_renaming; category_renaming; subcategory_renaming;
   audience_renaming; size_renaming].

(** Another row than the one on the form, as the pre-check tells them
    apart: by an id that is there and differs. *)
Definition other_than (sel r : Row) : bool :=
  negb (bool_decide (cell r "id" = cell sel "id"))
  && negb (bool_decide (cell r "id" = VNull))
  && negb (bool_decide (cell sel "id" = VNull)).

(** The rows that stand in the way of an edit: in scope of the key, and
    other than the row on the form. *)
Definition rivals (N : Renaming) (sel : Row) (d : DB) : list Row :=
  filter (λ r, in_scope (n_key N sel) r && other_than sel r = true) (table d (n_table N)).

(** A key the pre-check can look for: no part of it is null. *)
Definition sound_key (key : list (string * val)) : Prop :=
  Forall (λ kv, kv.2 ≠ VNull) key.

(** An edit whose form is not valid stops before any request. *)
Definition edit_validates (N : Renaming) : Prop := ∀ st w sel,
  n_selected N st = Some sel → n_valid N sel = false →
  stops_early (n_edit N) st w.

(** An edit under a name that exactly one other row holds is turned down
    by the pre-check. *)
Definition edit_rejects_rival (N : Renaming) : Prop := ∀ st w sel r,
  n_selected N st = Some sel → n_valid N sel = true → sound_key (n_key N sel) →
  outage w (clock w) = false →
  rivals N sel (db w) = [r] →
  let st' := (n_edit N st w).1 in
  let w' := (n_edit N st w).2 in
  st' = st ∧ db w' = db w
  ∧ issued (n_edit N st) w = [(clock w, RSingle (n_precheck N sel))]
  ∧ toasts w' = toasts w ++ [error_toast w (n_taken N)].

(** What an update by id does to a row. *)
Definition edited (sel fields r : Row) : Row :=
  if bool_decide (cell r "id" = cell sel "id") && negb (bool_decide (cell sel "id" = VNull))
  then fields ∪ r else r.

(** An edit with no rival, on a row that is complete, with a backend that
    answers and accepts the update, goes through: the rows with the id of
    the form's row take the fields of the update, stamped with the time it
    is sent; every other row is as before. *)
Definition edit_applies (N : Renaming) : Prop := ∀ st w sel,
  n_selected N st = Some sel → n_valid N sel = true → sound_key (n_key N sel) →
  n_complete N sel = true →
  outage w (clock w) = false → outage w (clock w + 1) = false →
  rivals N sel (db w) = [] →
  let fields := n_fields N sel (clock w + 1) in
  (∀ e, run_update (db w) (n_table N) fields [FEq "id" (cell sel "id")] ≠ inr e) →
  let w' := (n_edit N st w).2 in
  db w' = <[n_table N := edited sel fields <$> table (db w) (n_table N)]> (db w)
  ∧ fields !! "updated_at" = Some (VTime (clock w + 1))
  ∧ (∃ reads, issued (n_edit N st) w
              = (clock w, RSingle (n_precheck N sel))
                :: (clock w + 1, RUpdate (n_table N) fields [FEq "id" (cell sel "id")])
                :: reads
              ∧ Forall is_select reads)
  ∧ toasts w' = toasts w ++ [success_toast w (n_updated N)].

(** An add whose form is not valid stops before any request. *)
Definition add_validates (A : Adding) : Prop := ∀ st w,
  a_valid A st = false → stops_early (a_add A) st w.

(** On the brands screen the update reads [description] and [logo_url]
    off the row as strings: when one of them is missing or null, the edit
    passes the pre-check and then fails without sending an update. *)
Definition incomplete_edit_fails (N : Renaming) : Prop := ∀ st w sel,
  n_selected N st = Some sel → n_valid N sel = true → sound_key (n_key N sel) →
  n_complete N sel = false →
  outage w (clock w) = false →
  rivals N sel (db w) = [] →
  let st' := (n_edit N st w).1 in
  let w' := (n_edit N st w).2 in
  st' = st ∧ db w' = db w
  ∧ issued (n_edit N st) w = [(clock w, RSingle (n_precheck N sel))]
  ∧ toasts w' = toasts w ++ [error_toast w (n_failed N)].

(** Forms for the scenarios. *)
Definition selected_color (sel : Row) : Colors.State :=
  Colors.openEdit sel Colors.init.

Definition selected_brand (sel : Row) : Brands.State :=
  Brands.set_showEditModal true (Brands.set_selectedBrand (Some sel) Brands.init).

Definition crimson : Row :=
  {[ "id" := VStr "2"; "name" := VStr "Crimson"; "hex_code" := VStr "#DC143C";
     "category" := color_category_val primary; "is_deleted" := VBool false ]}.

(** ** The pickers over time *)

(** What the user does to a picker. *)
Inductive Gesture :=
  | drop_files (files : list File)
  | choose_files (files : list File)
  | press_remove.

Definition gesture (g : Gesture) (p : ImageUpload.Picker) : ImageUpload.Picker :=
  match g with
  | drop_files files => ImageUpload.handleDrop files p
  | choose_files files => ImageUpload.handleFileSelect files p
  | press_remove => ImageUpload.handleRemove p
  end.

Definition gestures (gs : list Gesture) (p : ImageUpload.Picker) : ImageUpload.Picker :=
  foldl (λ p g, gesture g p) p gs.

Definition tagged_gesture (g : Gesture) (p : ImageUploadTagged.Picker)
  : M ImageUploadTagged.Picker :=
  match g with
  | drop_files files => ImageUploadTagged.handleDrop files p
  | choose_files files => ImageUploadTagged.handleFileSelect files p
  | press_remove => mret (ImageUploadTagged.handleRemove p)
  end.

Fixpoint tagged_gestures (gs : list Gesture) (p : ImageUploadTagged.Picker)
  : M ImageUploadTagged.Picker :=
  match gs with
  | [] => mret p
  | g :: gs => p' ← tagged_gesture g p; tagged_gestures gs p'
  end.

(** The object URLs a picker holds: the one of its preview, if it has
    one, and no other. *)
Definition holds_only (preview : option string) (urls : list string) : Prop :=
  urls = match preview with Some url => [url] | None => [] end.

(** The world once pre-check and update have gone through and the success
    toast is up, before the reload. *)
Definition edited_world (N : Renaming) (sel : Row) (w : World) : World :=
  let fields := n_fields N sel (clock w + 1) in
  let fs := [FEq "id" (cell sel "id")] in
  (toast.success (n_updated N)
     (with_db (<[n_table N := updated (db w) fields fs <$> table (db w) (n_table N)]>
                 (db w))
        (sent (RUpdate (n_table N) fields fs) (sent (RSingle (n_precheck N sel)) w)))).2.

(** ** Telling the user *)

(** A run that raises exactly [n] toasts. *)
Definition raises (n : nat) {A} (m : M A) : Prop :=
  ∀ w, ∃ l, toasts (m w).2 = toasts w ++ l ∧ length l = n.

(** The six paged screens with their handlers. *)
Record Screen := {
  z_state : Type;
  z_selected : z_state → option Row;
  z_load : z_state → M z_state;
  z_page : Z → z_state → M z_state;
  z_search : string → z_state → M z_state;
  z_add : z_state → M z_state;
  z_edit : z_state → M z_state;
  z_delete : (string → bool) → string → z_state → M z_state
}.

Definition screens : list Screen :=
  [ {| z_selected := Colors.selectedColor; z_load := Colors.fetchColors;
       z_page := Colors.handlePageChange; z_search := Colors.handleSearch;
       z_add := Colors.handleAddColor; z_edit := Colors.handleEditColor;
       z_delete := Colors.handleDeleteColor |};
    {| z_selected := Brands.selectedBrand; z_load := Brands.fetchBrands;
       z_page := Brands.handlePageChange; z_search := Brands.handleSearch;
       z_add := Brands.handleAddBrand; z_edit := Brands.handleEditBrand;
       z_delete := Brands.handleDeleteBrand |};
    {| z_selected := Categories.selectedCategory; z_load := Categories.fetchCategories;
       z_page := Categories.handlePageChange; z_search := Categories.handleSearch;
       z_add := Categories.handleAddCategory; z_edit := Categories.handleEditCategory;
       z_delete := Categories.handleDeleteCategory |};
    {| z_selected := Subcategories.selectedSubcategory;
       z_load := Subcategories.loadSubcategories;
       z_page := Subcategories.handlePageChange;
       z_search := Subcategories.handleSearch;
       z_add := Subcategories.handleAddSubcategory;
       z_edit := Subcategories.handleEditSubcategory;
       z_delete := Subcategories.handleDeleteSubcategory |};
    {| z_selected := Audiences.selectedAudience; z_load := Audiences.fetchAudiences;
       z_page := Audiences.handlePageChange; z_search := Audiences.handleSearch;
       z_add := Audiences.handleAddAudience; z_edit := Audiences.handleEditAudience;
       z_delete := Audiences.handleDeleteAudience |};
    {| z_selected := Sizes.selectedSize; z_load := Sizes.fetchSizes;
       z_page := Sizes.handlePageChange; z_search := Sizes.handleSearch;
       z_add := Sizes.handleAddSize; z_edit := Sizes.handleEditSize;
       z_delete := Sizes.handleDeleteSize |} ].

(** Every add, every edit of a selected row and every confirmed delete
    ends with exactly one toast; an edit with no row selected and a delete
    the user declines do nothing at all; loading, changing the page and
    searching raise no toast. *)
Definition tells_once (Z : Screen) : Prop :=
  (∀ st, raises 1 (z_add Z st))
  ∧ (∀ st sel, z_selected Z st = Some sel → raises 1 (z_edit Z st))
  ∧ (∀ st w, z_selected Z st = None → z_edit Z st w = (st, w))
  ∧ (∀ confirm id st, (∀ m, confirm m = true) → raises 1 (z_delete Z confirm id st))
  ∧ (∀ confirm id st w, (∀ m, confirm m = false) → z_delete Z confirm id st w = (st, w))
  ∧ (∀ st, raises 0 (z_load Z st))
  ∧ (∀ p st, raises 0 (z_page Z p st))
  ∧ (∀ v st, raises 0 (z_search Z v st)).

(** ** The sellers list and its count *)

(** A seller that is not soft-deleted. *)
Definition active_seller (r : Row) : bool :=
  bool_decide (cell r "user_type" = VStr "seller")
  && bool_decide (cell r "is_deleted" = VBool false).

(** A user with an e-mail row to its id. *)
Definition has_email (d : DB) (r : Row) : bool :=
  existsb (λ e, bool_decide (cell e "user_id" = cell r "id")
                && negb (bool_decide (cell r "id" = VNull))) (table d "user_emails").

(** What a load of the sellers screen that succeeds leaves behind: the
    count is that of the active sellers, with or without an e-mail row; the
    list holds only active sellers that have one. *)
Definition sellers_loaded (st st' : Sellers.State) (w : World) : Prop :=
  Sellers.totalItems st'
  = Z.of_nat (length (filter (λ r, active_seller r = true) (table (db w) "users")))
  ∧ Sellers.totalPages st' = ceil_div (Sellers.totalItems st') itemsPerPage
  ∧ Forall (λ r, r ∈ table (db w) "users" ∧ active_seller r = true
                 ∧ has_email (db w) r = true) (Sellers.sellers st')
  ∧ (length (Sellers.sellers st') ≤ 10)%nat.

(** The invite of a seller, in the log. *)
Definition seller_fields (st : Sellers.State) (user_id : string) : Row :=
  {[ "id" := VStr user_id; "user_type" := VStr "seller";
     "status" := VStr "pending_verification";
     "name" := VStr (Sellers.name (Sellers.formData st));
     "gender" := VStr (Sellers.gender (Sellers.formData st));
     "age" := VNum (Sellers.age (Sellers.formData st)) ]}.

Definition email_fields (st : Sellers.State) (user_id : string) : Row :=
  {[ "user_id" := VStr user_id;
     "email" := VStr (Sellers.email (Sellers.formData st));
     "is_primary" := VBool true ]}.

(** An invite that does not go through: the endpoint is out of reach or
    the auth service turns the address down. *)
Definition invite_fails (st : Sellers.State) (w : World) : Prop :=
  outage w (clock w) = true ∨ auth_rejects w (Sellers.email (Sellers.formData st)) = true.

(** Without an invite nothing is written. *)
Definition no_invite_no_seller : Prop := ∀ st w,
  invite_fails st w →
  let st' := (Sellers.handleAddSeller st w).1 in
  let w' := (Sellers.handleAddSeller st w).2 in
  issued (Sellers.handleAddSeller st) w
  = [(clock w, RInvite (Sellers.email (Sellers.formData st)))]
  ∧ db w' = db w
  ∧ Sellers.error st' ≠ None
  ∧ Sellers.isLoading st' = false
  ∧ Sellers.sellers st' = Sellers.sellers st.

(** The two inserts of an add are not undone: when the invite and the
    user row go through and the e-mail row does not, the user row stays. *)
Definition seller_without_email_stays : Prop := ∀ st w,
  outage w (clock w) = false →
  auth_rejects w (Sellers.email (Sellers.formData st)) = false →
  outage w (clock w + 1) = false → outage w (clock w + 2) = true →
  let uid := pretty (next_id w) in
  let st' := (Sellers.handleAddSeller st w).1 in
  let w' := (Sellers.handleAddSeller st w).2 in
  issued (Sellers.handleAddSeller st) w
  = [(clock w, RInvite (Sellers.email (Sellers.formData st)));
     (clock w + 1, RInsert "users" (seller_fields st uid));
     (clock w + 2, RInsert "user_emails" (email_fields st uid))]
  ∧ db w'
    = <["users" := table (db w) "users"
                   ++ [new_row "users" (S (next_id w)) (clock w + 1) (seller_fields st uid)]]>
        (db w)
  ∧ Sellers.error st' ≠ None
  ∧ Sellers.showForm st' = Sellers.showForm st
  ∧ Sellers.sellers st' = Sellers.sellers st.

(** ** The logo of a brand, on the earlier brands screen *)

(** The name under which a logo is stored: what the random generator
    yields, a dot, and what follows the last dot of the file's name. *)
Definition logo_name (w : World) (file : File) : string :=
  random w (draws w) +:+ "." +:+ file_ext (f_name file).

(** The upload of a logo fails: the backend is out of reach, or the name
    is in use (the upload does not overwrite). *)
Definition upload_fails (w : World) (file : File) : Prop :=
  outage w (clock w) = true
  ∨ is_Some (objects w !! object_key "brand-logos" (logo_name w file)).

(** With a file chosen, the add uploads it first.  When the upload fails,
    the error toast is raised twice, no insert is sent and nothing is
    stored.  When it goes through, the file is stored under its name and
    the insert that follows carries the public URL of the stored file. *)
Definition logo_before_brand : Prop := ∀ st w file,
  BrandsLegacy.selectedFile st = Some file →
  let name := logo_name w file in
  let w' := (BrandsLegacy.handleAddBrand st w).2 in
  (upload_fails w file →
     issued (BrandsLegacy.handleAddBrand st) w
     = [(clock w, RUpload "brand-logos" name file)]
     ∧ db w' = db w ∧ objects w' = objects w
     ∧ (toast_message <$> drop (length (toasts w)) (toasts w'))
       = ["Failed to upload logo"; "Failed to upload logo"])
  ∧ (¬ upload_fails w file →
     (∃ rest, issued (BrandsLegacy.handleAddBrand st) w
              = (clock w, RUpload "brand-logos" name file)
                :: (clock w + 1,
                    RInsert "brands"
                      (BrandsLegacy.add_fields st (getPublicUrl "brand-logos" name)))
                :: rest)
     ∧ objects w' = <[object_key "brand-logos" name := file]> (objects w)).

(** A string without a dot. *)
Fixpoint dotless (s : string) : bool :=
  match s with
  | EmptyString => true
  | String c s' => negb (Ascii.eqb c ".") && dotless s'
  end.

(** ** Deleting again, and deleting what is not there *)

(** A confirmed delete, run on a backend that answers, settles: a second
    delete of the same id changes no table any further, and a delete of an
    id that no row of the table has changes no table at all. *)
Definition delete_settles (L : Listing) : Prop := ∀ confirm id st st' w,
  (∀ m, confirm m = true) → (∀ t, outage w t = false) →
  let w1 := (l_delete L confirm id st w).2 in
  let w2 := (l_delete L confirm id st' w1).2 in
  (∀ tbl, table (db w2) tbl = table (db w1) tbl)
  ∧ (Forall (λ r, cell r "id" ≠ VStr id) (table (db w) (l_table L)) →
     ∀ tbl, table (db w1) tbl = table (db w) tbl).

(** ** The toast store ([lib/toast.ts]) *)

(** What the timer of a toast does when it fires: the toast with that id
    leaves the store. *)
Definition toast_expire (id : nat) (w : World) : World :=
  with_toasts (filter (λ t, toast_ident t ≠ id) (toasts w)) w.

(** No two toasts of the store share an id, and the counter is ahead of
    them all. *)
Definition toasts_fresh (w : World) : Prop :=
  NoDup (toast_ident <$> toasts w)
  ∧ Forall (λ t, (toast_ident t < toast_id w)%nat) (toasts w).

Definition fresh_kept (w w' : World) : Prop := toasts_fresh w → toasts_fresh w'.

(** Handlers and timers keep the ids apart, so that a timer takes out its
    own toast and no other. *)
Definition toast_ids_apart : Prop :=
  Forall (λ H, ∀ a st w, toasts_fresh w → toasts_fresh (h_run H a st w).2) handlers
  ∧ (∀ id w, toasts_fresh w → toasts_fresh (toast_expire id w))
  ∧ (∀ w pre t post, toasts_fresh w → toasts w = pre ++ t :: post →
       toasts (toast_expire (toast_ident t) w) = pre ++ post).

(** * Sanity checks on the model *)

Example trim_blanks : trim "  Dark Red  " = "Dark Red".
Proof. reflexivity. Qed.

Example ilike_substring :
  ilike_match "%re%" "Dark Red" = true ∧ ilike_match "%re%" "Blue" = false.
Proof. split; reflexivity. Qed.

Example ceil_div_pages :
  ceil_div 0 10 = 0 ∧ ceil_div 1 10 = 1 ∧ ceil_div 10 10 = 1 ∧ ceil_div 11 10 = 2.
Proof. repeat split; reflexivity. Qed.

Example file_ext_last_segment :
  file_ext "logo.final.png" = "png" ∧ file_ext "logo" = "logo".
Proof. split; reflexivity. Qed.

Example red_added_requests :
  (snd <$> log red_added.2)
  = [RSingle (Colors.add_precheck (color_form "Red" "#FF0000" Colors.init));
     RInsert "colors" (Colors.add_fields (color_form "Red" "#FF0000" Colors.init));
     RSelect (Colors.fetchColors_query Colors.init)]
  ∧ (toast_message <$> toasts red_added.2) = ["Color added successfully"]
  ∧ length (Colors.colors red_added.1) = 1%nat.
Proof. split_and!; reflexivity. Qed.

(** * Facts about the backend *)

Section backend.
Implicit Types (d : DB) (q : Query) (r : Row) (f : Filter).

Lemma matches_holds d fs f r : matches d fs r = true → f ∈ fs → holds d f r = true.
Proof.
  unfold matches. rewrite forallb_forall. intros H Hin. apply H.
  by apply list_elem_of_In.
Qed.

Lemma holds_eq d col v r : holds d (FEq col v) r = true → cell r col = v.
Proof.
  simpl. rewrite andb_true_iff. intros [H _]. by apply bool_decide_eq_true in H.
Qed.

Lemma elem_of_matching d q r :
  r ∈ matching d q ↔ r ∈ table d (q_from q) ∧ matches d (q_filters q) r = true.
Proof. unfold matching. rewrite list_elem_of_filter. tauto. Qed.

Lemma elem_of_ordered d q r : r ∈ ordered d q ↔ r ∈ matching d q.
Proof. unfold ordered. by rewrite merge_sort_Permutation. Qed.

Lemma length_ordered d q : length (ordered d q) = length (matching d q).
Proof. unfold ordered. by rewrite merge_sort_Permutation. Qed.

Lemma bool_compare_antisym x y : Bool.compare y x = CompOpp (Bool.compare x y).
Proof. by destruct x, y. Qed.

Lemma val_compare_antisym a b : val_compare b a = CompOpp (val_compare a b).
Proof.
  destruct a, b; simpl; try done;
    auto using bool_compare_antisym, Z.compare_antisym, Nat.compare_antisym,
               String.compare_antisym.
Qed.

Lemma col_compare_antisym spec r1 r2 :
  col_compare spec r2 r1 = CompOpp (col_compare spec r1 r2).
Proof. unfold col_compare. destruct spec.2; apply val_compare_antisym. Qed.

Lemma order_compare_antisym specs r1 r2 :
  order_compare specs r2 r1 = CompOpp (order_compare specs r1 r2).
Proof.
  induction specs as [|spec specs IH]; [done|]. simpl.
  rewrite col_compare_antisym. by destruct (col_compare spec r1 r2).
Qed.

Lemma order_le_total specs : Total (order_le specs).
Proof.
  intros r1 r2. unfold order_le. rewrite (order_compare_antisym specs r1 r2).
  destruct (order_compare specs r1 r2); simpl; auto.
Qed.

Lemma Sorted_ordered d q : Sorted (order_le (q_order q)) (ordered d q).
Proof. apply (Sorted_merge_sort _ (Total0 := order_le_total _)). Qed.

Lemma Sorted_drop {A} (R : relation A) n (l : list A) :
  Sorted R l → Sorted R (drop n l).
Proof.
  revert l. induction n as [|n IH]; intros l Hl; [done|].
  destruct l as [|x l]; [done|]. simpl. apply IH. by inversion Hl.
Qed.

Lemma Sorted_take {A} (R : relation A) n (l : list A) :
  Sorted R l → Sorted R (take n l).
Proof.
  revert l. induction n as [|n IH]; intros l Hl; [constructor|].
  destruct l as [|x l]; [constructor|]. simpl.
  inversion Hl as [|? ? Hs Hh]; subst. constructor; [by apply IH|].
  destruct n; [constructor|]. destruct l; [constructor|]. simpl.
  constructor. by inversion Hh.
Qed.

Lemma Sorted_weaken {A} (R1 R2 : relation A) (l : list A) :
  (∀ x y, R1 x y → R2 x y) → Sorted R1 l → Sorted R2 l.
Proof.
  intros HR. induction 1 as [|x l Hs IH Hh]; constructor; [done|].
  destruct Hh; constructor; auto.
Qed.

Lemma run_select_ok d q :
  r_error (run_select d q) = None →
  r_data (run_select d q)
    = (if q_head q then None else Some (project (q_select q) <$> slice q (ordered d q)))
  ∧ r_count (run_select d q)
    = (if q_count q then Some (Z.of_nat (length (matching d q))) else None).
Proof.
  unfold run_select, slice. rewrite length_ordered.
  destruct (q_range q) as [[lo hi]|]; [|done].
  destruct (_ || _); [done|]. by destruct (_ && _).
Qed.

Lemma slice_sublist q (rows : list Row) : slice q rows `sublist_of` rows.
Proof.
  unfold slice. destruct (q_range q) as [[lo hi]|]; [|done].
  etrans; [apply sublist_take|apply sublist_drop].
Qed.

Lemma Sorted_slice (R : relation Row) q rows : Sorted R rows → Sorted R (slice q rows).
Proof.
  unfold slice. destruct (q_range q) as [[lo hi]|]; [|done].
  intros. by apply Sorted_take, Sorted_drop.
Qed.

Lemma page_of_active d q :
  FEq "is_deleted" (VBool false) ∈ q_filters q →
  Forall (active_in d (q_from q)) (page_of d q).
Proof.
  intros Hf. apply Forall_forall. intros r Hr.
  eapply elem_of_sublist in Hr; [|apply slice_sublist].
  apply elem_of_ordered, elem_of_matching in Hr as [Hin Hm].
  split; [done|]. by eapply holds_eq, matches_holds.
Qed.

Lemma page_of_sorted d q : Sorted (order_le (q_order q)) (page_of d q).
Proof. apply Sorted_slice, Sorted_ordered. Qed.

Lemma select_rows d q :
  q_select q = None → q_head q = false →
  r_error (run_select d q) = None →
  default [] (r_data (run_select d q)) = page_of d q.
Proof.
  intros Hs Hh He. apply run_select_ok in He as [-> _]. rewrite Hs, Hh. simpl.
  by rewrite list_fmap_id.
Qed.

Lemma select_count d q :
  q_count q = true →
  r_error (run_select d q) = None →
  or_zero (r_count (run_select d q)) = Z.of_nat (length (matching d q)).
Proof. intros Hc He. apply run_select_ok in He as [_ ->]. by rewrite Hc. Qed.

(** *** Soft delete as the backend executes it *)

Lemma unique_keys_cols tbl cols c :
  cols ∈ unique_keys tbl → c ∈ cols → c = "name" ∨ c = "label" ∨ c = "category".
Proof.
  unfold unique_keys. intros Hk Hc.
  destruct (decide (tbl = "colors")); [|destruct (decide (tbl = "sizes"))].
  - apply list_elem_of_singleton in Hk. subst cols.
    apply list_elem_of_In in Hc. simpl in Hc. intuition.
  - apply list_elem_of_singleton in Hk. subst cols.
    apply list_elem_of_In in Hc. simpl in Hc. intuition.
  - by apply elem_of_nil in Hk.
Qed.

Lemma cell_insert_ne r c c' v : c ≠ c' → cell (<[c := v]> r) c' = cell r c'.
Proof. intros. unfold cell. by rewrite lookup_insert_ne. Qed.

Lemma cell_mark_deleted_key tbl cols id r :
  cols ∈ unique_keys tbl → cell (mark_deleted id r) <$> cols = cell r <$> cols.
Proof.
  intros Hk. apply list_fmap_ext. intros i c Hc. apply list_elem_of_lookup_2 in Hc.
  unfold mark_deleted. case_bool_decide; [|done].
  apply cell_insert_ne. destruct (unique_keys_cols _ _ _ Hk Hc) as [->|[->| ->]]; done.
Qed.

Lemma rekeyed_mark_deleted tbl id r : rekeyed tbl r (mark_deleted id r) = false.
Proof.
  unfold rekeyed. apply not_true_iff_false. rewrite existsb_exists.
  intros (cols & Hin & Hne). apply list_elem_of_In in Hin.
  rewrite (cell_mark_deleted_key tbl) in Hne by done.
  by rewrite bool_decide_eq_true_2 in Hne.
Qed.

Lemma update_conflict_unflagged tbl (l : list (bool * Row)) :
  Forall (λ p, p.1 = false) l → update_conflict tbl l = false.
Proof.
  induction 1 as [|[u r0] l Hu Hl IH]; [done|]. simpl in *. subst u.
  rewrite IH, orb_false_r. apply not_true_iff_false. rewrite existsb_exists.
  intros ([u' r'] & Hin & H). apply list_elem_of_In in Hin.
  rewrite Forall_forall in Hl. apply Hl in Hin. simpl in *. by subst.
Qed.

Lemma updated_soft_delete d id r :
  updated d {[ "is_deleted" := VBool true ]} [FEq "id" (VStr id)] r = mark_deleted id r.
Proof.
  unfold updated, mark_deleted, matches. simpl. rewrite !andb_true_r.
  case_bool_decide; [|done]. by rewrite insert_union_singleton_l.
Qed.

Lemma run_update_soft_delete d tbl id :
  run_update d tbl {[ "is_deleted" := VBool true ]} [FEq "id" (VStr id)]
  = inl (<[tbl := mark_deleted id <$> table d tbl]> d).
Proof.
  unfold run_update. rewrite update_conflict_unflagged.
  - f_equal. f_equal. apply list_fmap_ext. intros. apply updated_soft_delete.
  - apply Forall_fmap, Forall_forall. intros r _. simpl.
    rewrite updated_soft_delete. apply rekeyed_mark_deleted.
Qed.

End backend.

(** * The screens, one by one *)

Ltac run := unfold mbind, mret, M_bind, M_ret in *.

Lemma is_select_1 t q : Forall is_select [(t, RSelect q)].
Proof. repeat constructor. by eexists. Qed.

Lemma is_select_2 t q t' q' : Forall is_select [(t, RSelect q); (t', RSelect q')].
Proof. repeat constructor; by eexists. Qed.

Lemma snoc_ne {A} (l : list A) x : l ++ [x] ≠ l.
Proof.
  intros H. apply (f_equal length) in H. rewrite length_app in H. simpl in H. lia.
Qed.

(** The six screens that share the paged list: the query's shape. *)
Ltac query_shape := intros; unfold Colors.fetchColors_query, Brands.fetchBrands_query,
  Audiences.fetchAudiences_query, Categories.fetchCategories_query,
  Subcategories.loadSubcategories_query, Sizes.fetchSizes_query;
  destruct (truthy _); simpl; split_and!; try done; set_solver.

Lemma colors_query_shape st : paged_shape (Colors.fetchColors_query st) "colors".
Proof. query_shape. Qed.
Lemma brands_query_shape st : paged_shape (Brands.fetchBrands_query st) "brands".
Proof. query_shape. Qed.
Lemma audiences_query_shape st :
  paged_shape (Audiences.fetchAudiences_query st) "audiences".
Proof. query_shape. Qed.
Lemma categories_query_shape st :
  paged_shape (Categories.fetchCategories_query st) "categories".
Proof. query_shape. Qed.
Lemma subcategories_query_shape st :
  paged_shape (Subcategories.loadSubcategories_query st) "subcategories".
Proof. query_shape. Qed.
Lemma sizes_query_shape st : paged_shape (Sizes.fetchSizes_query st) "sizes".
Proof. query_shape. Qed.

Ltac paged_load shape :=
  let st := fresh "st" in let w := fresh "w" in
  intros st w; simpl;
  unfold Colors.fetchColors, Brands.fetchBrands, Audiences.fetchAudiences,
    Categories.fetchCategories, Subcategories.loadSubcategories, Sizes.fetchSizes;
  run; unfold await_select;
  destruct (outage w (clock w));
  [simpl; split_and!; [done|eauto using is_select_1|by right]|];
  match goal with
  | |- context [run_select (db w) ?q] =>
      destruct (r_error (run_select (db w) q)) eqn:?; simpl;
      [split_and!; [done|eauto using is_select_1|by right]|];
      split_and!; [done|eauto using is_select_1|left];
      split; [naive_solver|];
      destruct (shape st) as (? & ? & _); by apply select_rows
  end.

Lemma colors_load_sound : load_sound color_listing.
Proof. paged_load colors_query_shape. Qed.
Lemma brands_load_sound : load_sound brand_listing.
Proof. paged_load brands_query_shape. Qed.
Lemma audiences_load_sound : load_sound audience_listing.
Proof. paged_load audiences_query_shape. Qed.
Lemma categories_load_sound : load_sound category_listing.
Proof. paged_load categories_query_shape. Qed.
Lemma subcategories_load_sound : load_sound subcategory_listing.
Proof. paged_load subcategories_query_shape. Qed.
Lemma sizes_load_sound : load_sound size_listing.
Proof. paged_load sizes_query_shape. Qed.

Ltac two_reads :=
  eexists; split; [by rewrite <- app_assoc|simpl; apply is_select_2].

Lemma sellers_load_sound : load_sound seller_listing.
Proof.
  intros st w. simpl. unfold Sellers.loadSellers. run. unfold await_select.
  destruct (outage w (clock w)).
  { simpl. split_and!; [done|eauto using is_select_1|by right]. }
  destruct (r_error (run_select (db w) Sellers.count_query)) eqn:Hc; simpl.
  { split_and!; [done|eauto using is_select_1|by right]. }
  destruct (outage w (clock w + 1)).
  { simpl. split_and!; [done|two_reads|by right]. }
  match goal with |- context [run_select _ ?q0] => set (q := q0) end.
  destruct (r_error (run_select (db w) q)) eqn:He; simpl.
  { split_and!; [done|two_reads|by right]. }
  split_and!; [done|two_reads|left].
  split; [naive_solver|]. by apply select_rows.
Qed.

Lemma legacy_brands_load_sound : load_sound legacy_brand_listing.
Proof.
  intros st w. simpl. unfold BrandsLegacy.loadBrands. run. unfold await_select.
  destruct (outage w (clock w)).
  { simpl. split_and!; [done|eauto using is_select_1|right]. split; [apply snoc_ne|done]. }
  destruct (r_error (run_select (db w) BrandsLegacy.loadBrands_query)) eqn:He.
  { simpl. split_and!; [done|eauto using is_select_1|right].
    split; [apply snoc_ne|done]. }
  cbn -[run_select]. split_and!; [done|eauto using is_select_1|left].
  split; [naive_solver|]. by apply select_rows.
Qed.

Ltac each := repeat first [apply Forall_nil_2 | apply Forall_cons_2].

Lemma listings_load_sound : Forall load_sound listings.
Proof.
  each;
    auto using colors_load_sound, brands_load_sound, legacy_brands_load_sound,
      categories_load_sound, subcategories_load_sound, audiences_load_sound,
      sizes_load_sound, sellers_load_sound.
Qed.

Lemma listings_query_sound : Forall query_sound listings.
Proof.
  each; intros st; simpl.
  - destruct (colors_query_shape st) as (_ & _ & _ & ? & ?); done.
  - destruct (brands_query_shape st) as (_ & _ & _ & ? & ?); done.
  - split; [done|]. set_solver.
  - destruct (categories_query_shape st) as (_ & _ & _ & ? & ?); done.
  - destruct (subcategories_query_shape st) as (_ & _ & _ & ? & ?); done.
  - destruct (audiences_query_shape st) as (_ & _ & _ & ? & ?); done.
  - destruct (sizes_query_shape st) as (_ & _ & _ & ? & ?); done.
  - split; [done|]. set_solver.
Qed.

Ltac confirmed_delete :=
  let Hc := fresh "Hc" in let Ho := fresh "Ho" in
  intros confirm id st w Hc Ho; simpl;
  unfold Colors.handleDeleteColor, Brands.handleDeleteBrand,
    Audiences.handleDeleteAudience, Categories.handleDeleteCategory,
    Subcategories.handleDeleteSubcategory, Sizes.handleDeleteSize,
    Sellers.handleDeleteSeller, BrandsLegacy.handleDeleteBrand;
  rewrite Hc; simpl; run; unfold await_update;
  rewrite Ho, run_update_soft_delete; simpl.

Lemma listings_delete_sound : Forall delete_sound listings.
Proof.
  each; confirmed_delete; try by eexists _, _.
  destruct (Sellers.loadSellers _ _) as [st2 w2] eqn:Hl. simpl.
  eexists _, _. rewrite Hl. done.
Qed.

Lemma listings_sound :
  Forall (λ L, load_sound L ∧ query_sound L ∧ delete_sound L) listings.
Proof.
  rewrite !Forall_and.
  auto using listings_load_sound, listings_query_sound, listings_delete_sound.
Qed.

(** * Loads show active rows only *)

Lemma load_sound_active L : load_sound L → query_sound L → loads_only_active L.
Proof.
  intros Hload Hq st w. destruct (Hload st w) as (_ & _ & [[Hok Hrows]|Hfail]).
  - left. split; [done|]. rewrite Hrows. destruct (Hq st) as [<- Hf].
    by apply page_of_active.
  - by right.
Qed.

(** Claim C2.  On every entity screen, for every state of the screen (so every
    page number and search text) and every state of the world, a load either
    is flagged as failed and leaves the list as it was, or leaves on display
    only rows of the table whose [is_deleted] is [false]. *)
Theorem load_never_shows_deleted : Forall loads_only_active listings.
Proof.
  eapply Forall_impl; [apply listings_sound|].
  intros L (? & ? & _). by apply load_sound_active.
Qed.

(** * Soft delete *)

Lemma cell_mark_deleted id r :
  cell r "id" = VStr id → cell (mark_deleted id r) "is_deleted" = VBool true.
Proof.
  intros H. unfold mark_deleted. rewrite bool_decide_eq_true_2 by done.
  unfold cell. by rewrite lookup_insert_eq.
Qed.

Lemma mark_deleted_other id r col :
  col ≠ "is_deleted" → mark_deleted id r !! col = r !! col.
Proof.
  intros H. unfold mark_deleted. case_bool_decide; [|done].
  by rewrite lookup_insert_ne.
Qed.

Lemma mark_deleted_id id r : cell (mark_deleted id r) "id" = cell r "id".
Proof. unfold cell. by rewrite mark_deleted_other. Qed.

Lemma table_insert (d : DB) tbl rows : table (<[tbl := rows]> d) tbl = rows.
Proof. unfold table. by rewrite lookup_insert_eq. Qed.

Lemma marked_not_active d tbl id r :
  active_in (<[tbl := mark_deleted id <$> table d tbl]> d) tbl r →
  cell r "id" ≠ VStr id.
Proof.
  intros [Hin Hact] Hid. rewrite table_insert in Hin.
  apply list_elem_of_fmap in Hin as (r0 & -> & _).
  rewrite mark_deleted_id in Hid. rewrite cell_mark_deleted in Hact; done.
Qed.

Lemma issued_app {A} (m : M A) w l : log (m w).2 = log w ++ l → issued m w = l.
Proof. intros H. unfold issued. rewrite H. apply drop_app_length. Qed.

Lemma delete_sound_soft L :
  load_sound L → query_sound L → delete_sound L → soft_deletes L.
Proof.
  intros Hload Hq Hdel confirm id st w Hc Ho. simpl.
  destruct (Hdel confirm id st w Hc Ho) as (st2 & w2 & Hw & Hdb & Hlog).
  destruct (Hload st2 w2) as (Hdb' & (reads & Hlog' & Hreads) & _).
  assert (db (l_delete L confirm id st w).2
          = <[l_table L := mark_deleted id <$> table (db w) (l_table L)]> (db w))
    as Hdbw by (rewrite Hw; congruence).
  split_and!.
  - exists reads. split; [|done]. apply issued_app.
    rewrite Hw, Hlog', Hlog, <- app_assoc. done.
  - done.
  - intros r Hin Hid. exists (mark_deleted id r). rewrite Hdbw, table_insert.
    split_and!.
    + by apply list_elem_of_fmap_2.
    + by apply cell_mark_deleted.
    + intros col Hcol. by apply mark_deleted_other.
  - intros r Hin Hid. rewrite Hdbw, table_insert.
    apply list_elem_of_fmap. exists r. split; [|done].
    unfold mark_deleted. by rewrite bool_decide_eq_false_2.
  - by rewrite Hdbw, table_insert, length_fmap.
  - intros st3 w3 Hdb3. simpl.
    destruct (load_sound_active L Hload Hq st3 w3) as [[Hok Hact]|Hfail]; [left|by right].
    split; [done|]. eapply Forall_impl; [exact Hact|]. intros r Hr.
    rewrite Hdb3, Hdbw in Hr. by eapply marked_not_active.
Qed.

(** Claim C3.  On every entity screen, when the user confirms and the backend
    answers, delete sends one update that sets [is_deleted] to [true] for
    the id and otherwise only reads; no row leaves the table; a row of that
    id is still there with [is_deleted = true] and every other column as
    before; rows of other ids are untouched; and no later load that
    succeeds shows a row of that id. *)
Theorem soft_delete_keeps_the_row : Forall soft_deletes listings.
Proof.
  eapply Forall_impl; [apply listings_sound|].
  intros L (? & ? & ?). by apply delete_sound_soft.
Qed.

(** * Order of the list *)

Lemma newest_first_order r1 r2 :
  order_le [("created_at", false)] r1 r2 → newest_first r1 r2.
Proof.
  unfold order_le, newest_first, order_compare, col_compare. simpl.
  by destruct (val_compare _ _).
Qed.

Lemma category_display_order r1 r2 :
  order_le [("category", true); ("display_order", true)] r1 r2 →
  by_category_then_display_order r1 r2.
Proof.
  unfold order_le, by_category_then_display_order, order_compare, col_compare.
  simpl. destruct (val_compare (cell r1 "category") _); [|done..].
  by destruct (val_compare _ _).
Qed.

Lemma load_sound_sorted L specs (R : relation Row) :
  load_sound L →
  (∀ st, q_order (l_query L st) = specs) →
  (∀ r1 r2, order_le specs r1 r2 → R r1 r2) →
  shows_in_order R L.
Proof.
  intros Hload Hord HR st w. destruct (Hload st w) as (_ & _ & [[Hok Hrows]|Hfail]).
  - left. split; [done|]. rewrite Hrows. eapply Sorted_weaken; [exact HR|].
    rewrite <- (Hord st). apply page_of_sorted.
  - by right.
Qed.

Ltac query_order := intros; simpl; unfold Colors.fetchColors_query, Brands.fetchBrands_query,
  Audiences.fetchAudiences_query, Categories.fetchCategories_query,
  Subcategories.loadSubcategories_query, Sizes.fetchSizes_query;
  by destruct (truthy _).

(** Claim C6, as the code has it.  The sizes list is ordered by category, then by
    display order, both ascending.  The colors list is ordered like the
    lists of the plain entities: by creation time, newest first. *)
Theorem list_order :
  shows_in_order by_category_then_display_order size_listing
  ∧ Forall (shows_in_order newest_first)
      [color_listing; brand_listing; legacy_brand_listing; category_listing;
       subcategory_listing; audience_listing; seller_listing].
Proof.
  split.
  - apply (load_sound_sorted _ [("category", true); ("display_order", true)]);
      [apply sizes_load_sound|query_order|apply category_display_order].
  - each; (apply (load_sound_sorted _ [("created_at", false)]);
           [|intros st; simpl|apply newest_first_order]);
      [apply colors_load_sound|query_order
      |apply brands_load_sound|query_order
      |apply legacy_brands_load_sound|done
      |apply categories_load_sound|query_order
      |apply subcategories_load_sound|query_order
      |apply audiences_load_sound|query_order
      |apply sellers_load_sound|done].
Qed.

(** * Pages *)


Ltac flagged := simpl; split; [done|intros H; by destruct H].

Ltac paged_paging shape :=
  let st := fresh "st" in let w := fresh "w" in
  intros st w; simpl;
  unfold Colors.fetchColors, Brands.fetchBrands, Audiences.fetchAudiences,
    Categories.fetchCategories, Subcategories.loadSubcategories, Sizes.fetchSizes;
  run; unfold await_select;
  destruct (outage w (clock w)); [flagged|];
  match goal with
  | |- context [run_select (db w) ?q] =>
      destruct (r_error (run_select (db w) q)) eqn:?; simpl; [flagged|];
      split; [done|]; intros _;
      destruct (shape st) as (_ & _ & ? & _); by rewrite select_count
  end.

Lemma paged_screens_sound : Forall paging_sound paged_screens.
Proof.
  each.
  - paged_paging colors_query_shape.
  - paged_paging brands_query_shape.
  - paged_paging categories_query_shape.
  - paged_paging subcategories_query_shape.
  - paged_paging audiences_query_shape.
  - paged_paging sizes_query_shape.
  - intros st w. simpl. unfold Sellers.loadSellers. run. unfold await_select.
    destruct (outage w (clock w)); [flagged|].
    destruct (r_error (run_select (db w) Sellers.count_query)) eqn:Hc; [flagged|].
    cbn -[run_select].
    destruct (outage w (clock w + 1)); [flagged|].
    match goal with
    | |- context [run_select (db w) (Sellers.page_query ?s)] =>
        destruct (r_error (run_select (db w) (Sellers.page_query s)))
    end; [flagged|].
    cbn -[run_select]. split; [done|]. intros _. by rewrite select_count.
Qed.




(** * A taken name *)

Lemma matches_key d key r :
  Forall (λ kv, kv.2 ≠ VNull) key →
  matches d (key_filters key) r = in_scope key r.
Proof.
  intros Hk. unfold matches, key_filters, in_scope. rewrite forallb_app. simpl.
  rewrite !andb_true_r. f_equal.
  induction Hk as [|[c v] key Hv Hk IH]; [done|].
  rewrite fmap_cons. cbn [forallb]. rewrite IH. f_equal. simpl in *.
  by rewrite (bool_decide_eq_false_2 (v = VNull)), andb_true_r.
Qed.

Lemma single_in_scope d q key r :
  filter (λ r, in_scope key r = true) (table d (q_from q)) = [r] →
  q_filters q = key_filters key →
  Forall (λ kv, kv.2 ≠ VNull) key →
  run_single d q = {| s_data := Some (project (q_select q) r); s_error := None |}.
Proof.
  intros Hone Hq Hk. unfold run_single, ordered, matching.
  rewrite (list_filter_iff _ (λ r, in_scope key r = true)).
  - by rewrite Hone.
  - intros r0. by rewrite Hq, matches_key.
Qed.

Lemma rejected_run (A : Adding) st w q :
  a_add A st w = (st, (toast.error (a_message A) (sent (RSingle q) w)).2) →
  let st' := (a_add A st w).1 in
  let w' := (a_add A st w).2 in
  st' = st
  ∧ db w' = db w
  ∧ (∃ q, issued (a_add A st) w = [(clock w, RSingle q)])
  ∧ toasts w' = toasts w ++ [{| toast_ident := toast_id w; toast_type := t_error;
                                toast_message := a_message A |}].
Proof.
  intros Hrun. simpl. split_and!; [by rewrite Hrun..| |by rewrite Hrun].
  exists q. apply issued_app. by rewrite Hrun.
Qed.

Ltac duplicate_found precheck :=
  let Hv := fresh "Hv" in let Ho := fresh "Ho" in let Hone := fresh "Hone" in
  intros st w r Hv Ho Hone; apply (rejected_run _ st w (precheck st));
  simpl in *;
  unfold Colors.handleAddColor, Brands.handleAddBrand, Audiences.handleAddAudience,
    Categories.handleAddCategory, Subcategories.handleAddSubcategory,
    Sizes.handleAddSize;
  repeat (apply andb_true_iff in Hv as [Hv ?]);
  repeat match goal with H : _ = true |- _ => rewrite H end; simpl;
  run; unfold await_single; rewrite Ho;
  erewrite single_in_scope; [|exact Hone|reflexivity|]; [done|];
  repeat constructor; try done; by destruct (Sizes.category _).

Lemma checked_adds_reject : Forall rejects_duplicate checked_adds.
Proof.
  each.
  - duplicate_found Colors.add_precheck.
  - duplicate_found Brands.add_precheck.
  - duplicate_found Categories.add_precheck.
  - duplicate_found Subcategories.add_precheck.
  - duplicate_found Audiences.add_precheck.
  - duplicate_found Sizes.add_precheck.
Qed.

(** * Edits stamp their update *)

(** The reads of a load, in the log. *)
Lemma load_log L st w :
  load_sound L →
  ∃ reads, log (l_load L st w).2 = log w ++ reads ∧ Forall stamped reads.
Proof.
  intros Hload. destruct (Hload st w) as (_ & (reads & Hlog & Hreads) & _).
  exists reads. split; [done|]. eapply Forall_impl; [exact Hreads|].
  intros [t req] [q Hq]. simpl in Hq. subst req. done.
Qed.

Lemma log_stamped_issued {A} (m : M A) w t tbl fields fs :
  log_stamped m w →
  (t, RUpdate tbl fields fs) ∈ issued m w →
  fields !! "updated_at" = Some (VTime t).
Proof.
  intros (l & Hlog & Hl) Hin. rewrite (issued_app _ _ _ Hlog) in Hin.
  rewrite Forall_forall in Hl. by apply Hl in Hin.
Qed.

Lemma stamped_after {A} (l1 : list (Z * Request)) (w0 : World) (m : M A) w :
  log w = log w0 ++ l1 → Forall stamped l1 →
  log_stamped m w →
  ∃ l, log (m w).2 = log w0 ++ l ∧ Forall stamped l.
Proof.
  intros Hw Hl1 (l & Hlog & Hl). exists (l1 ++ l). split.
  - by rewrite Hlog, Hw, <- app_assoc.
  - by apply Forall_app.
Qed.

Lemma load_stamped L st w : load_sound L → log_stamped (l_load L st) w.
Proof. apply load_log. Qed.

Lemma stamped_0 (l0 : list (Z * Request)) : ∃ l, l0 = l0 ++ l ∧ Forall stamped l.
Proof. exists []. by rewrite app_nil_r. Qed.

Lemma stamped_1 (l0 : list (Z * Request)) a :
  stamped a → ∃ l, l0 ++ [a] = l0 ++ l ∧ Forall stamped l.
Proof. intros. exists [a]. split; [done|]. by repeat constructor. Qed.

Lemma stamped_2 (l0 : list (Z * Request)) a b :
  stamped a → stamped b → ∃ l, (l0 ++ [a]) ++ [b] = l0 ++ l ∧ Forall stamped l.
Proof.
  intros. exists [a; b]. split; [by rewrite <- app_assoc|]. by repeat constructor.
Qed.

Lemma stamped_3 (l0 : list (Z * Request)) a b c :
  stamped a → stamped b → stamped c →
  ∃ l, ((l0 ++ [a]) ++ [b]) ++ [c] = l0 ++ l ∧ Forall stamped l.
Proof.
  intros. exists [a; b; c]. split; [by rewrite <- !app_assoc|].
  by repeat constructor.
Qed.

Lemma stamped_then {A} (m : M A) (w0 w : World) :
  (∃ l, log w = log w0 ++ l ∧ Forall stamped l) →
  log_stamped m w →
  ∃ l, log (m w).2 = log w0 ++ l ∧ Forall stamped l.
Proof. intros (l1 & Hw & Hl1) Hm. by eapply stamped_after. Qed.

Ltac stamp :=
  unfold stamped; simpl; try done;
  unfold Colors.edit_fields, Brands.edit_fields, BrandsLegacy.edit_fields,
    Categories.edit_fields, Subcategories.edit_fields, Audiences.edit_fields,
    Sizes.edit_fields;
  by simplify_map_eq.

Ltac stamped_log :=
  first [ apply stamped_0
        | apply stamped_1; stamp
        | apply stamped_2; stamp
        | apply stamped_3; stamp ].

Ltac branches :=
  repeat first
    [ progress cbn -[run_single run_update run_select run_insert stamped
                     Colors.fetchColors Brands.fetchBrands
                     Categories.fetchCategories Subcategories.loadSubcategories
                     Audiences.fetchAudiences Sizes.fetchSizes
                     BrandsLegacy.loadBrands Sellers.loadSellers]
    | match goal with
      | |- context [match ?x with _ => _ end] =>
          lazymatch x with
          | context [match _ with _ => _ end] => fail
          | _ => destruct x eqn:?
          end
      end ].

Ltac edit_stamped load_lemma :=
  let st := fresh "st" in let w := fresh "w" in
  intros st w;
  unfold log_stamped, Colors.handleEditColor, Colors.edit_failed,
    Brands.handleEditBrand, Brands.edit_failed,
    Categories.handleEditCategory, Categories.edit_failed,
    Subcategories.handleEditSubcategory, Subcategories.edit_failed,
    Audiences.handleEditAudience, Audiences.edit_failed,
    Sizes.handleEditSize, Sizes.edit_failed, now;
  run;
  unfold await_single, await_update, toast.error, toast.success, toast_add;
  branches;
  first [ stamped_log
        | apply stamped_then; [cbn; stamped_log|exact (load_stamped _ _ _ load_lemma)] ].

Lemma colors_edit_stamped st w : log_stamped (Colors.handleEditColor st) w.
Proof. revert st w. edit_stamped colors_load_sound. Qed.
Lemma brands_edit_stamped st w : log_stamped (Brands.handleEditBrand st) w.
Proof. revert st w. edit_stamped brands_load_sound. Qed.
Lemma categories_edit_stamped st w : log_stamped (Categories.handleEditCategory st) w.
Proof. revert st w. edit_stamped categories_load_sound. Qed.
Lemma subcategories_edit_stamped st w :
  log_stamped (Subcategories.handleEditSubcategory st) w.
Proof. revert st w. edit_stamped subcategories_load_sound. Qed.
Lemma audiences_edit_stamped st w : log_stamped (Audiences.handleEditAudience st) w.
Proof. revert st w. edit_stamped audiences_load_sound. Qed.
Lemma sizes_edit_stamped st w : log_stamped (Sizes.handleEditSize st) w.
Proof. revert st w. edit_stamped sizes_load_sound. Qed.

Lemma legacy_brands_edit_stamped st w :
  log_stamped (BrandsLegacy.handleEditBrand st) w.
Proof.
  unfold log_stamped, BrandsLegacy.handleEditBrand, BrandsLegacy.update_brand,
    BrandsLegacy.uploadLogo, random_base36, now.
  run.
  unfold await_upload, await_update, toast.error, toast.success, toast_add.
  branches;
    first [ stamped_log
          | apply stamped_then;
            [cbn; stamped_log|exact (load_stamped _ _ _ legacy_brands_load_sound)] ].
Qed.

Lemma editings_log_stamped :
  Forall (λ E, ∀ st w, log_stamped (e_edit E st) w) editings.
Proof.
  each; simpl;
    auto using colors_edit_stamped, brands_edit_stamped, legacy_brands_edit_stamped,
      categories_edit_stamped, subcategories_edit_stamped, audiences_edit_stamped,
      sizes_edit_stamped.
Qed.

(** Claim C5, as the code has it.  On the color, brand (both screens), category,
    subcategory, audience and size screens, every update request an edit
    sends carries [updated_at], set to the time the request is sent. *)
Theorem edit_refreshes_updated_at : Forall stamps_updates editings.
Proof.
  eapply Forall_impl; [apply editings_log_stamped|].
  intros E HE st w t tbl fields fs. apply log_stamped_issued, HE.
Qed.

(** * Hex codes *)

Lemma is_hex_digit_spec c : Colors.is_hex_digit c = bool_decide (c ∈ hex_digits).
Proof. destruct c as [[] [] [] [] [] [] [] []]; reflexivity. Qed.

Lemma all_hex_spec s :
  Colors.all_hex s = true ↔ Forall (λ c, c ∈ hex_digits) (list_ascii_of_string s).
Proof.
  induction s as [|c s IH]; simpl.
  - split; [constructor|done].
  - rewrite andb_true_iff, Forall_cons, IH, is_hex_digit_spec, bool_decide_eq_true.
    done.
Qed.

Lemma validateHexCode_spec s : Colors.validateHexCode s = true ↔ is_hex_color s.
Proof.
  unfold Colors.validateHexCode, is_hex_color. split.
  - destruct s as [|c digits]; [done|].
    destruct (Ascii.eqb_spec c "#") as [->|Hne].
    + rewrite andb_true_iff, orb_true_iff, !Nat.eqb_eq, all_hex_spec.
      intros [Hall Hlen]. exists digits. split_and!; [done|tauto|done].
    + intros H. exfalso. revert H.
      destruct c as [[] [] [] [] [] [] [] []]; done.
  - intros (digits & -> & Hlen & Hall).
    rewrite andb_true_iff, orb_true_iff, !Nat.eqb_eq, all_hex_spec. tauto.
Qed.

Ltac early :=
  run; unfold toast.error, toast_add; simpl;
  split_and!; [done|done|by rewrite app_nil_r|by eexists].

Lemma stops_early_intro {S} (handler : S → M S) st w :
  (handler st w).1 = st
  ∧ db (handler st w).2 = db w
  ∧ log (handler st w).2 = log w ++ []
  ∧ (∃ msg, toasts (handler st w).2 = toasts w ++ [error_toast w msg]) →
  stops_early handler st w.
Proof.
  intros (? & ? & ? & ?). split_and!; [done|done| |done]. by apply issued_app.
Qed.

Lemma add_color_invalid_hex st w :
  Colors.validateHexCode (trim (Colors.hex_code (Colors.newColor st))) = false →
  stops_early Colors.handleAddColor st w.
Proof.
  intros Hbad. apply stops_early_intro. unfold Colors.handleAddColor.
  destruct (negb (truthy (trim (Colors.name (Colors.newColor st))))); [early|].
  destruct (negb (truthy (trim (Colors.hex_code (Colors.newColor st))))); [early|].
  rewrite Hbad. early.
Qed.

Lemma edit_color_invalid_hex st w sel :
  Colors.selectedColor st = Some sel →
  Colors.validateHexCode (trim (str sel "hex_code")) = false →
  stops_early Colors.handleEditColor st w.
Proof.
  intros Hsel Hbad. apply stops_early_intro. unfold Colors.handleEditColor.
  rewrite Hsel.
  destruct (negb (truthy (trim (str sel "name")))); [early|].
  destruct (negb (truthy (trim (str sel "hex_code")))); [early|].
  rewrite Hbad. early.
Qed.

(** Claim C9.  The validator accepts exactly the strings made of a hash sign
    followed by three or six hex digits: ["#FFF"] and ["#ffffff"] pass,
    ["FFFFFF"], ["#GGGGGG"] and ["#12345"] do not.  When the trimmed hex code
    of the form does not pass, add and edit stop before any request: nothing
    is sent, nothing is stored, one error toast is raised. *)
Theorem hex_code_validation :
  (∀ s, Colors.validateHexCode s = true ↔ is_hex_color s)
  ∧ Colors.validateHexCode "#FFF" = true
  ∧ Colors.validateHexCode "#ffffff" = true
  ∧ Colors.validateHexCode "FFFFFF" = false
  ∧ Colors.validateHexCode "#GGGGGG" = false
  ∧ Colors.validateHexCode "#12345" = false
  ∧ (∀ st w,
       Colors.validateHexCode (trim (Colors.hex_code (Colors.newColor st))) = false →
       stops_early Colors.handleAddColor st w)
  ∧ (∀ st w sel,
       Colors.selectedColor st = Some sel →
       Colors.validateHexCode (trim (str sel "hex_code")) = false →
       stops_early Colors.handleEditColor st w).
Proof.
  split_and!; try reflexivity.
  - apply validateHexCode_spec.
  - apply add_color_invalid_hex.
  - apply edit_color_invalid_hex.
Qed.

(** * The image pickers *)

Lemma handleFile_size_then_type : dispatches_by size_then_type.
Proof.
  intros file p. unfold ImageUpload.handleFile, size_then_type, is_image.
  cbn -[startsWith Z.ltb].
  destruct (ImageUpload.maxSize p <? f_size file); [done|].
  destruct (negb (startsWith "image/" (f_type file))); [done|].
  unfold ImageUpload.revoke_preview. cbn -[startsWith Z.ltb].
  by destruct (ImageUpload.previewUrl p).
Qed.

(** Claim C7, as the code has it.  Both pickers let through only a file that
    passes both checks, and answer a rejected file with one notification
    and no file-selected event.  The first picker checks the size first and
    the type second and notifies by an error event; the second checks the
    type first and the size second and notifies by an error toast, with no
    error event.  The size limit is 1048576 bytes unless the caller sets
    another. *)
Theorem picker_validation :
  ImageUpload.default_maxSize = 1048576
  ∧ ImageUploadTagged.default_maxSize = 1048576
  ∧ dispatches_by size_then_type
  ∧ ∀ file p w,
      let p' := (ImageUploadTagged.validateAndProcessFile file p w).1 in
      let w' := (ImageUploadTagged.validateAndProcessFile file p w).2 in
      match type_then_size (ImageUploadTagged.maxSize p) file with
      | not_an_image =>
          ImageUploadTagged.dispatched p' = ImageUploadTagged.dispatched p
          ∧ toasts w' = toasts w ++ [error_toast w "Please select an image file"]
      | too_large =>
          ImageUploadTagged.dispatched p' = ImageUploadTagged.dispatched p
          ∧ toasts w' = toasts w ++ [error_toast w "Image size should be less than 1MB"]
      | accepted =>
          ImageUploadTagged.dispatched p'
          = ImageUploadTagged.dispatched p
            ++ [fileSelect file (Some (ImageUploadTagged.modalType p))]
          ∧ toasts w' = toasts w
      end.
Proof.
  split_and!; [done|done|apply handleFile_size_then_type|].
  intros file p w. unfold ImageUploadTagged.validateAndProcessFile, type_then_size,
    is_image. cbn -[startsWith Z.ltb].
  destruct (negb (startsWith "image/" (f_type file))); [done|].
  destruct (ImageUploadTagged.maxSize p <? f_size file); [done|].
  unfold ImageUploadTagged.revoke_preview. cbn -[startsWith Z.ltb].
  by destruct (ImageUploadTagged.previewUrl p).
Qed.

(** Claim C7 as stated fails on the first picker: a 2 MiB text file under the
    default limit is answered with the size error, not the type error. *)
Lemma picker_checks_size_first : ¬ dispatches_by type_then_size.
Proof.
  intros H.
  specialize (H {| f_name := "notes.txt"; f_type := "text/plain"; f_size := 2097152 |}
                (ImageUpload.mount None ImageUpload.default_maxSize)).
  vm_compute in H. discriminate H.
Qed.

(** * Changing the page *)

Lemma change_any (C : PageChange) :
  (∀ p st w, ∃ q st',
     c_change C p st w = (st', sent (RSelect q) w)
     ∧ p_currentPage (c_paged C) st' = p
     ∧ q_range q = Some ((p - 1) * itemsPerPage, p * itemsPerPage - 1)) →
  changes_to_any_page C.
Proof.
  intros H p st w. destruct (H p st w) as (q & st' & Hrun & Hp & Hq).
  split; [by rewrite Hrun|]. exists q. split; [|done].
  apply issued_app. by rewrite Hrun.
Qed.

Ltac any_page :=
  let p := fresh "p" in let st := fresh "st" in let w := fresh "w" in
  apply change_any; intros p st w; simpl;
  unfold Colors.handlePageChange, Brands.handlePageChange,
    Categories.handlePageChange, Subcategories.handlePageChange,
    Audiences.handlePageChange, Sizes.handlePageChange,
    Colors.fetchColors, Brands.fetchBrands, Audiences.fetchAudiences,
    Categories.fetchCategories, Subcategories.loadSubcategories, Sizes.fetchSizes;
  run; unfold await_select;
  destruct (outage w (clock w));
  [|match goal with
    | |- context [run_select (db w) ?q] => destruct (r_error (run_select (db w) q))
    end];
  (eexists _, _; split_and!; [reflexivity|done|reflexivity]).

Lemma page_changes_any : Forall changes_to_any_page page_changes.
Proof. each; any_page. Qed.

Lemma pager_click_idle b st w :
  Sellers.pager_rendered st = false ∨ Sellers.pager_disabled b st = true →
  Sellers.pager_click b st w = (st, w).
Proof.
  intros [H|H]; unfold Sellers.pager_click; rewrite H; [done|].
  by rewrite andb_false_r.
Qed.

Lemma loadSellers_currentPage st w :
  Sellers.currentPage (Sellers.loadSellers st w).1 = Sellers.currentPage st.
Proof.
  pose proof paged_screens_sound as H. unfold paged_screens in H.
  do 6 apply Forall_inv_tail in H. apply Forall_inv in H.
  apply (H st w).
Qed.

Lemma pager_click_in_range b st w :
  1 ≤ Sellers.currentPage st ≤ Sellers.totalPages st →
  1 ≤ Sellers.currentPage (Sellers.pager_click b st w).1 ≤ Sellers.totalPages st.
Proof.
  intros Hr. unfold Sellers.pager_click, Sellers.pager_rendered, Sellers.pager_disabled.
  destruct (1 <? Sellers.totalPages st); simpl; [|done].
  destruct b.
  - destruct (Z.eqb_spec (Sellers.currentPage st) 1); simpl; [done|].
    rewrite loadSellers_currentPage. simpl. lia.
  - destruct (Z.eqb_spec (Sellers.currentPage st) (Sellers.totalPages st)); simpl;
      [done|].
    rewrite loadSellers_currentPage. simpl. lia.
Qed.

(** Claim C8, as the code has it.  The page-change handler of the paged entity
    screens checks no bounds: whatever page it is given becomes the current
    page and the slice of that page is requested.  The bounds are kept by
    the pager: on the sellers screen [Previous] is disabled on page 1 and
    [Next] on the last page, a click on a disabled or unrendered button
    sends nothing and changes nothing, and from a page within
    1..totalPages a click leads to a page within that range. *)
Theorem page_change_bounds :
  Forall changes_to_any_page page_changes
  ∧ (∀ st, Sellers.pager_disabled Sellers.Previous st = true
           ↔ Sellers.currentPage st = 1)
  ∧ (∀ st, Sellers.pager_disabled Sellers.Next st = true
           ↔ Sellers.currentPage st = Sellers.totalPages st)
  ∧ (∀ b st w,
       Sellers.pager_rendered st = false ∨ Sellers.pager_disabled b st = true →
       Sellers.pager_click b st w = (st, w))
  ∧ (∀ b st w,
       1 ≤ Sellers.currentPage st ≤ Sellers.totalPages st →
       1 ≤ Sellers.currentPage (Sellers.pager_click b st w).1 ≤ Sellers.totalPages st).
Proof.
  split_and!.
  - apply page_changes_any.
  - intros st. simpl. apply Z.eqb_eq.
  - intros st. simpl. apply Z.eqb_eq.
  - apply pager_click_idle.
  - apply pager_click_in_range.
Qed.

(** Claim C8 as stated fails on the colors screen: page 0 is taken, and a
    request goes out. *)
Lemma page_zero_is_taken : ¬ page_change_guarded Colors.totalPages Colors.handlePageChange.
Proof.
  intros H. specialize (H 0 Colors.init (quiet ∅)).
  assert (Colors.currentPage (Colors.handlePageChange 0 Colors.init (quiet ∅)).1 = 0)
    as H0 by reflexivity.
  rewrite H in H0; [discriminate H0|]. left. lia.
Qed.

Lemma page_change_bounds_witness :
  Sellers.pager_click Sellers.Previous Sellers.init (quiet ∅)
  = (Sellers.init, quiet ∅).
Proof.
  apply (proj1 (proj2 (proj2 (proj2 page_change_bounds)))). left. reflexivity.
Defined.

(** * The colors scenario *)

Lemma red_added_table :
  ∃ r, table (db red_added.2) "colors" = [r]
       ∧ cell r "name" = VStr "Red"
       ∧ cell r "hex_code" = VStr "#FF0000"
       ∧ cell r "category" = color_category_val primary
       ∧ cell r "is_deleted" = VBool false.
Proof. eexists. split_and!; reflexivity. Qed.

Lemma red_is_taken st :
  trim (Colors.name (Colors.newColor st)) = "Red" →
  ∃ r, filter (λ r, in_scope (a_key color_adding st) r = true)
         (table (db red_added.2) "colors") = [r].
Proof. intros Hname. simpl. rewrite Hname. eexists. reflexivity. Qed.

(** Claim C1, as the code has it.  On the colors screen the name check looks at
    the name alone: the form has no category, and a stored color gets the
    column default [primary].  After Red is added to an empty table, every
    further add under the name Red whose form is valid, whatever its hex
    code, is turned down with "A color with this name already exists" and
    sends no insert.  The table constraint by itself is on name and
    category: it would refuse a second Red in [primary] and admit one in
    [pastel]. *)
Theorem color_name_scope :
  (∃ r, table (db red_added.2) "colors" = [r]
        ∧ cell r "name" = VStr "Red"
        ∧ cell r "hex_code" = VStr "#FF0000"
        ∧ cell r "category" = color_category_val primary
        ∧ cell r "is_deleted" = VBool false)
  ∧ (∀ st,
       trim (Colors.name (Colors.newColor st)) = "Red" →
       a_valid color_adding st = true →
       let st' := (Colors.handleAddColor st red_added.2).1 in
       let w' := (Colors.handleAddColor st red_added.2).2 in
       st' = st
       ∧ db w' = db red_added.2
       ∧ (∃ q, issued (Colors.handleAddColor st) red_added.2
               = [(clock red_added.2, RSingle q)])
       ∧ toasts w' = toasts red_added.2
                     ++ [error_toast red_added.2 "A color with this name already exists"])
  ∧ (∀ id t hex c,
       violates_unique "colors" (table (db red_added.2) "colors")
         (new_row "colors" id t
            {[ "name" := VStr "Red"; "hex_code" := VStr hex;
               "category" := color_category_val c ]})
       = bool_decide (c = primary)).
Proof.
  split_and!.
  - apply red_added_table.
  - intros st Hname Hvalid. destruct (red_is_taken st Hname) as [r Hr].
    pose proof checked_adds_reject as H. apply Forall_inv in H.
    apply (H st red_added.2 r Hvalid); [reflexivity|exact Hr].
  - intros id t hex c. by destruct c.
Qed.

Lemma color_name_scope_witness :
  (Colors.handleAddColor (color_form "Red" "#AA0000" red_added.1) red_added.2).1
  = color_form "Red" "#AA0000" red_added.1.
Proof.
  apply (proj1 (proj2 color_name_scope)); reflexivity.
Defined.

(** Claim C1 as stated fails in its last step: with Red stored, a third add
    under the name Red is turned down like the second -- the form cannot
    even say which category is meant. *)
Lemma third_red_is_turned_down :
  let second := Colors.handleAddColor (color_form "Red" "#AA0000" red_added.1)
                  red_added.2 in
  let third := Colors.handleAddColor (color_form "Red" "#FFB6C1" second.1) second.2 in
  length (table (db third.2) "colors") = 1%nat
  ∧ Forall (λ e, ¬ is_insert e) (issued (Colors.handleAddColor
                                   (color_form "Red" "#FFB6C1" second.1)) second.2)
  ∧ last (toast_message <$> toasts third.2)
    = Some "A color with this name already exists".
Proof.
  split_and!; [reflexivity| |reflexivity].
  vm_compute. repeat constructor. intros (? & ? & [=]).
Qed.

(** * Where the screens differ from one another *)

(** Claim C4, as the code has it.  On the color, brand, category, subcategory,
    audience and size screens: when the form is valid, the backend answers
    and exactly one row that is not soft-deleted carries the trimmed name
    within the scope the pre-check reads (the name alone; for a
    subcategory also its category id; for a size also its category), the
    add raises the "already exists" toast, sends the pre-check and no
    insert, and leaves screen and tables as they were. *)
Theorem add_rejects_taken_name : Forall rejects_duplicate checked_adds.
Proof. apply checked_adds_reject. Qed.

Lemma add_rejects_taken_name_witness :
  db (Brands.handleAddBrand
        (Brands.set_newBrand {| Brands.name := " Nike "; Brands.description := "";
                                Brands.logo_url := "" |} Brands.init)
        (quiet {[ "brands" := [nike] ]})).2
  = {[ "brands" := [nike] ]}.
Proof.
  pose proof add_rejects_taken_name as H. apply Forall_inv_tail, Forall_inv in H.
  refine (proj1 (proj2
            (H (Brands.set_newBrand
                  {| Brands.name := " Nike "; Brands.description := "";
                     Brands.logo_url := "" |} Brands.init)
               (quiet {[ "brands" := [nike] ]}) nike _ _ _)));
    reflexivity.
Defined.

(** Claim C4 as stated fails on the earlier brands screen, which checks
    nothing: with Nike stored, adding Nike sends an insert straight away. *)
Lemma legacy_brand_add_checks_nothing : ¬ rejects_duplicate legacy_brand_adding.
Proof.
  intros H.
  pose (st := BrandsLegacy.set_newBrand
                {| BrandsLegacy.name := "Nike"; BrandsLegacy.description := "";
                   BrandsLegacy.logo_url := "" |} BrandsLegacy.init).
  assert ((snd <$> issued (BrandsLegacy.handleAddBrand st)
                     (quiet {[ "brands" := [nike] ]}))
          = [RInsert "brands" (BrandsLegacy.add_fields st "");
             RSelect BrandsLegacy.loadBrands_query]) as Hsent by reflexivity.
  destruct (H st (quiet {[ "brands" := [nike] ]}) nike) as (_ & _ & [q Hq] & _);
    [reflexivity..|].
  simpl in Hq. rewrite Hq in Hsent. discriminate Hsent.
Qed.

Lemma edit_refreshes_updated_at_witness :
  Categories.edit_fields {[ "id" := VStr "1"; "name" := VStr "Shoes" ]} 1
    !! "updated_at" = Some (VTime 1).
Proof.
  pose proof edit_refreshes_updated_at as H.
  do 3 apply Forall_inv_tail in H. apply Forall_inv in H.
  apply (H (Categories.set_selectedCategory
              (Some {[ "id" := VStr "1"; "name" := VStr "Shoes" ]}) Categories.init)
           (quiet ∅) 1 "categories" _ [FEq "id" (VStr "1")]).
  vm_compute. right. left.
Defined.

(** Claim C5 as stated fails on the sellers screen: the update of an edit
    carries the name, the gender and the age, and no [updated_at]. *)
Lemma seller_edit_leaves_updated_at : ¬ stamps_updates seller_editing.
Proof.
  intros H.
  specialize (H (Sellers.set_formData
                   {| Sellers.id := Some "7"; Sellers.email := "a@b.c";
                      Sellers.name := "Ann"; Sellers.gender := "other";
                      Sellers.age := 30 |} Sellers.init)
                (quiet ∅) 0 "users"
                {[ "name" := VStr "Ann"; "gender" := VStr "other"; "age" := VNum 30 ]}
                [FEq "id" (VStr "7")]).
  assert (({[ "name" := VStr "Ann"; "gender" := VStr "other"; "age" := VNum 30 ]}
             : Row) !! "updated_at" = None) as Hnone by reflexivity.
  rewrite H in Hnone; [discriminate Hnone|]. vm_compute. left.
Qed.

(** Claim C6 as stated fails on the colors screen: two primary colors come
    back newest first, against their display order. *)
Lemma colors_ignore_display_order :
  ¬ shows_in_order by_category_then_display_order color_listing.
Proof.
  intros H.
  pose (black := color_row "1" "Black" primary 1 10).
  pose (white := color_row "2" "White" primary 2 20).
  assert (Colors.fetchColors Colors.init (quiet {[ "colors" := [black; white] ]})
          = (Colors.set_totalPages 1 (Colors.set_colors [white; black]
               (Colors.set_loading false Colors.init)),
             sent (RSelect (Colors.fetchColors_query Colors.init))
               (quiet {[ "colors" := [black; white] ]})))
    as Hrun by (vm_compute; reflexivity).
  specialize (H Colors.init (quiet {[ "colors" := [black; white] ]})).
  simpl in H. rewrite Hrun in H. destruct H as [[_ Hs]|[Hf _]].
  - simpl in Hs. apply Sorted_inv in Hs as [_ Hhd]. apply HdRel_inv in Hhd.
    vm_compute in Hhd. by apply Hhd.
  - by apply Hf.
Qed.

Lemma soft_delete_keeps_the_row_witness :
  length (table (db (Colors.handleDeleteColor (λ _, true) "1" Colors.init
                       (quiet {[ "colors" := [color_row "1" "Black" primary 1 10] ]})).2)
            "colors") = 1%nat.
Proof.
  pose proof soft_delete_keeps_the_row as H. apply Forall_inv in H.
  refine (proj1 (proj2 (proj2 (proj2 (proj2
            (H (λ _, true) "1" Colors.init
               (quiet {[ "colors" := [color_row "1" "Black" primary 1 10] ]}) _ _))))));
    reflexivity.
Defined.

Lemma hex_code_validation_witness :
  stops_early Colors.handleAddColor (color_form "Olive" "#GGGGGG" Colors.init)
    (quiet ∅).
Proof.
  apply (proj1 (proj2 (proj2 (proj2 (proj2 (proj2 (proj2 hex_code_validation))))))).
  reflexivity.
Defined.


(** The pre-check asks for a single row, and the backend answers a request
    for a single row with the same PGRST116 whether no row or several rows
    match.  With Red stored in two categories the check passes, the insert
    is sent, and it is the table constraint that turns it down. *)
Example two_reds_pass_the_name_check :
  let w := quiet {[ "colors" := [color_row "1" "Red" primary 1 10;
                                 color_row "2" "Red" pastel 1 20] ]} in
  let run := Colors.handleAddColor (color_form "Red" "#FF0000" Colors.init) w in
  (snd <$> issued (Colors.handleAddColor (color_form "Red" "#FF0000" Colors.init)) w)
  = [RSingle (Colors.add_precheck (color_form "Red" "#FF0000" Colors.init));
     RInsert "colors" (Colors.add_fields (color_form "Red" "#FF0000" Colors.init))]
  ∧ (toast_message <$> toasts run.2)
    = ["Failed to add color: Unknown error occurred"]
  ∧ length (table (db run.2) "colors") = 2%nat.
Proof. split_and!; reflexivity. Qed.

(** The sellers screen adds without any name check either: the invite goes
    out first, then the two inserts. *)
Example seller_add_checks_nothing :
  let st := Sellers.set_formData
              {| Sellers.id := None; Sellers.email := "ann@example.com";
                 Sellers.name := "Ann"; Sellers.gender := "female";
                 Sellers.age := 30 |} Sellers.init in
  let w := quiet {[ "users" := [ {[ "id" := VStr "9"; "name" := VStr "Ann";
                                    "user_type" := VStr "seller";
                                    "is_deleted" := VBool false ]} ] ]} in
  length (table (db (Sellers.handleAddSeller st w).2) "users") = 2%nat
  ∧ Sellers.error (Sellers.handleAddSeller st w).1 = None.
Proof. split; reflexivity. Qed.

(** * Paging through a list *)

Lemma run_select_in_range d q lo hi :
  q_range q = Some (lo, hi) → 0 ≤ lo ≤ hi →
  lo ≤ Z.of_nat (length (matching d q)) →
  r_error (run_select d q) = None.
Proof.
  intros Hr Hlo Hlen. unfold run_select. rewrite Hr, length_ordered.
  destruct (lo <? 0) eqn:H1; [lia|]. destruct (hi <? lo) eqn:H2; [lia|]. simpl.
  destruct (Z.of_nat _ <? lo) eqn:H3; [lia|]. rewrite andb_false_r. done.
Qed.

(** The page a ranged query cuts out of the list of a query with the same
    filters and order. *)
Lemma select_page d q q0 p :
  q_select q = None → q_head q = false →
  q_range q = Some ((p - 1) * itemsPerPage, p * itemsPerPage - 1) →
  (∀ d, ordered d q = ordered d q0) →
  1 ≤ p → (p - 1) * itemsPerPage ≤ Z.of_nat (length (ordered d q0)) →
  r_error (run_select d q) = None
  ∧ default [] (r_data (run_select d q))
    = take 10 (drop (Z.to_nat ((p - 1) * itemsPerPage)) (ordered d q0)).
Proof.
  intros Hs Hh Hr Ho Hp Hlen. unfold itemsPerPage in *.
  assert (r_error (run_select d q) = None) as He.
  { apply (run_select_in_range _ _ _ _ Hr); [lia|].
    by rewrite <- length_ordered, Ho. }
  split; [done|]. rewrite select_rows by done. unfold page_of, slice.
  rewrite Hr, Ho. f_equal. lia.
Qed.

Ltac same_list :=
  intros; unfold Colors.fetchColors_query, Brands.fetchBrands_query,
    Audiences.fetchAudiences_query, Categories.fetchCategories_query,
    Subcategories.loadSubcategories_query, Sizes.fetchSizes_query;
  simpl; first [done | by destruct (truthy _)].

Ltac page_stepping shape :=
  let p := fresh "p" in let st := fresh "st" in let w := fresh "w" in
  let Hs := fresh "Hs" in let Hh := fresh "Hh" in let Ho := fresh "Ho" in
  let Hr := fresh "Hr" in let q := fresh "q" in let He := fresh "He" in
  let Hp := fresh "Hp" in let Hlen := fresh "Hlen" in
  intros p st w; simpl;
  unfold Colors.handlePageChange, Brands.handlePageChange, Audiences.handlePageChange,
    Categories.handlePageChange, Subcategories.handlePageChange, Sizes.handlePageChange,
    Colors.fetchColors, Brands.fetchBrands, Audiences.fetchAudiences,
    Categories.fetchCategories, Subcategories.loadSubcategories, Sizes.fetchSizes;
  run; unfold await_select;
  match goal with
  | |- context [run_select (db w) (?f ?s)] =>
      destruct (shape s) as (Hs & Hh & _);
      assert (∀ d, ordered d (f s) = ordered d (f st)) as Ho by same_list;
      assert (q_range (f s) = Some ((p - 1) * itemsPerPage, p * itemsPerPage - 1))
        as Hr by same_list;
      generalize dependent (f s); intros q Hs Hh Ho Hr
  end;
  destruct (outage w (clock w)); [by simpl|];
  destruct (r_error (run_select (db w) q)) eqn:He; simpl;
  (split_and!; try done); intros _ Hp Hlen;
  [ destruct (select_page (db w) q _ p Hs Hh Hr Ho Hp Hlen) as [? _]; congruence
  | by destruct (select_page (db w) q _ p Hs Hh Hr Ho Hp Hlen) as [_ ->] ].

Lemma page_changes_step : Forall page_step page_changes.
Proof.
  each.
  - page_stepping colors_query_shape.
  - page_stepping brands_query_shape.
  - page_stepping categories_query_shape.
  - page_stepping subcategories_query_shape.
  - page_stepping audiences_query_shape.
  - page_stepping sizes_query_shape.
Qed.

(** Cutting a list into runs of [k] and gluing them back. *)
Lemma concat_runs {A} (k : nat) (l : list A) n :
  (0 < k)%nat → (length l ≤ n * k)%nat →
  concat ((λ i, take k (drop (i * k) l)) <$> seq 0 n) = l.
Proof.
  intros Hk. revert l. induction n as [|n IH]; intros l Hl.
  - destruct l; [done|simpl in Hl; lia].
  - simpl. transitivity (take k l ++ drop k l); [|apply take_drop]. f_equal.
    rewrite <- (IH (drop k l)) by (rewrite length_drop; lia).
    rewrite <- fmap_S_seq, <- list_fmap_compose. f_equal.
    apply list_fmap_ext. intros _ i _. simpl. by rewrite drop_drop.
Qed.

Lemma ceil_div_covers (a : Z) : 0 ≤ a →
  a ≤ ceil_div a itemsPerPage * itemsPerPage
  ∧ (ceil_div a itemsPerPage - 1) * itemsPerPage ≤ a
  ∧ 0 ≤ ceil_div a itemsPerPage.
Proof.
  intros Ha. unfold ceil_div, itemsPerPage.
  pose proof (Z.div_mod (- a) 10). pose proof (Z.mod_pos_bound (- a) 10). lia.
Qed.

Lemma browse_pages (C : PageChange) : page_step C → ∀ ps st w,
  (∀ t, outage w t = false) →
  let L := p_listing (c_paged C) in
  let rows := ordered (db w) (l_query L st) in
  Forall (λ p, 1 ≤ p ∧ (p - 1) * itemsPerPage ≤ Z.of_nat (length rows)) ps →
  browse C ps st w
  = (λ p, take 10 (drop (Z.to_nat ((p - 1) * itemsPerPage)) rows)) <$> ps.
Proof.
  intros Hstep ps. induction ps as [|p ps IH]; intros st w Hout L rows Hps; [done|].
  apply Forall_cons in Hps as [[Hp Hlen] Hps]. simpl.
  destruct (Hstep p st w) as (Hdb & Ho & Hord & Hrows).
  f_equal; [by apply Hrows|].
  rewrite IH.
  - rewrite Hdb, Hord. done.
  - intros t. by rewrite Ho.
  - by rewrite Hdb, Hord.
Qed.

(** ** The order of a list without ties *)

Lemma ascii_compare_trans a b c :
  Ascii.compare a b = Lt → Ascii.compare b c = Lt → Ascii.compare a c = Lt.
Proof. unfold Ascii.compare. rewrite !N.compare_lt_iff. lia. Qed.

Lemma string_compare_trans s1 : ∀ s2 s3,
  String.compare s1 s2 = Lt → String.compare s2 s3 = Lt → String.compare s1 s3 = Lt.
Proof.
  induction s1 as [|a s1 IH]; intros [|b s2] [|c s3]; simpl; try done.
  destruct (Ascii.compare a b) eqn:Hab; try done;
    destruct (Ascii.compare b c) eqn:Hbc; try done.
  - apply Ascii.compare_eq_iff in Hab, Hbc. subst.
    replace (Ascii.compare c c) with Eq; [apply IH|].
    symmetry. unfold Ascii.compare. apply N.compare_refl.
  - apply Ascii.compare_eq_iff in Hab. subst. by rewrite Hbc.
  - apply Ascii.compare_eq_iff in Hbc. subst. by rewrite Hab.
  - by rewrite (ascii_compare_trans a b c).
Qed.

Lemma bool_compare_trans a b c :
  Bool.compare a b = Lt → Bool.compare b c = Lt → Bool.compare a c = Lt.
Proof. by destruct a, b, c. Qed.

Lemma val_compare_eq a b : val_compare a b = Eq → a = b.
Proof.
  destruct a, b; simpl; try done; intros H; f_equal.
  - by destruct b, b0.
  - by apply Z.compare_eq_iff.
  - by apply String.compare_eq_iff.
  - by apply Z.compare_eq_iff.
  - by apply Nat.compare_eq_iff.
Qed.

Lemma val_compare_refl a : val_compare a a = Eq.
Proof. pose proof (val_compare_antisym a a). by destruct (val_compare a a). Qed.

Lemma val_compare_trans a b c :
  val_compare a b = Lt → val_compare b c = Lt → val_compare a c = Lt.
Proof.
  destruct a, b, c; simpl; try done.
  - apply bool_compare_trans.
  - rewrite !Z.compare_lt_iff. lia.
  - apply string_compare_trans.
  - rewrite !Z.compare_lt_iff. lia.
  - rewrite !Nat.compare_lt_iff. lia.
Qed.

Lemma col_compare_eq spec r1 r2 :
  col_compare spec r1 r2 = Eq → cell r1 spec.1 = cell r2 spec.1.
Proof.
  unfold col_compare. destruct spec.2; intros H%val_compare_eq; done.
Qed.

Lemma col_compare_trans spec r1 r2 r3 :
  col_compare spec r1 r2 = Lt → col_compare spec r2 r3 = Lt →
  col_compare spec r1 r3 = Lt.
Proof.
  unfold col_compare. destruct spec.2; [apply val_compare_trans|].
  intros H1 H2. by apply (val_compare_trans _ (cell r2 spec.1)).
Qed.

Lemma order_compare_trans specs r1 r2 r3 :
  order_compare specs r1 r2 ≠ Gt → order_compare specs r2 r3 ≠ Gt →
  order_compare specs r1 r3 ≠ Gt.
Proof.
  induction specs as [|spec specs IH]; [done|]. simpl.
  destruct (col_compare spec r1 r2) eqn:H12; [|clear IH|done];
    (destruct (col_compare spec r2 r3) eqn:H23; [| |done]).
  - apply col_compare_eq in H12, H23.
    replace (col_compare spec r1 r3) with Eq; [apply IH|].
    unfold col_compare. rewrite H12, H23.
    by destruct spec.2; rewrite val_compare_refl.
  - intros _ _. apply col_compare_eq in H12.
    unfold col_compare in *. rewrite H12. by rewrite H23.
  - intros _ _. apply col_compare_eq in H23.
    unfold col_compare in *. rewrite <- H23. by rewrite H12.
  - intros _ _. by rewrite (col_compare_trans spec r1 r2 r3).
Qed.

Lemma order_le_trans specs : Transitive (order_le specs).
Proof. intros r1 r2 r3. apply order_compare_trans. Qed.

Lemma untied_apart specs rows r1 r2 :
  untied specs rows = true → r1 ∈ rows → r2 ∈ rows →
  order_compare specs r1 r2 = Eq → r1 = r2.
Proof.
  induction rows as [|r rest IH]; simpl; intros Hu H1 H2 He.
  { by apply elem_of_nil in H1. }
  apply andb_true_iff in Hu as [Hr Hrest]. rewrite forallb_forall in Hr.
  apply elem_of_cons in H1 as [->|H1]; apply elem_of_cons in H2 as [->|H2];
    [done| | |by apply IH].
  - apply list_elem_of_In, Hr in H2. rewrite bool_decide_eq_true_2 in H2; done.
  - apply list_elem_of_In, Hr in H1.
    rewrite bool_decide_eq_true_2 in H1; [done|].
    by rewrite order_compare_antisym, He.
Qed.

(** Without ties the sort keys leave one order only. *)
Lemma untied_one_order specs rows l :
  untied specs rows = true → l ≡ₚ rows → Sorted (order_le specs) l →
  l = merge_sort (order_le specs) rows.
Proof.
  intros Hu Hp Hs.
  apply (Sorted_unique_strong (order_le specs) (Transitive0 := order_le_trans specs)).
  - intros x1 x2 H1 H2 Hle Hge.
    rewrite Hp in H1. rewrite merge_sort_Permutation in H2.
    apply (untied_apart specs rows); [done..|].
    unfold order_le in *. rewrite (order_compare_antisym specs x1 x2) in Hge.
    by destruct (order_compare specs x1 x2).
  - done.
  - apply (Sorted_merge_sort _ (Total0 := order_le_total _)).
  - by rewrite merge_sort_Permutation.
Qed.

Lemma page_step_cover (C : PageChange) : page_step C → pages_cover C.
Proof.
  intros Hstep st w Hout L q Hu rows shown. subst shown.
  split; [intros l; by apply untied_one_order|].
  destruct (ceil_div_covers (Z.of_nat (length rows))) as (Hhi & Hlo & Hn); [lia|].
  set (n := ceil_div _ _) in *.
  rewrite browse_pages; [|done..|].
  - split.
    + unfold page_numbers. rewrite <- list_fmap_compose.
      etrans; [|apply (concat_runs 10 rows (Z.to_nat n)); unfold itemsPerPage in *; lia].
      f_equal. apply list_fmap_ext. intros _ i _. simpl. do 2 f_equal.
      unfold itemsPerPage. lia.
    + apply Forall_fmap, Forall_forall. intros p _. simpl. rewrite length_take. lia.
  - unfold page_numbers. apply Forall_fmap, Forall_forall. intros i Hi.
    apply elem_of_seq in Hi. simpl. change (ordered _ _) with rows.
    unfold itemsPerPage in *. lia.
Qed.

(** Property X1.  On the color, brand, category, subcategory, audience and
    size screens, with a backend that answers and a current list (the rows
    that are not soft-deleted and match the search) in which no two rows
    tie on the sort keys: the sort keys leave the list one order only, and
    going through the pages from 1 to the last, one page change after the
    other, shows every row of the list exactly once and in that order, at
    most ten rows a page. *)
Theorem paging_shows_every_row_once : Forall pages_cover page_changes.
Proof.
  eapply Forall_impl; [apply page_changes_step|]. apply page_step_cover.
Qed.

(** Instantiating a statement at a closed input: each hypothesis is
    settled by evaluation. *)
Ltac settle :=
  first [ intros; vm_compute; reflexivity
        | intros;
          match goal with
          | Hd : _ = _ |- False => vm_compute in Hd; discriminate Hd
          end
        | by repeat constructor
        | by vm_compute ].

Ltac evaluate H :=
  cbv zeta in H;
  cbn [l_state l_table l_rows l_query l_load l_failed l_delete
       p_listing p_init p_currentPage p_totalPages p_counted
       a_state a_table a_add a_valid a_key a_message
       c_paged c_change
       color_listing brand_listing audience_listing category_listing
       subcategory_listing size_listing seller_listing legacy_brand_listing
       color_paged brand_paged audience_paged category_paged subcategory_paged
       size_paged seller_paged
       color_adding brand_adding audience_adding category_adding
       subcategory_adding size_adding] in H;
  repeat match type of H with
         | ?P → _ =>
             let Hp := fresh in
             assert P as Hp by settle; specialize (H Hp); clear Hp
         end.

Lemma paging_shows_every_row_once_witness :
  let C := {| c_paged := color_paged; c_change := Colors.handlePageChange |} in
  let w := quiet {[ "colors" := swatches 11 ]} in
  let q := l_query (p_listing (c_paged C)) Colors.init in
  let rows := ordered (db w) q in
  untied (q_order q) (matching (db w) q) = true
  ∧ length rows = 11%nat
  ∧ concat (browse C (page_numbers (ceil_div (Z.of_nat (length rows)) itemsPerPage))
              Colors.init w)
    = rows.
Proof.
  intros C w q rows. pose proof paging_shows_every_row_once as H.
  apply Forall_cons in H as [H _]. specialize (H Colors.init w).
  cbv zeta in H.
  assert (∀ t, outage w t = false) as Ho by reflexivity.
  assert (untied (q_order q) (matching (db w) q) = true) as Hu
    by (vm_compute; reflexivity).
  split; [exact Hu|]. split; [vm_compute; reflexivity|].
  exact (proj1 (proj2 (H Ho Hu))).
Defined.

(** * Searching by name *)

Lemma app_nil (t : string) : "" +:+ t = t.
Proof. done. Qed.

Lemma app_cons c (s t : string) : String c s +:+ t = String c (s +:+ t).
Proof. done. Qed.

Lemma ilike_percent_all s : ilike_match "%" s = true.
Proof.
  induction s as [|c s IH]; [done|].
  change (ilike_match "%" (String c s))
    with (ilike_match "" (String c s) || ilike_match "%" s).
  by rewrite IH, orb_true_r.
Qed.

(** A pattern that starts with [%] matches when the rest matches some
    tail of the string. *)
Lemma ilike_percent pat s :
  ilike_match (String "%" pat) s = true
  ↔ ∃ pre t, s = pre +:+ t ∧ ilike_match pat t = true.
Proof.
  induction s as [|c s IH].
  - simpl. rewrite orb_false_r. split.
    + intros H. by exists "", "".
    + intros (pre & t & Heq & H). destruct pre; [|done].
      rewrite app_nil in Heq. by subst t.
  - change (ilike_match (String "%" pat) (String c s))
      with (ilike_match pat (String c s) || ilike_match (String "%" pat) s).
    rewrite orb_true_iff, IH. split.
    + intros [H|(pre & t & -> & H)].
      * by exists "", (String c s).
      * by exists (String c pre), t.
    + intros (pre & t & Heq & H). destruct pre as [|c' pre].
      * left. rewrite app_nil in Heq. by subst t.
      * right. rewrite app_cons in Heq. injection Heq as -> ->. by exists pre, t.
Qed.

(** A plain text followed by [%] matches the strings that start with the
    text, letter case ignored. *)
Lemma ilike_plain_prefix v t :
  plain v = true →
  ilike_match (v +:+ "%") t = true
  ↔ ∃ mid post, t = mid +:+ post ∧ lower_case mid = lower_case v.
Proof.
  revert t. induction v as [|c v IH]; intros t Hv.
  - rewrite app_nil, ilike_percent_all. split; [|done]. intros _. by exists "", t.
  - simpl in Hv. apply andb_true_iff in Hv as [Hc Hv].
    apply negb_true_iff in Hc. rewrite !orb_false_iff in Hc.
    destruct Hc as [[[Hc1 Hc2] _] _].
    rewrite app_cons. simpl. rewrite Hc1, Hc2. simpl. destruct t as [|d t].
    + split; [done|]. intros (mid & post & Heq & Hl).
      destruct mid; [done|]. done.
    + rewrite andb_true_iff, IH by done. split.
      * intros [Hcd (mid & post & -> & Hl)]. exists (String d mid), post.
        split; [done|]. simpl. apply Ascii.eqb_eq in Hcd. by rewrite Hl, Hcd.
      * intros (mid & post & Heq & Hl). destruct mid as [|d' mid]; [done|].
        rewrite app_cons in Heq. simpl in Hl. injection Heq as -> ->.
        injection Hl as Hd Hl.
        split; [apply Ascii.eqb_eq; done|]. by exists mid, post.
Qed.

(** The pattern of a search: [%] on both sides of a plain text. *)
Lemma ilike_search v s :
  plain v = true →
  ilike_match ("%" +:+ v +:+ "%") s = true ↔ occurs_in v s.
Proof.
  intros Hv. change ("%" +:+ v +:+ "%") with (String "%" (v +:+ "%")).
  rewrite ilike_percent. unfold occurs_in. split.
  - intros (pre & t & -> & H). apply ilike_plain_prefix in H as (mid & post & -> & Hl); [|done].
    by exists pre, mid, post.
  - intros (pre & mid & post & -> & Hl). exists pre, (mid +:+ post).
    split; [done|]. apply ilike_plain_prefix; [done|]. by exists mid, post.
Qed.

Lemma matches_search d v r :
  plain v = true →
  matches d [FEq "is_deleted" (VBool false); FIlike "name" ("%" +:+ v +:+ "%")] r = true
  ↔ cell r "is_deleted" = VBool false
    ∧ ∃ s, r !! "name" = Some (VStr s) ∧ occurs_in v s.
Proof.
  intros Hv. unfold matches. cbn [forallb holds]. rewrite !andb_true_r, andb_true_iff.
  rewrite bool_decide_eq_true. apply and_iff_compat_l.
  destruct (r !! "name") as [[| | |s| |]|]; try (split; [done|by intros (? & ? & _)]).
  rewrite ilike_search by done. split; [by exists s|]. by intros (? & [= <-] & ?).
Qed.

(** The first page of a search, as the backend cuts it. *)
Lemma search_page d tbl v q :
  plain v = true → q_from q = tbl →
  q_filters q = [FEq "is_deleted" (VBool false); FIlike "name" ("%" +:+ v +:+ "%")] →
  q_range q = Some (0, 9) →
  Forall (found_by d tbl v) (page_of d q)
  ∧ ((length (page_of d q) < 10)%nat → ∀ r, found_by d tbl v r → r ∈ page_of d q).
Proof.
  intros Hv Hfrom Hf Hr.
  assert (∀ r, r ∈ ordered d q ↔ found_by d tbl v r) as Hall.
  { intros r. rewrite elem_of_ordered, elem_of_matching, Hf, Hfrom, matches_search by done.
    unfold found_by, active_in. tauto. }
  unfold page_of, slice. rewrite Hr. simpl. split.
  - apply Forall_forall. intros r Hin. apply Hall.
    eapply elem_of_sublist; [exact Hin|apply sublist_take].
  - intros Hlen r Hfound. rewrite length_take in Hlen.
    rewrite take_ge by lia. by apply Hall.
Qed.

Ltac searching shape :=
  let v := fresh "v" in let st := fresh "st" in let w := fresh "w" in
  let Hne := fresh "Hne" in let Hv := fresh "Hv" in let q := fresh "q" in
  let Hs := fresh "Hs" in let Hh := fresh "Hh" in let Hf := fresh "Hf" in
  let Hr := fresh "Hr" in let He := fresh "He" in let Hfrom := fresh "Hfrom" in
  intros v st w Hne Hv; simpl;
  unfold Colors.handleSearch, Brands.handleSearch, Audiences.handleSearch,
    Categories.handleSearch, Subcategories.handleSearch,
    Colors.fetchColors, Brands.fetchBrands, Audiences.fetchAudiences,
    Categories.fetchCategories, Subcategories.loadSubcategories;
  run; unfold await_select;
  match goal with
  | |- context [run_select (db w) (?f ?s)] =>
      destruct (shape s) as (Hs & Hh & _ & Hfrom & _);
      assert (q_filters (f s)
              = [FEq "is_deleted" (VBool false); FIlike "name" ("%" +:+ v +:+ "%")])
        as Hf by (unfold f; simpl; by destruct v);
      assert (q_range (f s) = Some (0, 9)) as Hr by same_list;
      generalize dependent (f s); intros q Hs Hh Hfrom Hf Hr
  end;
  unfold issued;
  destruct (outage w (clock w));
  [simpl; rewrite drop_app_length; split_and!; [done|by eexists|by intros []]|];
  destruct (r_error (run_select (db w) q)) eqn:He; simpl; rewrite drop_app_length;
  (split_and!; [done|by eexists|]);
  [by intros []|];
  intros _; rewrite (select_rows _ _ Hs Hh He);
  by apply search_page.

(** Property X2.  On the color, brand, category, subcategory and audience screens,
    a search for a non-empty text without pattern characters goes back to
    page 1 and sends one query, for rows 0 to 9.  When that load succeeds,
    every row shown is stored, not soft-deleted, and has a name in which the
    text occurs, letter case ignored; and when fewer than ten rows are
    shown, every such row of the table is among them. *)
Theorem search_shows_matching_rows : Forall search_finds name_searches.
Proof.
  each.
  - searching colors_query_shape.
  - searching brands_query_shape.
  - searching categories_query_shape.
  - searching subcategories_query_shape.
  - searching audiences_query_shape.
Qed.

Lemma search_shows_matching_rows_witness :
  let S := {| s_paged := color_paged; s_search := Colors.handleSearch |} in
  let w := quiet {[ "colors" := [red] ]} in
  plain "re" = true
  ∧ p_currentPage (s_paged S) (s_search S "re" Colors.init w).1 = 1
  ∧ Colors.colors (Colors.handleSearch "re" Colors.init w).1 = [red].
Proof.
  intros S w. pose proof search_shows_matching_rows as H.
  apply Forall_inv in H. specialize (H "re" Colors.init w). evaluate H.
  split_and!; [reflexivity|exact (proj1 H)|settle].
Defined.

(** * Adding under a name that is free *)

Ltac load_quietly :=
  let st := fresh "st" in let w := fresh "w" in
  intros st w;
  unfold Colors.fetchColors, Brands.fetchBrands, Audiences.fetchAudiences,
    Categories.fetchCategories, Subcategories.loadSubcategories, Sizes.fetchSizes;
  run; unfold await_select;
  destruct (outage w (clock w)); [simpl; eauto using is_select_1|];
  match goal with
  | |- context [run_select (db w) ?q] =>
      destruct (r_error (run_select (db w) q)); simpl; eauto using is_select_1
  end.

Lemma colors_load_quiet : quiet_load Colors.fetchColors.
Proof. load_quietly. Qed.
Lemma brands_load_quiet : quiet_load Brands.fetchBrands.
Proof. load_quietly. Qed.
Lemma categories_load_quiet : quiet_load Categories.fetchCategories.
Proof. load_quietly. Qed.
Lemma subcategories_load_quiet : quiet_load Subcategories.loadSubcategories.
Proof. load_quietly. Qed.
Lemma audiences_load_quiet : quiet_load Audiences.fetchAudiences.
Proof. load_quietly. Qed.
Lemma sizes_load_quiet : quiet_load Sizes.fetchSizes.
Proof. load_quietly. Qed.

Lemma storings_load_quiet : Forall (λ T, quiet_load (t_load T)) storings.
Proof.
  each; auto using colors_load_quiet, brands_load_quiet, categories_load_quiet,
    subcategories_load_quiet, audiences_load_quiet, sizes_load_quiet.
Qed.

(** No row in scope: the pre-check comes back empty-handed. *)
Lemma none_in_scope d q key :
  filter (λ r, in_scope key r = true) (table d (q_from q)) = [] →
  q_filters q = key_filters key →
  Forall (λ kv, kv.2 ≠ VNull) key →
  run_single d q = {| s_data := None; s_error := Some not_single_error |}.
Proof.
  intros Hnone Hq Hk. unfold run_single, ordered, matching.
  rewrite (list_filter_iff _ (λ r, in_scope key r = true)).
  - by rewrite Hnone.
  - intros r0. by rewrite Hq, matches_key.
Qed.

Lemma stored_run (T : Storing) st w :
  quiet_load (t_load T) →
  a_add (t_adding T) st w = t_load T (t_reset T st) (stored_world T st w) →
  in_scope (a_key (t_adding T) st) (stored_row T st w) = true →
  cell (stored_row T st w) "id" = VStr (pretty (next_id w)) →
  let A := t_adding T in
  let new := stored_row T st w in
  let w' := (a_add A st w).2 in
  in_scope (a_key A st) new = true
  ∧ cell new "id" = VStr (pretty (next_id w))
  ∧ db w' = <[a_table A := table (db w) (a_table A) ++ [new]]> (db w)
  ∧ (∃ reads, issued (a_add A st) w
              = (clock w, RSingle (t_precheck T st))
                :: (clock w + 1, RInsert (a_table A) (t_fields T st)) :: reads
              ∧ Forall is_select reads)
  ∧ toasts w' = toasts w ++ [success_toast w (t_added T)]
  ∧ a_add A st w = t_load T (t_reset T st) (stored_world T st w).
Proof.
  intros Hload Hrun Hscope Hid. simpl.
  destruct (Hload (t_reset T st) (stored_world T st w)) as (Hdb & Ht & reads & Hlog & Hr).
  split_and!; [done|done|by rewrite Hrun, Hdb|..|by rewrite Hrun, Ht|done].
  exists reads. split; [|done]. apply issued_app. rewrite Hrun, Hlog. simpl.
  by rewrite <- !app_assoc.
Qed.

Ltac carries_key :=
  unfold in_scope; simpl;
  rewrite ?andb_true_iff; split_and!;
  try (apply bool_decide_eq_true_2; try by destruct (Sizes.category _)); done.

Ltac storing load_quiet :=
  let st := fresh "st" in let w := fresh "w" in let A := fresh "A" in
  let new := fresh "new" in
  let Hv := fresh "Hv" in let Ho := fresh "Ho" in let Ho1 := fresh "Ho1" in
  let Hnone := fresh "Hnone" in let Huniq := fresh "Huniq" in
  intros st w A new Hv Ho Ho1 Hnone Huniq; apply stored_run;
  [ apply load_quiet
  | simpl in *;
    unfold Colors.handleAddColor, Brands.handleAddBrand, Audiences.handleAddAudience,
      Categories.handleAddCategory, Subcategories.handleAddSubcategory,
      Sizes.handleAddSize;
    repeat (apply andb_true_iff in Hv as [Hv ?]);
    repeat match goal with H : _ = true |- _ => rewrite H end; simpl;
    run; unfold await_single; rewrite Ho;
    (erewrite none_in_scope;
       [|exact Hnone|reflexivity
        |repeat constructor; try done; by destruct (Sizes.category _)]);
    simpl; unfold await_insert; simpl; rewrite Ho1; unfold run_insert; simpl;
    subst new; unfold stored_row in Huniq; simpl in Huniq; rewrite Huniq;
    reflexivity
  | carries_key
  | reflexivity ].

Local Opaque violates_unique.

Lemma storings_store : Forall stores_the_row storings.
Proof.
  each.
  - storing colors_load_quiet.
  - storing brands_load_quiet.
  - storing categories_load_quiet.
  - storing subcategories_load_quiet.
  - storing audiences_load_quiet.
  - storing sizes_load_quiet.
Qed.

Local Transparent violates_unique.

Ltac keeps_counter :=
  let st := fresh "st" in let w := fresh "w" in
  intros st w;
  cbn [t_load color_storing brand_storing category_storing subcategory_storing
       audience_storing size_storing];
  unfold Colors.fetchColors, Brands.fetchBrands, Audiences.fetchAudiences,
    Categories.fetchCategories, Subcategories.loadSubcategories, Sizes.fetchSizes;
  run; unfold await_select;
  destruct (outage w (clock w)); [done|];
  match goal with
  | |- context [run_select (db w) ?q] =>
      by destruct (r_error (run_select (db w) q))
  end.

Lemma storings_load_counter : Forall (λ T, load_keeps_counter (t_load T)) storings.
Proof. each; keeps_counter. Qed.

Lemma id_issued_spec counter r :
  id_issued counter r = true ↔ ∃ n, (n < counter)%nat ∧ cell r "id" = VStr (pretty n).
Proof.
  unfold id_issued. rewrite existsb_exists. split.
  - intros (n & Hn & He). apply list_elem_of_In, elem_of_seq in Hn.
    apply bool_decide_eq_true_1 in He. exists n. split; [lia|done].
  - intros (n & Hn & He). exists n. split.
    + apply list_elem_of_In, elem_of_seq. lia.
    + by apply bool_decide_eq_true_2.
Qed.

Lemma id_issued_later counter r : id_issued counter r = true → id_issued (S counter) r = true.
Proof.
  rewrite !id_issued_spec. intros (n & Hn & He). exists n. split; [lia|done].
Qed.

Lemma fresh_id (T : Storing) :
  stores_the_row T → load_keeps_counter (t_load T) → stores_under_a_fresh_id T.
Proof.
  intros Hstore Hload st w A new Hv Ho Ho1 Hnone Huniq Hids w'.
  destruct (Hstore st w Hv Ho Ho1 Hnone Huniq) as (_ & Hid & Hdb & _ & _ & Hrun).
  fold A new w' in Hid, Hdb, Hrun.
  assert (next_id w' = S (next_id w)) as Hnext.
  { unfold w'. rewrite Hrun, Hload. reflexivity. }
  rewrite forallb_forall in Hids. split_and!; [|done|].
  - apply Forall_forall. intros r Hr Heq.
    apply list_elem_of_In, Hids, id_issued_spec in Hr as (n & Hn & He).
    rewrite Hid, He in Heq. injection Heq as Heq. apply (inj pretty) in Heq. lia.
  - rewrite Hdb, table_insert, Hnext, forallb_app. apply andb_true_iff. split.
    + apply forallb_forall. intros r Hr. by apply id_issued_later, Hids.
    + simpl. rewrite andb_true_r. apply id_issued_spec. exists (next_id w).
      split; [lia|done].
Qed.

(** Property X3.  On the color, brand, category, subcategory, audience and
    size screens: when the form is valid, the backend answers, no row that
    is not soft-deleted is in scope of the form's key, and no stored row,
    soft-deleted or not, shares a unique key with the new one, the add
    stores exactly one new row after the rows of the table -- carrying the
    key, not soft-deleted, under the id the backend's counter issues -- and
    changes nothing else.  It sends the pre-check, the insert and then only
    reads, raises the one success toast, and ends as a reload from the
    closed, emptied form.  When in addition every id stored in the table
    was issued by the counter earlier, the id of the new row is fresh: no
    row of the table has it, and afterwards every id of the table was
    issued by the counter, which has moved on by one. *)
Theorem add_stores_the_row :
  Forall (λ T, stores_the_row T ∧ stores_under_a_fresh_id T) storings.
Proof.
  pose proof storings_store as Hs. pose proof storings_load_counter as Hl.
  apply Forall_and. split; [done|].
  eapply Forall_impl; [apply Forall_and; split; [exact Hs|exact Hl]|].
  intros T [? ?]. by apply fresh_id.
Qed.

Lemma add_stores_the_row_witness :
  let T := color_storing in
  let st := color_form "Blue" "#0000FF" Colors.init in
  let w := with_next_id 2 (quiet {[ "colors" := [red] ]}) in
  let w' := (a_add (t_adding T) st w).2 in
  forallb (id_issued (next_id w)) (table (db w) (a_table (t_adding T))) = true
  ∧ db w' = <["colors" := table (db w) "colors" ++ [stored_row T st w]]> (db w)
  ∧ Forall (λ r, cell r "id" ≠ cell (stored_row T st w) "id")
      (table (db w) (a_table (t_adding T)))
  ∧ forallb (id_issued (next_id w')) (table (db w') (a_table (t_adding T))) = true.
Proof.
  intros T st w w'. pose proof add_stores_the_row as H. apply Forall_cons in H as [[H1 H2] _].
  specialize (H1 st w). specialize (H2 st w). cbv zeta in H1, H2.
  assert (a_valid (t_adding T) st = true) as Hv by (vm_compute; reflexivity).
  assert (outage w (clock w) = false) as Ho by reflexivity.
  assert (outage w (clock w + 1) = false) as Ho1 by reflexivity.
  assert (filter (λ r, in_scope (a_key (t_adding T) st) r = true)
            (table (db w) (a_table (t_adding T))) = []) as Hnone
    by (vm_compute; reflexivity).
  assert (violates_unique (a_table (t_adding T)) (table (db w) (a_table (t_adding T)))
            (stored_row T st w) = false) as Hu by (vm_compute; reflexivity).
  assert (forallb (id_issued (next_id w)) (table (db w) (a_table (t_adding T))) = true)
    as Hi by (vm_compute; reflexivity).
  specialize (H1 Hv Ho Ho1 Hnone Hu). specialize (H2 Hv Ho Ho1 Hnone Hu Hi).
  split_and!; [exact Hi|exact (proj1 (proj2 (proj2 H1)))
              |exact (proj1 H2)|exact (proj2 (proj2 H2))].
Defined.

(** * What no handler does *)

Section preserving.
Context (R : relation World) `{!Reflexive R, !Transitive R}.

Lemma pres_ret {A} (a : A) : preserves R (mret a).
Proof. intros w. simpl. done. Qed.

Lemma pres_bind {A B} (m : M A) (k : A → M B) :
  preserves R m → (∀ a, preserves R (k a)) → preserves R (m ≫= k).
Proof.
  intros Hm Hk w. unfold mbind, M_bind. specialize (Hm w).
  destruct (m w) as [a w1]. simpl in *. etrans; [exact Hm|apply Hk].
Qed.

Lemma pres_now : preserves R now.
Proof. intros w. simpl. done. Qed.

Lemma pres_run_all {S} (hs : list (S → M S)) :
  Forall (λ h, ∀ st, preserves R (h st)) hs → ∀ st, preserves R (run_all hs st).
Proof.
  induction 1 as [|h hs Hh _ IH]; intros st; simpl.
  - apply pres_ret.
  - apply pres_bind; [apply Hh|apply IH].
Qed.

End preserving.

Global Instance row_kept_refl : Reflexive row_kept.
Proof. by intros r. Qed.

Global Instance row_kept_trans : Transitive row_kept.
Proof.
  intros r1 r2 r3 (Hi & Hc & Hd) (Hi' & Hc' & Hd').
  split_and!; [congruence..|auto].
Qed.

Global Instance history_kept_refl : Reflexive history_kept.
Proof.
  intros w tbl. exists (table (db w) tbl), []. rewrite app_nil_r.
  split; [done|]. by apply Forall2_same_length_lookup_2; [|intros ????? ; simplify_eq].
Qed.

Lemma Forall2_row_kept_refl (l : list Row) : Forall2 row_kept l l.
Proof. induction l; constructor; done. Qed.

Global Instance history_kept_trans : Transitive history_kept.
Proof.
  intros w1 w2 w3 H12 H23 tbl.
  destruct (H12 tbl) as (k1 & m1 & E1 & F1). destruct (H23 tbl) as (k2 & m2 & E2 & F2).
  rewrite E1 in F2. apply Forall2_app_inv_l in F2 as (k2a & k2b & Fa & Fb & ->).
  exists k2a, (k2b ++ m2). rewrite E2, <- app_assoc. split; [done|].
  by etrans.
Qed.

Lemma history_same w w' : db w' = db w → history_kept w w'.
Proof.
  intros Hdb tbl. exists (table (db w) tbl), []. rewrite app_nil_r, Hdb.
  split; [done|apply Forall2_row_kept_refl].
Qed.

Lemma table_insert_ne (d : DB) tbl tbl' rows :
  tbl ≠ tbl' → table (<[tbl := rows]> d) tbl' = table d tbl'.
Proof. intros. unfold table. by rewrite lookup_insert_ne. Qed.

Lemma history_select q : preserves history_kept (await_select q).
Proof. intros w. apply history_same. unfold await_select. by destruct (outage _ _). Qed.

Lemma history_single q : preserves history_kept (await_single q).
Proof. intros w. apply history_same. unfold await_single. by destruct (outage _ _). Qed.

Lemma history_toast ty msg : preserves history_kept (toast_add ty msg).
Proof. intros w. by apply history_same. Qed.

Lemma history_random : preserves history_kept random_base36.
Proof. intros w. by apply history_same. Qed.

Lemma history_upload bucket path file :
  preserves history_kept (await_upload bucket path file).
Proof.
  intros w. apply history_same. unfold await_upload.
  destruct (outage _ _); [done|]. by case_bool_decide.
Qed.

Lemma history_invite email : preserves history_kept (await_invite email).
Proof.
  intros w. apply history_same. unfold await_invite.
  destruct (outage _ _); [done|]. by destruct (auth_rejects _ _).
Qed.

(** An insert puts its row after the rows of the table. *)
Lemma history_insert tbl fields : preserves history_kept (await_insert tbl fields).
Proof.
  intros w. unfold await_insert. destruct (outage _ _); [by apply history_same|].
  unfold run_insert. destruct (violates_unique _ _ _); [by apply history_same|].
  intros tbl'. simpl. destruct (decide (tbl = tbl')) as [<-|Hne].
  - rewrite table_insert. eexists _, _. split; [done|apply Forall2_row_kept_refl].
  - rewrite table_insert_ne by done. exists (table (db w) tbl'), [].
    rewrite app_nil_r. split; [done|apply Forall2_row_kept_refl].
Qed.

Lemma cell_union_absent (fields r : Row) col :
  fields !! col = None → cell (fields ∪ r) col = cell r col.
Proof. intros H. unfold cell. by rewrite lookup_union_r. Qed.

Lemma cell_union_present (fields r : Row) col v :
  fields !! col = Some v → cell (fields ∪ r) col = v.
Proof. intros H. unfold cell. by erewrite lookup_union_Some_l. Qed.

Lemma updated_kept d fields fs r :
  harmless fields → row_kept r (updated d fields fs r).
Proof.
  intros (Hi & Hc & Hd). unfold updated. destruct (matches d fs r); [|done].
  split_and!; [by apply cell_union_absent..|].
  destruct Hd as [Hd|Hd]; [by rewrite cell_union_absent|].
  intros _. by apply cell_union_present.
Qed.

Lemma history_update tbl fields fs :
  harmless fields → preserves history_kept (await_update tbl fields fs).
Proof.
  intros Hf w. unfold await_update. destruct (outage _ _); [by apply history_same|].
  unfold run_update. destruct (update_conflict _ _); [by apply history_same|].
  intros tbl'. simpl. destruct (decide (tbl = tbl')) as [<-|Hne].
  - rewrite table_insert. eexists _, []. rewrite app_nil_r. split; [done|].
    apply Forall2_fmap_r, Forall2_same_length_lookup_2; [done|].
    intros i r r' H1 H2. simplify_eq. by apply updated_kept.
  - rewrite table_insert_ne by done. exists (table (db w) tbl'), [].
    rewrite app_nil_r. split; [done|apply Forall2_row_kept_refl].
Qed.

Create HintDb screens discriminated.

#[global] Hint Unfold
  Colors.fetchColors Colors.handlePageChange Colors.handleSearch
  Colors.handleAddColor Colors.handleEditColor Colors.handleDeleteColor
  Colors.add_failed Colors.edit_failed
  Brands.fetchBrands Brands.handlePageChange Brands.handleSearch
  Brands.handleAddBrand Brands.handleEditBrand Brands.handleDeleteBrand
  Brands.add_failed Brands.edit_failed
  Categories.fetchCategories Categories.handlePageChange Categories.handleSearch
  Categories.handleAddCategory Categories.handleEditCategory
  Categories.handleDeleteCategory Categories.add_failed Categories.edit_failed
  Subcategories.loadCategories Subcategories.loadSubcategories
  Subcategories.handlePageChange Subcategories.handleSearch
  Subcategories.handleAddSubcategory Subcategories.handleEditSubcategory
  Subcategories.handleDeleteSubcategory Subcategories.add_failed
  Subcategories.edit_failed
  Audiences.fetchAudiences Audiences.handlePageChange Audiences.handleSearch
  Audiences.handleAddAudience Audiences.handleEditAudience
  Audiences.handleDeleteAudience Audiences.add_failed Audiences.edit_failed
  Sizes.fetchSizes Sizes.handlePageChange Sizes.handleSearch
  Sizes.handleAddSize Sizes.handleEditSize Sizes.handleDeleteSize
  Sizes.add_failed Sizes.edit_failed
  Sellers.loadSellers Sellers.handleAddSeller Sellers.handleEditSeller
  Sellers.handleDeleteSeller Sellers.add_failed Sellers.pager_click
  BrandsLegacy.loadBrands BrandsLegacy.uploadLogo BrandsLegacy.insert_brand
  BrandsLegacy.update_brand BrandsLegacy.handleAddBrand BrandsLegacy.handleEditBrand
  BrandsLegacy.handleDeleteBrand
  toast.success toast.error toast.info toast.warning : screens.

(** Walking through the body of a handler: [leaf] settles the requests. *)
Ltac walk leaf :=
  repeat
    lazymatch goal with
    | |- preserves _ (mret _) => refine (pres_ret _ _)
    | |- preserves _ now => refine (pres_now _)
    | |- preserves _ (_ ≫= _) => refine (pres_bind _ _ _ _ _); [|intros ?]
    | |- preserves _ (if ?b then _ else _) => destruct b
    | |- preserves _ (match ?x with _ => _ end) => destruct x
    | |- preserves _ _ =>
        first [leaf | progress autounfold with screens | progress cbv zeta]
    end.

Ltac harmless_update :=
  unfold harmless, Colors.edit_fields, Brands.edit_fields, BrandsLegacy.edit_fields,
    Categories.edit_fields, Subcategories.edit_fields, Audiences.edit_fields,
    Sizes.edit_fields, Sellers.edit_fields;
  split_and!; try (left + right); by simplify_map_eq.

(** Whatever every request keeps, every handler keeps. *)
Section every_handler.
Context (R : relation World) `{!Reflexive R, !Transitive R}.
Hypothesis keep_select : ∀ q, preserves R (await_select q).
Hypothesis keep_single : ∀ q, preserves R (await_single q).
Hypothesis keep_insert : ∀ tbl fields, preserves R (await_insert tbl fields).
Hypothesis keep_update : ∀ tbl fields fs,
  harmless fields → preserves R (await_update tbl fields fs).
Hypothesis keep_toast : ∀ ty msg, preserves R (toast_add ty msg).
Hypothesis keep_random : preserves R random_base36.
Hypothesis keep_upload : ∀ bucket path file, preserves R (await_upload bucket path file).
Hypothesis keep_invite : ∀ email, preserves R (await_invite email).

Lemma handlers_preserve : Forall (λ H, ∀ a st, preserves R (h_run H a st)) handlers.
Proof using All.
  each; intros a st; simpl;
    walk ltac:(first [ apply keep_select | apply keep_single | apply keep_insert
                     | apply keep_toast | apply keep_random | apply keep_upload
                     | apply keep_invite
                     | apply keep_update; harmless_update ]).
Qed.

End every_handler.

Lemma handlers_keep_history :
  Forall (λ H, ∀ a st, preserves history_kept (h_run H a st)) handlers.
Proof.
  apply handlers_preserve; try apply _;
    auto using history_select, history_single, history_insert, history_update,
      history_toast, history_random, history_upload, history_invite.
Qed.

Global Instance same_surroundings_refl : Reflexive same_surroundings.
Proof. by intros w. Qed.

Global Instance same_surroundings_trans : Transitive same_surroundings.
Proof. intros w1 w2 w3 (? & ? & ?) (? & ? & ?). split_and!; congruence. Qed.

Lemma handlers_keep_surroundings :
  Forall (λ H, ∀ a st, preserves same_surroundings (h_run H a st)) handlers.
Proof.
  apply handlers_preserve; try apply _; intros; intros w;
    unfold await_select, await_single, await_insert, await_update, await_upload,
      await_invite;
    repeat first [done | case_match | case_bool_decide].
Qed.

Lemma history_kept_lookup w w' tbl i r :
  history_kept w w' → table (db w) tbl !! i = Some r →
  ∃ r', table (db w') tbl !! i = Some r' ∧ row_kept r r'.
Proof.
  intros Hk Hi. destruct (Hk tbl) as (kept & more & -> & HF).
  destruct (Forall2_lookup_l _ _ _ _ _ HF Hi) as (r' & Hr' & Hkept).
  exists r'. split; [|done]. by apply lookup_app_l_Some.
Qed.

(** Property X7.  No handler of the eight entity screens (load, page change,
    search, add, edit, delete, the sellers' pager) ever loses a stored row:
    whatever the state of the screen and of the backend, every row of every
    table is still there afterwards at the same position, with the same id
    and the same creation time, and still soft-deleted if it was.  Nothing
    is removed, and nothing brings a soft-deleted row back. *)
Theorem no_handler_loses_a_row : Forall rows_survive handlers.
Proof.
  eapply Forall_impl; [apply handlers_keep_history|].
  intros H Hk a st w tbl i r Hi. eapply history_kept_lookup; [apply Hk|done].
Qed.

Lemma no_handler_loses_a_row_witness :
  let H := delete_handler Colors.handleDeleteColor in
  let w := quiet {[ "colors" := [red] ]} in
  table (db w) "colors" !! 0%nat = Some red
  ∧ ∃ r', table (db (h_run H (λ _, true, "1") Colors.init w).2) "colors" !! 0%nat
          = Some r' ∧ row_kept red r'.
Proof.
  intros H w. split; [reflexivity|].
  pose proof no_handler_loses_a_row as Hall.
  apply (Forall_lookup_1 _ _ 5 H) in Hall; [|reflexivity].
  apply Hall. reflexivity.
Defined.

(** * Adding a name again *)

Lemma checked_adds_storings : t_adding <$> storings = checked_adds.
Proof. reflexivity. Qed.

Lemma storings_reject : Forall (λ T, rejects_duplicate (t_adding T)) storings.
Proof.
  apply (proj1 (Forall_fmap t_adding rejects_duplicate storings)).
  rewrite checked_adds_storings. apply checked_adds_reject.
Qed.

Lemma filter_snoc_in {A} (P : A → Prop) `{!∀ x, Decision (P x)} (l : list A) x :
  filter P l = [] → P x → filter P (l ++ [x]) = [x].
Proof.
  intros Hl Hx. rewrite filter_app, Hl. simpl. rewrite filter_cons_True by done. done.
Qed.

Lemma store_then_reject (T : Storing) :
  stores_the_row T → rejects_duplicate (t_adding T) →
  (∀ st, preserves same_surroundings (a_add (t_adding T) st)) →
  second_add_rejected T.
Proof.
  intros Hstore Hrej Hsur st w. cbv zeta. intros Hv Hout Hnone Huniq.
  destruct (Hstore st w) as (Hscope & _ & Hdb & _); try done.
  destruct (Hsur st w) as (Ho & _).
  apply (Hrej st _ (stored_row T st w)); [done|..].
  - rewrite Ho. apply Hout.
  - rewrite Hdb, table_insert. by apply filter_snoc_in.
Qed.

Lemma storings_add_surroundings :
  Forall (λ T, ∀ st, preserves same_surroundings (a_add (t_adding T) st)) storings.
Proof.
  pose proof handlers_keep_surroundings as H. each; intros st.
  - exact (Forall_lookup_1 _ _ 3 _ H eq_refl () st).
  - exact (Forall_lookup_1 _ _ 9 _ H eq_refl () st).
  - exact (Forall_lookup_1 _ _ 15 _ H eq_refl () st).
  - exact (Forall_lookup_1 _ _ 22 _ H eq_refl () st).
  - exact (Forall_lookup_1 _ _ 28 _ H eq_refl () st).
  - exact (Forall_lookup_1 _ _ 34 _ H eq_refl () st).
Qed.

(** Property X4.  On the color, brand, category, subcategory, audience and size
    screens: once an add has stored its row, the name is taken.  With a
    backend that answers, a second add with the form filled in as before
    sends the pre-check and nothing else, raises the "already exists" toast
    and leaves the screen and the tables as they are. *)
Theorem added_name_is_taken : Forall second_add_rejected storings.
Proof.
  assert (Forall (λ T, stores_the_row T ∧ rejects_duplicate (t_adding T)
                       ∧ ∀ st, preserves same_surroundings (a_add (t_adding T) st))
                 storings) as H.
  { rewrite !Forall_and.
    auto using storings_store, storings_reject, storings_add_surroundings. }
  eapply Forall_impl; [exact H|]. intros T (? & ? & ?). by apply store_then_reject.
Qed.

Lemma delete_marks_intro (L : Listing) :
  delete_sound L → load_sound L →
  (∀ c id st, preserves same_surroundings (l_delete L c id st)) →
  delete_marks (l_table L) (l_delete L).
Proof.
  intros Hdel Hload Hsur confirm id st w Hc Ho. split; [|apply Hsur].
  destruct (Hdel confirm id st w Hc Ho) as (st2 & w2 & -> & Hdb & _).
  destruct (Hload st2 w2) as (-> & _). done.
Qed.

Lemma colors_delete_marks : delete_marks "colors" Colors.handleDeleteColor.
Proof.
  apply (delete_marks_intro color_listing).
  - exact (Forall_lookup_1 _ _ 0 _ listings_delete_sound eq_refl).
  - apply colors_load_sound.
  - intros c id st.
    exact (Forall_lookup_1 _ _ 5 _ handlers_keep_surroundings eq_refl (c, id) st).
Qed.

Lemma brands_delete_marks : delete_marks "brands" Brands.handleDeleteBrand.
Proof.
  apply (delete_marks_intro brand_listing).
  - exact (Forall_lookup_1 _ _ 1 _ listings_delete_sound eq_refl).
  - apply brands_load_sound.
  - intros c id st.
    exact (Forall_lookup_1 _ _ 11 _ handlers_keep_surroundings eq_refl (c, id) st).
Qed.

Lemma categories_delete_marks : delete_marks "categories" Categories.handleDeleteCategory.
Proof.
  apply (delete_marks_intro category_listing).
  - exact (Forall_lookup_1 _ _ 3 _ listings_delete_sound eq_refl).
  - apply categories_load_sound.
  - intros c id st.
    exact (Forall_lookup_1 _ _ 17 _ handlers_keep_surroundings eq_refl (c, id) st).
Qed.

Lemma subcategories_delete_marks :
  delete_marks "subcategories" Subcategories.handleDeleteSubcategory.
Proof.
  apply (delete_marks_intro subcategory_listing).
  - exact (Forall_lookup_1 _ _ 4 _ listings_delete_sound eq_refl).
  - apply subcategories_load_sound.
  - intros c id st.
    exact (Forall_lookup_1 _ _ 24 _ handlers_keep_surroundings eq_refl (c, id) st).
Qed.

Lemma audiences_delete_marks : delete_marks "audiences" Audiences.handleDeleteAudience.
Proof.
  apply (delete_marks_intro audience_listing).
  - exact (Forall_lookup_1 _ _ 5 _ listings_delete_sound eq_refl).
  - apply audiences_load_sound.
  - intros c id st.
    exact (Forall_lookup_1 _ _ 30 _ handlers_keep_surroundings eq_refl (c, id) st).
Qed.

Lemma sizes_delete_marks : delete_marks "sizes" Sizes.handleDeleteSize.
Proof.
  apply (delete_marks_intro size_listing).
  - exact (Forall_lookup_1 _ _ 6 _ listings_delete_sound eq_refl).
  - apply sizes_load_sound.
  - intros c id st.
    exact (Forall_lookup_1 _ _ 36 _ handlers_keep_surroundings eq_refl (c, id) st).
Qed.

Lemma filter_none {A} (P : A → Prop) `{!∀ x, Decision (P x)} (l : list A) :
  Forall (λ x, ¬ P x) l → filter P l = [].
Proof.
  induction 1 as [|x l Hx _ IH]; [done|]. by rewrite filter_cons_False.
Qed.

(** Once the one row in scope is soft-deleted, no row is in scope. *)
Lemma in_scope_mark_deleted key id r :
  in_scope key (mark_deleted id r) = true → in_scope key r = true.
Proof.
  unfold mark_deleted. case_bool_decide; [|done]. unfold in_scope.
  rewrite !andb_true_iff, !bool_decide_eq_true. intros [_ Hd].
  unfold cell in Hd. by rewrite lookup_insert in Hd.
Qed.

Lemma none_in_scope_after_delete key id (rows : list Row) r :
  filter (λ r, in_scope key r = true) rows = [r] → cell r "id" = VStr id →
  filter (λ r, in_scope key r = true) (mark_deleted id <$> rows) = [].
Proof.
  intros Hone Hid. apply filter_none.
  apply Forall_fmap, Forall_forall. intros r0 Hin Hs. simpl in Hs.
  assert (r0 ∈ filter (λ r, in_scope key r = true) rows) as Hf.
  { apply list_elem_of_filter. split; [by eapply in_scope_mark_deleted|done]. }
  rewrite Hone in Hf. apply list_elem_of_singleton in Hf. subst r0.
  unfold mark_deleted, in_scope in Hs. rewrite bool_decide_eq_true_2 in Hs by done.
  rewrite andb_true_iff, bool_decide_eq_true in Hs. destruct Hs as [_ Hd].
  unfold cell in Hd. by rewrite lookup_insert in Hd.
Qed.

Lemma violates_unique_free tbl rows r :
  unique_keys tbl = [] → violates_unique tbl rows r = false.
Proof. unfold violates_unique. by intros ->. Qed.

Lemma delete_then_store (Y : Cycle) :
  let T := y_storing Y in
  delete_marks (a_table (t_adding T)) (y_delete Y) → stores_the_row T →
  unique_keys (a_table (t_adding T)) = [] →
  deleted_name_free Y.
Proof.
  intros T Hdel Hstore Hfree confirm id st0 st w r. subst T. cbv zeta.
  intros Hc Hout Hv Hone Hid.
  destruct (Hdel confirm id st0 w Hc (Hout _)) as (Hdb & Ho & _).
  set (w1 := (y_delete Y confirm id st0 w).2) in *.
  destruct (Hstore st w1) as (Hscope & _ & Hdb2 & _ & Ht & _); try done.
  - rewrite Ho. apply Hout.
  - rewrite Ho. apply Hout.
  - rewrite Hdb, table_insert. by eapply none_in_scope_after_delete.
  - by apply violates_unique_free.
  - split_and!; [|done..]. rewrite Hdb2, Hdb, table_insert.
    apply insert_insert_eq.
Qed.

(** Property X6.  On the brand, category, subcategory and audience screens the name
    of a soft-deleted row is free again: once the one row in scope of the
    form's key is deleted, an add with that key stores its row after the
    rows of the table, not soft-deleted, and raises the success toast. *)
Theorem deleted_name_can_be_added_again : Forall deleted_name_free free_cycles.
Proof.
  pose proof storings_store as Hs. each.
  - apply delete_then_store; [apply brands_delete_marks| |done].
    exact (Forall_lookup_1 _ _ 1 _ Hs eq_refl).
  - apply delete_then_store; [apply categories_delete_marks| |done].
    exact (Forall_lookup_1 _ _ 2 _ Hs eq_refl).
  - apply delete_then_store; [apply subcategories_delete_marks| |done].
    exact (Forall_lookup_1 _ _ 3 _ Hs eq_refl).
  - apply delete_then_store; [apply audiences_delete_marks| |done].
    exact (Forall_lookup_1 _ _ 4 _ Hs eq_refl).
Qed.

Local Opaque violates_unique.

Ltac refusing :=
  let st := fresh "st" in let w := fresh "w" in
  let Hv := fresh "Hv" in let Ho := fresh "Ho" in let Ho1 := fresh "Ho1" in
  let Hnone := fresh "Hnone" in let Huniq := fresh "Huniq" in
  intros st w; cbv zeta; intros Hv Ho Ho1 Hnone Huniq;
  simpl in *;
  unfold Colors.handleAddColor, Sizes.handleAddSize;
  repeat (apply andb_true_iff in Hv as [Hv ?]);
  repeat match goal with H : _ = true |- _ => rewrite H end; simpl;
  run; unfold await_single; rewrite Ho;
  (erewrite none_in_scope;
     [|exact Hnone|reflexivity
      |repeat constructor; try done; by destruct (Sizes.category _)]);
  simpl; unfold await_insert; simpl; rewrite Ho1; unfold run_insert; simpl;
  unfold stored_row in Huniq; simpl in Huniq; rewrite Huniq;
  reflexivity.

Lemma constrained_refuse : Forall refuses_insert constrained_cycles.
Proof. each; refusing. Qed.

Local Transparent violates_unique.

(** On its key columns a new row does not depend on its id or on the time
    of the insert. *)
Lemma cell_new_row_key tbl cols c id t id' t' fields :
  cols ∈ unique_keys tbl → c ∈ cols →
  cell (new_row tbl id t fields) c = cell (new_row tbl id' t' fields) c.
Proof.
  intros Hk Hc. unfold new_row, cell.
  assert (∀ i n, base_defaults i n !! c = None) as Hb.
  { intros i n. unfold base_defaults.
    destruct (unique_keys_cols _ _ _ Hk Hc) as [->|[->| ->]]; by simplify_map_eq. }
  destruct ((fields ∪ column_defaults tbl) !! c) as [v|] eqn:Hl.
  - by rewrite !(lookup_union_Some_l _ _ _ _ Hl).
  - by rewrite !lookup_union_r, !Hb.
Qed.

Lemma forallb_agree {A} (f g : A → bool) (l : list A) :
  (∀ x, x ∈ l → f x = g x) → forallb f l = forallb g l.
Proof.
  induction l as [|x l IH]; intros H; [done|]. simpl.
  rewrite (H x), IH; [done| |set_solver]. intros y Hy. apply H. set_solver.
Qed.

Lemma collide_new_row tbl cols id t id' t' fields did r :
  cols ∈ unique_keys tbl →
  collide cols (new_row tbl id' t' fields) (mark_deleted did r)
  = collide cols (new_row tbl id t fields) r.
Proof.
  intros Hk. unfold collide. apply forallb_agree. intros c Hc.
  rewrite (cell_new_row_key tbl cols c id' t' id t) by done.
  pose proof (cell_mark_deleted_key tbl cols did r Hk) as Hm.
  apply list_elem_of_lookup in Hc as [i Hi].
  apply (f_equal (λ l, l !! i)) in Hm. rewrite !list_lookup_fmap, Hi in Hm.
  injection Hm as ->. done.
Qed.

Lemma violates_after_delete tbl (rows : list Row) r id t id' t' fields did :
  r ∈ rows →
  violates_unique tbl [r] (new_row tbl id t fields) = true →
  violates_unique tbl (mark_deleted did <$> rows) (new_row tbl id' t' fields) = true.
Proof.
  unfold violates_unique. rewrite !existsb_exists. intros Hin (cols & Hk & Hc).
  exists cols. split; [done|]. simpl in Hc. rewrite orb_false_r in Hc.
  apply existsb_exists. exists (mark_deleted did r). split.
  - apply list_elem_of_In, list_elem_of_fmap_2, Hin.
  - rewrite <- Hc. apply collide_new_row. by apply list_elem_of_In.
Qed.

Lemma delete_then_refuse (Y : Cycle) :
  let T := y_storing Y in
  delete_marks (a_table (t_adding T)) (y_delete Y) → refuses_insert Y →
  deleted_name_reserved Y.
Proof.
  intros T Hdel Hrun confirm id st0 st w r. subst T. cbv zeta.
  intros Hc Hout Hv Hone Hid Hclash.
  destruct (Hdel confirm id st0 w Hc (Hout _)) as (Hdb & Ho & _).
  set (w1 := (y_delete Y confirm id st0 w).2) in *.
  assert (r ∈ table (db w) (a_table (t_adding (y_storing Y)))) as Hin.
  { eapply (list_elem_of_filter (λ r, in_scope _ r = true)). rewrite Hone. set_solver. }
  unfold issued. rewrite (Hrun st w1); try done.
  - simpl. split_and!; try done. by rewrite <- app_assoc, drop_app_length.
  - rewrite Ho. apply Hout.
  - rewrite Ho. apply Hout.
  - rewrite Hdb, table_insert. by eapply none_in_scope_after_delete.
  - rewrite Hdb, table_insert. by eapply violates_after_delete.
Qed.

(** Property X5.  On the color and size screens, whose tables carry a unique
    constraint that does not look at the soft-delete flag, the name of a
    soft-deleted row stays reserved: once the one row in scope of the
    form's key is deleted, an add that would store a row with the same
    unique key (the same name in the default category [primary]; the same
    label in the same category) passes the pre-check, sends the insert, is
    refused by the backend, raises "Failed to add ...: Unknown error
    occurred" and stores nothing. *)
Theorem deleted_name_stays_reserved : Forall deleted_name_reserved constrained_cycles.
Proof.
  pose proof constrained_refuse as Hr. each.
  - apply delete_then_refuse; [apply colors_delete_marks|].
    exact (Forall_lookup_1 _ _ 0 _ Hr eq_refl).
  - apply delete_then_refuse; [apply sizes_delete_marks|].
    exact (Forall_lookup_1 _ _ 1 _ Hr eq_refl).
Qed.

Lemma added_name_is_taken_witness :
  let st := color_form "Red" "#FF0000" Colors.init in
  let w1 := (Colors.handleAddColor st (quiet ∅)).2 in
  toasts (Colors.handleAddColor st w1).2
  = toasts w1 ++ [error_toast w1 "A color with this name already exists"].
Proof.
  intros st w1. pose proof added_name_is_taken as H. apply Forall_cons in H as [H _].
  specialize (H st (quiet ∅)). cbn [t_adding color_storing] in H. evaluate H.
  exact (proj2 (proj2 (proj2 H))).
Defined.

Lemma deleted_name_stays_reserved_witness :
  let w := quiet {[ "colors" := [red] ]} in
  let w1 := (Colors.handleDeleteColor (λ _, true) "1" Colors.init w).2 in
  let st := color_form "Red" "#FF0000" Colors.init in
  db (Colors.handleAddColor st w1).2 = db w1
  ∧ toasts (Colors.handleAddColor st w1).2
    = toasts w1 ++ [error_toast w1 "Failed to add color: Unknown error occurred"].
Proof.
  intros w w1 st.
  pose proof deleted_name_stays_reserved as H. apply Forall_cons in H as [H _].
  specialize (H (λ _, true) "1" Colors.init st w red).
  cbn [y_storing y_delete y_refused t_adding t_precheck t_fields color_storing] in H.
  evaluate H.
  destruct H as (_ & Hdb & _ & Ht). split; [exact Hdb|exact Ht].
Defined.

Lemma deleted_name_can_be_added_again_witness :
  let w := quiet {[ "brands" := [puma] ]} in
  let w1 := (Brands.handleDeleteBrand (λ _, true) "1" Brands.init w).2 in
  let st := Brands.set_newBrand
              {| Brands.name := "Puma"; Brands.description := "";
                 Brands.logo_url := "" |} Brands.init in
  db (Brands.handleAddBrand st w1).2
  = <["brands" := (mark_deleted "1" <$> table (db w) "brands")
                  ++ [stored_row brand_storing st w1]]> (db w).
Proof.
  intros w w1 st.
  pose proof deleted_name_can_be_added_again as H. apply Forall_cons in H as [H _].
  specialize (H (λ _, true) "1" Brands.init st w puma).
  cbn [y_storing y_delete t_adding] in H. evaluate H. exact (proj1 H).
Defined.

(** * Editing *)

Lemma matches_rival d key sel r :
  sound_key key →
  matches d (key_filters key ++ [FNeq "id" (cell sel "id")]) r
  = in_scope key r && other_than sel r.
Proof.
  intros Hk. unfold matches. rewrite forallb_app.
  change (forallb _ (key_filters key)) with (matches d (key_filters key) r).
  rewrite matches_key by done. simpl. by rewrite andb_true_r.
Qed.

Lemma single_rival d q key sel r :
  filter (λ r, in_scope key r && other_than sel r = true) (table d (q_from q)) = [r] →
  q_filters q = key_filters key ++ [FNeq "id" (cell sel "id")] →
  sound_key key →
  run_single d q = {| s_data := Some (project (q_select q) r); s_error := None |}.
Proof.
  intros Hone Hq Hk. unfold run_single, ordered, matching.
  rewrite (list_filter_iff _ (λ r, in_scope key r && other_than sel r = true)).
  - by rewrite Hone.
  - intros r0. by rewrite Hq, matches_rival.
Qed.

Lemma no_rival d q key sel :
  filter (λ r, in_scope key r && other_than sel r = true) (table d (q_from q)) = [] →
  q_filters q = key_filters key ++ [FNeq "id" (cell sel "id")] →
  sound_key key →
  run_single d q = {| s_data := None; s_error := Some not_single_error |}.
Proof.
  intros Hone Hq Hk. unfold run_single, ordered, matching.
  rewrite (list_filter_iff _ (λ r, in_scope key r && other_than sel r = true)).
  - by rewrite Hone.
  - intros r0. by rewrite Hq, matches_rival.
Qed.

Ltac unfold_edit :=
  unfold Colors.handleEditColor, Brands.handleEditBrand, Categories.handleEditCategory,
    Subcategories.handleEditSubcategory, Audiences.handleEditAudience,
    Sizes.handleEditSize.

Ltac use_validity Hv :=
  repeat (apply andb_true_iff in Hv as [Hv ?]);
  repeat match goal with H : _ = true |- _ => rewrite H end.

Lemma rejected_edit (N : Renaming) st w sel :
  n_edit N st w = (st, (toast.error (n_taken N) (sent (RSingle (n_precheck N sel)) w)).2) →
  let st' := (n_edit N st w).1 in
  let w' := (n_edit N st w).2 in
  st' = st ∧ db w' = db w
  ∧ issued (n_edit N st) w = [(clock w, RSingle (n_precheck N sel))]
  ∧ toasts w' = toasts w ++ [error_toast w (n_taken N)].
Proof.
  intros Hrun. simpl. unfold issued. rewrite Hrun. simpl.
  split_and!; try done. by rewrite drop_app_length.
Qed.

Ltac rival_found :=
  let st := fresh "st" in let w := fresh "w" in let sel := fresh "sel" in
  let r := fresh "r" in
  let Hsel := fresh "Hsel" in let Hv := fresh "Hv" in let Hk := fresh "Hk" in
  let Ho := fresh "Ho" in let Hone := fresh "Hone" in
  intros st w sel r Hsel Hv Hk Ho Hone; apply (rejected_edit _ st w sel);
  simpl in *; unfold_edit; rewrite Hsel; use_validity Hv; simpl;
  run; unfold await_single; rewrite Ho;
  unfold rivals in Hone; simpl in Hone;
  (erewrite single_rival; [|exact Hone|reflexivity|exact Hk]);
  reflexivity.

Lemma renamings_reject : Forall edit_rejects_rival renamings.
Proof. each; rival_found. Qed.

Ltac invalid Hv :=
  apply stops_early_intro; simpl in *;
  unfold_edit;
  unfold Colors.handleAddColor, Brands.handleAddBrand, Audiences.handleAddAudience,
    Categories.handleAddCategory, Subcategories.handleAddSubcategory,
    Sizes.handleAddSize;
  repeat match goal with H : _ = Some _ |- _ => rewrite H end;
  repeat match goal with
         | |- context [negb ?c] => destruct c eqn:?; simpl; [|early]
         end;
  repeat match goal with E : _ = true |- _ => rewrite E in Hv end;
  done.

Lemma checked_adds_validate : Forall add_validates checked_adds.
Proof. each; intros st w Hv; invalid Hv. Qed.

Lemma renamings_validate : Forall edit_validates renamings.
Proof. each; intros st w sel Hsel Hv; invalid Hv. Qed.

Lemma run_update_accepted d tbl fields fs :
  (∀ e, run_update d tbl fields fs ≠ inr e) →
  run_update d tbl fields fs = inl (<[tbl := updated d fields fs <$> table d tbl]> d).
Proof.
  unfold run_update. destruct (update_conflict _ _); [|done].
  intros H. by destruct (H unique_violation).
Qed.

Lemma updated_by_id d sel fields r :
  updated d fields [FEq "id" (cell sel "id")] r = edited sel fields r.
Proof. unfold updated, edited, matches. simpl. by rewrite andb_true_r. Qed.

Lemma str_opt_str r c s : str_opt r c = Some s → str r c = s.
Proof.
  unfold str_opt, str. destruct (r !! c) as [[]|]; congruence.
Qed.

Lemma applied_edit (N : Renaming) st w sel :
  quiet_load (n_load N) →
  n_edit N st w = n_load N (n_reset N st) (edited_world N sel w) →
  n_fields N sel (clock w + 1) !! "updated_at" = Some (VTime (clock w + 1)) →
  let fields := n_fields N sel (clock w + 1) in
  let w' := (n_edit N st w).2 in
  db w' = <[n_table N := edited sel fields <$> table (db w) (n_table N)]> (db w)
  ∧ fields !! "updated_at" = Some (VTime (clock w + 1))
  ∧ (∃ reads, issued (n_edit N st) w
              = (clock w, RSingle (n_precheck N sel))
                :: (clock w + 1, RUpdate (n_table N) fields [FEq "id" (cell sel "id")])
                :: reads
              ∧ Forall is_select reads)
  ∧ toasts w' = toasts w ++ [success_toast w (n_updated N)].
Proof.
  intros Hload Hrun Hstamp. simpl.
  destruct (Hload (n_reset N st) (edited_world N sel w)) as (Hdb & Ht & reads & Hlog & Hr).
  split_and!; [|done| |by rewrite Hrun, Ht].
  - rewrite Hrun, Hdb. simpl. f_equal. apply list_fmap_ext. intros.
    apply updated_by_id.
  - exists reads. split; [|done]. apply issued_app. rewrite Hrun, Hlog. simpl.
    by rewrite <- !app_assoc.
Qed.

Ltac applying load_quiet :=
  let st := fresh "st" in let w := fresh "w" in let sel := fresh "sel" in
  let Hsel := fresh "Hsel" in let Hv := fresh "Hv" in let Hk := fresh "Hk" in
  let Hc := fresh "Hc" in
  let Ho := fresh "Ho" in let Ho1 := fresh "Ho1" in let Hnone := fresh "Hnone" in
  let Hacc := fresh "Hacc" in
  intros st w sel Hsel Hv Hk Hc Ho Ho1 Hnone; cbv zeta; intros Hacc;
  apply applied_edit;
  [ apply load_quiet
  | simpl in *; unfold_edit; rewrite Hsel; use_validity Hv; simpl;
    run; unfold await_single; rewrite Ho;
    unfold rivals in Hnone; simpl in Hnone;
    (erewrite no_rival; [|exact Hnone|reflexivity|exact Hk]);
    simpl; unfold await_update; simpl; rewrite Ho1;
    rewrite (run_update_accepted _ _ _ _ Hacc);
    reflexivity
  | unfold Colors.edit_fields, Brands.edit_fields, Categories.edit_fields,
      Subcategories.edit_fields, Audiences.edit_fields, Sizes.edit_fields;
    simpl; by simplify_map_eq ].

Lemma brands_apply : edit_applies brand_renaming.
Proof.
  intros st w sel Hsel Hv Hk Hc Ho Ho1 Hnone. cbv zeta. intros Hacc.
  apply applied_edit.
  - apply brands_load_quiet.
  - simpl in *. apply andb_true_iff in Hc as [Hd Hl].
    apply bool_decide_eq_true in Hd as [desc Hd], Hl as [logo Hl].
    rewrite (str_opt_str _ _ _ Hd), (str_opt_str _ _ _ Hl) in *.
    unfold Brands.handleEditBrand. rewrite Hsel, Hv. simpl.
    run. unfold await_single. rewrite Ho.
    unfold rivals in Hnone. simpl in Hnone.
    erewrite no_rival; [|exact Hnone|reflexivity|exact Hk].
    simpl. rewrite Hd, Hl. unfold await_update. simpl. rewrite Ho1.
    rewrite (run_update_accepted _ _ _ _ Hacc).
    unfold edited_world. simpl.
    by rewrite (str_opt_str _ _ _ Hd), (str_opt_str _ _ _ Hl).
  - unfold brand_renaming, Brands.edit_fields. simpl. by simplify_map_eq.
Qed.

Lemma renamings_apply : Forall edit_applies renamings.
Proof.
  each.
  - applying colors_load_quiet.
  - apply brands_apply.
  - applying categories_load_quiet.
  - applying subcategories_load_quiet.
  - applying audiences_load_quiet.
  - applying sizes_load_quiet.
Qed.

(** Property X8.  On the color, brand, category, subcategory, audience and size
    screens: when the edit form is valid, the backend answers, and exactly
    one other row that is not soft-deleted holds the form's key (the
    trimmed name; for a subcategory also the category id; for a size also
    the category), the edit raises the "already exists" toast, sends the
    pre-check and no update, and leaves the screen and the tables as they
    were. *)
Theorem edit_rejects_taken_name : Forall edit_rejects_rival renamings.
Proof. exact renamings_reject. Qed.

Lemma edit_rejects_taken_name_witness :
  let N := color_renaming in
  let sel := <["name" := VStr "Red"]> crimson in
  let w := quiet {[ "colors" := [red; crimson] ]} in
  rivals N sel (db w) = [red]
  ∧ db (n_edit N (selected_color sel) w).2 = db w
  ∧ toasts (n_edit N (selected_color sel) w).2
    = toasts w ++ [error_toast w (n_taken N)].
Proof.
  intros N sel w. split; [settle|].
  pose proof edit_rejects_taken_name as H. apply Forall_inv in H.
  specialize (H (selected_color sel) w sel red). evaluate H.
  exact (conj (proj1 (proj2 H)) (proj2 (proj2 (proj2 H)))).
Defined.

(** Property X9.  On the color, brand, category, subcategory, audience and size
    screens: when the edit form is valid, no other row that is not
    soft-deleted holds the form's key (the row itself does not count), the backend answers and accepts the update, the edit sends
    the pre-check and one update by id, stamped with the time it is sent.
    Every row with the id of the form's row takes the fields of the
    update and keeps its other columns; every other row and every other
    table is as before; the success toast is raised and the list
    reloaded. *)
Theorem edit_updates_the_row : Forall edit_applies renamings.
Proof. exact renamings_apply. Qed.

Lemma edit_updates_the_row_witness :
  let N := color_renaming in
  let sel := <["name" := VStr " Scarlet "]> crimson in
  let w := quiet {[ "colors" := [red; crimson] ]} in
  let fields := n_fields N sel (clock w + 1) in
  rivals N sel (db w) = []
  ∧ db (n_edit N (selected_color sel) w).2
    = <[n_table N := edited sel fields <$> table (db w) (n_table N)]> (db w).
Proof.
  intros N sel w fields. split; [settle|].
  pose proof edit_updates_the_row as H. apply Forall_inv in H.
  specialize (H (selected_color sel) w sel). evaluate H.
  exact (proj1 H).
Defined.

(** Property X10.  On the color, brand, category, subcategory, audience and size
    screens a form that is not valid never reaches the backend.  An add or an edit whose name (label) is empty or blank --
    or, for a color, whose hex code is empty, blank or malformed; for a
    subcategory, whose category is not chosen -- raises one error toast,
    sends nothing, stores nothing and leaves the screen as it was. *)
Theorem invalid_form_sends_nothing :
  Forall add_validates checked_adds ∧ Forall edit_validates renamings.
Proof. split; [exact checked_adds_validate|exact renamings_validate]. Qed.

Lemma invalid_form_sends_nothing_witness :
  let st := Brands.set_newBrand
              {| Brands.name := "   "; Brands.description := "";
                 Brands.logo_url := "" |} Brands.init in
  a_valid brand_adding st = false
  ∧ stops_early (a_add brand_adding) st (quiet ∅).
Proof.
  intros st. split; [reflexivity|].
  pose proof (proj1 invalid_form_sends_nothing) as H.
  apply Forall_inv_tail, Forall_inv in H. apply H. reflexivity.
Defined.

Lemma brands_incomplete : incomplete_edit_fails brand_renaming.
Proof.
  intros st w sel Hsel Hv Hk Hc Ho Hnone.
  assert (n_edit brand_renaming st w
          = (st, (toast.error (n_failed brand_renaming)
                    (sent (RSingle (n_precheck brand_renaming sel)) w)).2)) as Hrun.
  { simpl in *. unfold Brands.handleEditBrand. rewrite Hsel, Hv. simpl.
    run. unfold await_single. rewrite Ho.
    unfold rivals in Hnone. simpl in Hnone.
    erewrite no_rival; [|exact Hnone|reflexivity|exact Hk].
    simpl. apply andb_false_iff in Hc.
    destruct (str_opt sel "description") as [desc|] eqn:Hd;
      destruct (str_opt sel "logo_url") as [logo|] eqn:Hl; try done.
    destruct Hc as [Hc|Hc]; apply bool_decide_eq_false in Hc; destruct Hc; by eexists. }
  cbv zeta. unfold issued. rewrite Hrun. simpl.
  split_and!; try done. by rewrite drop_app_length.
Qed.

(** Property X11.  On the brands screen a brand whose description or logo URL is
    stored as null (or is missing) cannot be saved: with a valid name that
    no other brand holds and a backend that answers, the edit sends the
    pre-check, then fails with "Failed to update brand" -- no update is
    sent and nothing changes. *)
Theorem brand_without_description_cannot_be_saved : incomplete_edit_fails brand_renaming.
Proof. exact brands_incomplete. Qed.

Lemma brand_without_description_cannot_be_saved_witness :
  let N := brand_renaming in
  let w := quiet {[ "brands" := [puma] ]} in
  n_complete N puma = false
  ∧ issued (n_edit N (selected_brand puma)) w = [(clock w, RSingle (n_precheck N puma))]
  ∧ toasts (n_edit N (selected_brand puma) w).2
    = toasts w ++ [error_toast w (n_failed N)].
Proof.
  intros N w. split; [reflexivity|].
  pose proof (brand_without_description_cannot_be_saved (selected_brand puma) w puma) as H.
  evaluate H. exact (proj2 (proj2 H)).
Defined.

(** * The pickers over time *)

Lemma filter_ne_singleton (url : string) : filter (λ u, u ≠ url) [url] = [].
Proof. by rewrite filter_cons_False, filter_nil by (intros H; by apply H). Qed.

Lemma handleFile_tidy file p :
  holds_only (ImageUpload.previewUrl p) (ImageUpload.object_urls p) →
  holds_only (ImageUpload.previewUrl (ImageUpload.handleFile file p))
             (ImageUpload.object_urls (ImageUpload.handleFile file p)).
Proof.
  unfold holds_only, ImageUpload.handleFile. intros Hp.
  cbn -[startsWith Z.ltb]. destruct (_ <? _); [done|].
  destruct (negb _); [done|]. unfold ImageUpload.revoke_preview.
  cbn -[startsWith Z.ltb]. destruct (ImageUpload.previewUrl p) as [url|]; simpl.
  - by rewrite Hp, filter_ne_singleton.
  - by rewrite Hp.
Qed.

Lemma gesture_tidy g p :
  holds_only (ImageUpload.previewUrl p) (ImageUpload.object_urls p) →
  holds_only (ImageUpload.previewUrl (gesture g p))
             (ImageUpload.object_urls (gesture g p)).
Proof.
  intros Hp. destruct g as [files|files|]; simpl.
  - unfold ImageUpload.handleDrop.
    destruct files; [exact Hp|apply handleFile_tidy; exact Hp].
  - unfold ImageUpload.handleFileSelect.
    destruct files; [exact Hp|apply handleFile_tidy; exact Hp].
  - unfold ImageUpload.handleRemove, holds_only in *.
    destruct (ImageUpload.previewUrl p) as [url|] eqn:E; simpl.
    + by rewrite Hp, filter_ne_singleton.
    + by rewrite E.
Qed.

Lemma gestures_tidy gs p :
  holds_only (ImageUpload.previewUrl p) (ImageUpload.object_urls p) →
  holds_only (ImageUpload.previewUrl (gestures gs p))
             (ImageUpload.object_urls (gestures gs p)).
Proof.
  revert p. induction gs as [|g gs IH]; intros p Hp; [done|].
  simpl. by apply IH, gesture_tidy.
Qed.

Lemma onDestroy_releases p :
  holds_only (ImageUpload.previewUrl p) (ImageUpload.object_urls p) →
  ImageUpload.object_urls (ImageUpload.onDestroy p) = [].
Proof.
  unfold holds_only, ImageUpload.onDestroy, ImageUpload.revoke_preview. intros Hp.
  destruct (ImageUpload.previewUrl p) as [url|]; simpl; [|done].
  by rewrite Hp, filter_ne_singleton.
Qed.

Lemma tagged_file_tidy file p w :
  holds_only (ImageUploadTagged.previewUrl p) (ImageUploadTagged.object_urls p) →
  let p' := (ImageUploadTagged.validateAndProcessFile file p w).1 in
  holds_only (ImageUploadTagged.previewUrl p') (ImageUploadTagged.object_urls p').
Proof.
  unfold holds_only, ImageUploadTagged.validateAndProcessFile. intros Hp.
  cbn -[startsWith Z.ltb]. destruct (negb _); [done|].
  destruct (_ <? _); [done|]. unfold ImageUploadTagged.revoke_preview.
  cbn -[startsWith Z.ltb]. destruct (ImageUploadTagged.previewUrl p) as [url|]; simpl.
  - by rewrite Hp, filter_ne_singleton.
  - by rewrite Hp.
Qed.

Lemma tagged_gesture_tidy g p w :
  holds_only (ImageUploadTagged.previewUrl p) (ImageUploadTagged.object_urls p) →
  let p' := (tagged_gesture g p w).1 in
  holds_only (ImageUploadTagged.previewUrl p') (ImageUploadTagged.object_urls p').
Proof.
  intros Hp. destruct g as [files|files|]; simpl.
  - unfold ImageUploadTagged.handleDrop. cbv zeta.
    destruct (negb _); [exact Hp|].
    destruct files; [exact Hp|apply tagged_file_tidy; exact Hp].
  - unfold ImageUploadTagged.handleFileSelect.
    destruct files; [exact Hp|apply tagged_file_tidy; exact Hp].
  - unfold ImageUploadTagged.handleRemove, holds_only in *.
    destruct (ImageUploadTagged.previewUrl p) as [url|] eqn:E; simpl.
    + by rewrite Hp, filter_ne_singleton.
    + by rewrite E.
Qed.

Lemma tagged_gestures_tidy gs p w :
  holds_only (ImageUploadTagged.previewUrl p) (ImageUploadTagged.object_urls p) →
  let p' := (tagged_gestures gs p w).1 in
  holds_only (ImageUploadTagged.previewUrl p') (ImageUploadTagged.object_urls p').
Proof.
  revert p w. induction gs as [|g gs IH]; intros p w Hp; [done|].
  simpl. run. pose proof (tagged_gesture_tidy g p w Hp) as Hg.
  destruct (tagged_gesture g p w) as [p1 w1]. by apply IH.
Qed.

(** Property X12.  Neither image picker leaks an object URL.  From mounting on,
    whatever files are dropped or chosen and whenever the remove button is
    pressed, the only object URL a picker has created and not revoked is
    the one of its current preview; and once the component is destroyed,
    none is left. *)
Theorem pickers_release_their_urls :
  (∀ cur maxSize gs,
     let p := gestures gs (ImageUpload.mount cur maxSize) in
     holds_only (ImageUpload.previewUrl p) (ImageUpload.object_urls p)
     ∧ ImageUpload.object_urls (ImageUpload.onDestroy p) = [])
  ∧ (∀ cur maxSize tag dnd gs w,
       let p := (tagged_gestures gs (ImageUploadTagged.mount cur maxSize tag dnd) w).1 in
       holds_only (ImageUploadTagged.previewUrl p) (ImageUploadTagged.object_urls p)
       ∧ ImageUploadTagged.object_urls (ImageUploadTagged.onDestroy p) = []).
Proof.
  split.
  - intros cur maxSize gs p.
    assert (holds_only (ImageUpload.previewUrl p) (ImageUpload.object_urls p)) as Hp
      by by apply gestures_tidy.
    split; [done|by apply onDestroy_releases].
  - intros cur maxSize tag dnd gs w p.
    assert (holds_only (ImageUploadTagged.previewUrl p) (ImageUploadTagged.object_urls p))
      as Hp by by apply tagged_gestures_tidy.
    split; [done|]. unfold ImageUploadTagged.onDestroy, ImageUploadTagged.revoke_preview.
    unfold holds_only in Hp.
    destruct (ImageUploadTagged.previewUrl p) as [url|]; simpl; [|done].
    by rewrite Hp, filter_ne_singleton.
Qed.

(** * Telling the user *)

Lemma raises_ret {A} (a : A) : raises 0 (mret a).
Proof. intros w. exists []. by rewrite app_nil_r. Qed.

Lemma raises_bind {A B} n k t (m : M A) (f : A → M B) :
  raises n m → (∀ a, raises k (f a)) → (n + k = t)%nat → raises t (m ≫= f).
Proof.
  intros Hm Hf <- w. unfold mbind, M_bind. destruct (Hm w) as (l1 & H1 & <-).
  destruct (m w) as [a w1]. simpl in *. destruct (Hf a w1) as (l2 & H2 & <-).
  exists (l1 ++ l2). by rewrite H2, H1, <- app_assoc, length_app.
Qed.

Lemma raises_silent {A} (m : M A) : (∀ w, toasts (m w).2 = toasts w) → raises 0 m.
Proof. intros H w. exists []. by rewrite app_nil_r. Qed.

Lemma raises_now : raises 0 now.
Proof. by apply raises_silent. Qed.

Lemma raises_select q : raises 0 (await_select q).
Proof. apply raises_silent. intros w. unfold await_select. by destruct (outage _ _). Qed.

Lemma raises_single q : raises 0 (await_single q).
Proof. apply raises_silent. intros w. unfold await_single. by destruct (outage _ _). Qed.

Lemma raises_insert tbl fields : raises 0 (await_insert tbl fields).
Proof.
  apply raises_silent. intros w. unfold await_insert.
  destruct (outage _ _); [done|]. by destruct (run_insert _ _ _ _ _).
Qed.

Lemma raises_update tbl fields fs : raises 0 (await_update tbl fields fs).
Proof.
  apply raises_silent. intros w. unfold await_update.
  destruct (outage _ _); [done|]. by destruct (run_update _ _ _ _).
Qed.

Lemma raises_toast ty msg : raises 1 (toast_add ty msg).
Proof. intros w. by eexists [_]. Qed.

Ltac count :=
  lazymatch goal with
  | |- raises _ (mret _) => apply raises_ret
  | |- raises _ now => apply raises_now
  | |- raises _ (_ ≫= _) => eapply raises_bind; [count|intros ?; count|reflexivity]
  | |- raises _ (if ?b then _ else _) => destruct b; count
  | |- raises _ (match ?x with _ => _ end) => destruct x; count
  | |- raises _ _ =>
      first [ apply raises_select | apply raises_single | apply raises_insert
            | apply raises_update | apply raises_toast
            | progress autounfold with screens; count
            | progress cbv zeta; count ]
  end.

Ltac telling :=
  split_and!; simpl;
  [ intros st; count
  | intros st sel Hsel; autounfold with screens; rewrite Hsel; count
  | intros st w Hsel; autounfold with screens; by rewrite Hsel
  | intros confirm id st Hc; autounfold with screens; rewrite Hc; simpl; count
  | intros confirm id st w Hc; autounfold with screens; by rewrite Hc
  | intros st; count
  | intros p st; count
  | intros v st; count ].

(** Property X13.  On the color, brand, category, subcategory, audience and size
    screens the user is told once how an action went: whatever the state of
    the screen and whatever the backend does, an add, an edit of a selected
    row and a confirmed delete each raise exactly one toast.  An edit with
    no row selected and a delete the user declines do nothing at all; a
    load, a page change and a search raise no toast. *)
Theorem actions_tell_once : Forall tells_once screens.
Proof. each; telling. Qed.

Lemma actions_tell_once_witness :
  Colors.selectedColor (selected_color red) = Some red
  ∧ raises 1 (Colors.handleEditColor (selected_color red))
  ∧ raises 1 (Colors.handleDeleteColor (λ _, true) "1" Colors.init).
Proof.
  pose proof actions_tell_once as H. apply Forall_inv in H.
  destruct H as (_ & He & _ & Hd & _).
  split_and!;
    [ reflexivity
    | exact (He (selected_color red) red eq_refl)
    | exact (Hd (λ _, true) "1" Colors.init (λ _, eq_refl)) ].
Defined.

(** * The sellers list and its count *)

Lemma matches_count_query d r :
  matches d (q_filters Sellers.count_query) r = active_seller r.
Proof.
  unfold matches, active_seller. simpl. by rewrite !andb_true_r.
Qed.

Lemma matches_page_query d st r :
  matches d (q_filters (Sellers.page_query st)) r
  = has_email d r && active_seller r.
Proof.
  unfold matches, active_seller, has_email. simpl. by rewrite !andb_true_r.
Qed.

Lemma sellers_page d st :
  Forall (λ r, r ∈ table d "users" ∧ active_seller r = true ∧ has_email d r = true)
    (page_of d (Sellers.page_query st))
  ∧ (length (page_of d (Sellers.page_query st)) ≤ 10)%nat.
Proof.
  split.
  - apply Forall_forall. intros r Hr.
    eapply elem_of_sublist in Hr; [|apply slice_sublist].
    apply elem_of_ordered, elem_of_matching in Hr as [Hin Hm].
    rewrite matches_page_query in Hm. apply andb_true_iff in Hm as [? ?]. done.
  - unfold page_of, slice. simpl. rewrite length_take. unfold itemsPerPage. lia.
Qed.

Lemma sellers_count d :
  length (matching d Sellers.count_query)
  = length (filter (λ r, active_seller r = true) (table d "users")).
Proof.
  unfold matching. f_equal. apply list_filter_iff. intros r.
  by rewrite matches_count_query.
Qed.

(** Property X14.  On the sellers screen, after a load that succeeds: the number
    of items is the number of users of type seller that are not
    soft-deleted, whether or not they have an e-mail row, and the number of
    pages is its ceiling over ten; the list holds at most ten rows, each an
    active seller that has an e-mail row to its id.  So a seller without an
    e-mail row is counted and never listed. *)
Theorem sellers_count_and_list : ∀ st w,
  let st' := (Sellers.loadSellers st w).1 in
  Sellers.error st' = None → sellers_loaded st st' w.
Proof.
  intros st w. cbv zeta. unfold Sellers.loadSellers. run. unfold await_select.
  destruct (outage w (clock w)); [done|].
  destruct (r_error (run_select (db w) Sellers.count_query)) eqn:Hc; [done|].
  cbn -[run_select]. destruct (outage w (clock w + 1)); [done|].
  match goal with |- context [run_select _ ?q0] => set (q := q0) end.
  destruct (r_error (run_select (db w) q)) eqn:He; [done|]. intros _.
  cbn -[run_select]. unfold sellers_loaded. cbn -[run_select].
  rewrite (select_count (db w) Sellers.count_query eq_refl Hc), sellers_count.
  rewrite (select_rows (db w) q eq_refl eq_refl He).
  split_and!; [done|done|apply sellers_page..].
Qed.

Lemma sellers_count_and_list_witness :
  let ann : Row := {[ "id" := VStr "7"; "user_type" := VStr "seller";
                      "is_deleted" := VBool false ]} in
  let w := quiet {[ "users" := [ann] ]} in
  let st' := (Sellers.loadSellers Sellers.init w).1 in
  Sellers.error st' = None
  ∧ sellers_loaded Sellers.init st' w
  ∧ Sellers.totalItems st' = 1 ∧ Sellers.sellers st' = [].
Proof.
  intros ann w st'. pose proof (sellers_count_and_list Sellers.init w) as H.
  cbv zeta in H. split_and!; [settle|apply H; settle|settle..].
Defined.

Lemma invite_refused : no_invite_no_seller.
Proof.
  intros st w Hfail. cbv zeta. unfold issued, Sellers.handleAddSeller. run.
  unfold await_invite. cbn [Sellers.formData Sellers.set_success Sellers.set_error
    Sellers.set_isLoading].
  destruct (outage w (clock w)) eqn:Ho.
  - simpl. rewrite drop_app_length. split_and!; done || discriminate.
  - destruct Hfail as [|Hrej]; [congruence|]. rewrite Hrej. simpl.
    rewrite drop_app_length. split_and!; done || discriminate.
Qed.

Local Opaque violates_unique.

Lemma email_insert_fails : seller_without_email_stays.
Proof.
  intros st w Ho Hrej Ho1 Ho2. cbv zeta. unfold issued, Sellers.handleAddSeller. run.
  unfold await_invite. cbn [Sellers.formData Sellers.set_success Sellers.set_error
    Sellers.set_isLoading].
  rewrite Ho, Hrej. simpl. unfold await_insert. simpl. rewrite Ho1.
  unfold run_insert. rewrite violates_unique_free by done. simpl.
  replace (clock w + 1 + 1) with (clock w + 2) by lia. rewrite Ho2. simpl.
  rewrite <- !app_assoc, drop_app_length.
  replace (clock w + 1 + 1) with (clock w + 2) by lia.
  split_and!; done || discriminate.
Qed.

Local Transparent violates_unique.

(** Property X15.  On the sellers screen nothing is written without an invite, and
    what is written is not undone.  When the invite endpoint is out of
    reach or the auth service turns the address down, the add sends the
    invite and nothing else, changes no table and shows an error.  When the
    invite and the insert of the user row go through and the backend is out
    of reach for the insert of the e-mail row, the user row stays in the
    table, an error is shown, the form stays open and the list is not
    reloaded. *)
Theorem seller_add_in_steps : no_invite_no_seller ∧ seller_without_email_stays.
Proof. split; [exact invite_refused|exact email_insert_fails]. Qed.

Lemma seller_add_in_steps_witness :
  let st := Sellers.set_formData
              {| Sellers.id := None; Sellers.email := "ann@example.com";
                 Sellers.name := "Ann"; Sellers.gender := "female";
                 Sellers.age := 30 |} Sellers.init in
  let down := with_outage (λ t, bool_decide (t = 0)) (quiet ∅) in
  let late := with_outage (λ t, bool_decide (t = 2)) (quiet ∅) in
  (invite_fails st down ∧ db (Sellers.handleAddSeller st down).2 = db down)
  ∧ Sellers.error (Sellers.handleAddSeller st late).1 ≠ None.
Proof.
  intros st down late. destruct seller_add_in_steps as [H1 H2].
  specialize (H1 st down). specialize (H2 st late). cbv zeta in H1, H2.
  split; [split; [by left|apply H1; by left]|].
  apply H2; reflexivity.
Defined.

(** * The logo of a brand *)

Lemma after_last_dot_dotless s cur :
  dotless cur = true → dotless (after_last_dot s cur) = true.
Proof.
  revert cur. induction s as [|c s IH]; intros cur Hcur; [done|]. simpl.
  destruct (Ascii.eqb c ".") eqn:Hc; [by apply IH|]. apply IH.
  clear IH. induction cur as [|d cur IHc]; simpl in *.
  - by rewrite Hc.
  - apply andb_true_iff in Hcur as [-> Hcur]. simpl. by apply IHc.
Qed.

Lemma app_nil_end (s : string) : s +:+ "" = s.
Proof. induction s as [|c s IH]; [done|]. by rewrite app_cons, IH. Qed.

Lemma app_assoc_string (a b c : string) : (a +:+ b) +:+ c = a +:+ (b +:+ c).
Proof. induction a as [|x a IH]; [done|]. by rewrite !app_cons, IH. Qed.

Lemma after_last_dot_plain s cur :
  dotless s = true → after_last_dot s cur = cur +:+ s.
Proof.
  revert cur. induction s as [|c s IH]; intros cur Hs; simpl.
  - by rewrite app_nil_end.
  - simpl in Hs. apply andb_true_iff in Hs as [Hc Hs]. apply negb_true_iff in Hc.
    rewrite Hc, IH by done. by rewrite app_assoc_string.
Qed.

Lemma after_last_dot_ext base ext cur :
  dotless ext = true → after_last_dot (base +:+ String "." ext) cur = ext.
Proof.
  intros Hext. revert cur. induction base as [|c base IH]; intros cur.
  - rewrite app_nil. simpl. by rewrite after_last_dot_plain.
  - rewrite app_cons. simpl. destruct (Ascii.eqb c "."); apply IH.
Qed.

(** Property X17.  The extension under which a logo is stored is what follows the
    last dot of the file's name: it never holds a dot; for a name that ends
    in a dot and a dotless extension it is that extension; and for a name
    without any dot it is the whole name. *)
Theorem file_ext_is_last_segment :
  (∀ name, dotless (file_ext name) = true)
  ∧ (∀ base ext, dotless ext = true → file_ext (base +:+ "." +:+ ext) = ext)
  ∧ (∀ name, dotless name = true → file_ext name = name).
Proof.
  unfold file_ext. split_and!.
  - intros name. by apply after_last_dot_dotless.
  - intros base ext Hext. by apply after_last_dot_ext.
  - intros name Hname. by rewrite after_last_dot_plain.
Qed.

Lemma file_ext_is_last_segment_witness :
  dotless "png" = true ∧ file_ext ("logo.final" +:+ "." +:+ "png") = "png".
Proof.
  split; [reflexivity|].
  apply (proj1 (proj2 file_ext_is_last_segment)). reflexivity.
Defined.

Lemma legacy_load_objects st w :
  objects (BrandsLegacy.loadBrands st w).2 = objects w
  ∧ ∃ more, log (BrandsLegacy.loadBrands st w).2 = log w ++ more.
Proof.
  unfold BrandsLegacy.loadBrands, await_select, toast.error, toast_add.
  run. destruct (outage w (clock w)).
  - simpl. split; [done|]. by eexists.
  - destruct (r_error (run_select _ _)); simpl; (split; [done|]); by eexists.
Qed.

Lemma legacy_insert_objects url st w :
  objects (BrandsLegacy.insert_brand url st w).2 = objects w
  ∧ ∃ more, log (BrandsLegacy.insert_brand url st w).2
            = log w ++ (clock w, RInsert "brands" (BrandsLegacy.add_fields st url)) :: more.
Proof.
  unfold BrandsLegacy.insert_brand, await_insert, toast.error, toast.success, toast_add.
  run. destruct (outage w (clock w)).
  - simpl. split; [done|]. by eexists.
  - destruct (run_insert _ _ _ _ _) as [d|e]; simpl.
    + match goal with |- context [BrandsLegacy.loadBrands ?s ?v] =>
        destruct (legacy_load_objects s v) as [Ho [more Hl]]; rewrite Ho, Hl end.
      simpl. split; [done|]. rewrite <- app_assoc. by eexists.
    + split; [done|]. by eexists.
Qed.

(** Property X16.  On the earlier brands screen an add with a file chosen uploads the
    file first.  When the upload fails, the error toast is raised twice, no
    insert is sent and nothing is stored; when it goes through, the file is
    stored under its name and the insert that follows carries the public
    URL of the stored file. *)
Theorem logo_is_uploaded_before_the_brand : logo_before_brand.
Proof.
  intros st w file Hfile name w'. subst name w'.
  unfold issued, BrandsLegacy.handleAddBrand. rewrite Hfile.
  unfold BrandsLegacy.uploadLogo, random_base36, await_upload, upload_fails, logo_name,
    toast.error, toast_add.
  run. simpl. split.
  - intros Hfail.
    destruct (outage w (clock w)) eqn:Hout; simpl.
    + rewrite <- ?app_assoc, !drop_app_length. done.
    + destruct Hfail as [?|Hin]; [done|].
      rewrite bool_decide_eq_true_2 by done. simpl.
      rewrite <- ?app_assoc, !drop_app_length. done.
  - intros Hok.
    destruct (outage w (clock w)) eqn:Hout; [by destruct Hok; left|].
    rewrite bool_decide_eq_false_2 by (intros Hin; apply Hok; by right).
    simpl.
    match goal with |- context [BrandsLegacy.insert_brand ?u ?s ?v] =>
      destruct (legacy_insert_objects u s v) as [Ho [more Hl]]; rewrite Ho, Hl end.
    simpl. split; [|done].
    exists more. rewrite <- app_assoc, drop_app_length. done.
Qed.

Lemma logo_is_uploaded_before_the_brand_witness :
  let file := {| f_name := "logo.png"; f_type := "image/png"; f_size := 10 |} in
  let st := BrandsLegacy.set_selectedFile (Some file) BrandsLegacy.init in
  let down := with_outage (λ t, bool_decide (t = 0)) (quiet ∅) in
  (upload_fails down file ∧ db (BrandsLegacy.handleAddBrand st down).2 = db down)
  ∧ ¬ upload_fails (quiet ∅) file
  ∧ objects (BrandsLegacy.handleAddBrand st (quiet ∅)).2
    = <[object_key "brand-logos" (logo_name (quiet ∅) file) := file]> (objects (quiet ∅)).
Proof.
  intros file st down.
  destruct (logo_is_uploaded_before_the_brand st down file eq_refl) as [H1 _].
  destruct (logo_is_uploaded_before_the_brand st (quiet ∅) file eq_refl) as [_ H2].
  cbv zeta in H1, H2.
  assert (upload_fails down file) as Hd by (by left).
  assert (¬ upload_fails (quiet ∅) file) as Hq.
  { intros [Ho|[x Hx]]; [vm_compute in Ho; discriminate Ho|].
    vm_compute in Hx. discriminate Hx. }
  split_and!; [exact Hd|apply H1, Hd|exact Hq|apply H2, Hq].
Defined.

(** * Deleting again *)

Lemma mark_deleted_twice id r : mark_deleted id (mark_deleted id r) = mark_deleted id r.
Proof.
  unfold mark_deleted. destruct (bool_decide (cell r "id" = VStr id)) eqn:Hid; simpl.
  - rewrite cell_insert_ne by done. rewrite Hid. apply insert_insert_eq.
  - by rewrite Hid.
Qed.

Lemma mark_deleted_rows_twice id (rows : list Row) :
  mark_deleted id <$> (mark_deleted id <$> rows) = mark_deleted id <$> rows.
Proof.
  induction rows as [|r rows IH]; [done|].
  by rewrite !fmap_cons, IH, mark_deleted_twice.
Qed.

Lemma mark_deleted_strangers id rows :
  Forall (λ r, cell r "id" ≠ VStr id) rows → mark_deleted id <$> rows = rows.
Proof.
  induction 1 as [|r rows Hr _ IH]; [done|]. rewrite fmap_cons, IH. f_equal.
  unfold mark_deleted. by rewrite bool_decide_eq_false_2.
Qed.

Lemma table_insert_same (d : DB) tbl tbl' :
  table (<[tbl := table d tbl]> d) tbl' = table d tbl'.
Proof.
  destruct (decide (tbl = tbl')) as [->|Hne];
    [apply table_insert|by apply table_insert_ne].
Qed.

Lemma delete_settles_intro (L : Listing) :
  delete_sound L → load_sound L →
  (∀ c id st, preserves same_surroundings (l_delete L c id st)) →
  delete_settles L.
Proof.
  intros Hdel Hload Hsur confirm id st st' w Hc Ho. cbv zeta.
  pose proof (delete_marks_intro L Hdel Hload Hsur) as Hm.
  destruct (Hm confirm id st w Hc (Ho _)) as [Hdb1 (Hout & _ & _)].
  destruct (Hm confirm id st' (l_delete L confirm id st w).2 Hc) as [Hdb2 _].
  { rewrite Hout. apply Ho. }
  split.
  - intros tbl. rewrite Hdb2. rewrite Hdb1 at 1. rewrite table_insert.
    rewrite mark_deleted_rows_twice.
    rewrite <- (table_insert (db w) (l_table L)
                  (mark_deleted id <$> table (db w) (l_table L))) at 1.
    rewrite <- Hdb1. apply table_insert_same.
  - intros Hnone tbl. rewrite Hdb1, mark_deleted_strangers by done.
    apply table_insert_same.
Qed.

(** Property X18.  On every screen with a delete, a confirmed delete settles: a
    second delete of the same id changes no table any further, and a delete
    of an id that no row of the table has changes no table at all. *)
Theorem delete_twice_is_delete_once : Forall delete_settles listings.
Proof.
  pose proof listings_delete_sound as Hd. pose proof listings_load_sound as Hl.
  pose proof handlers_keep_surroundings as Hs.
  each.
  - apply delete_settles_intro;
      [exact (Forall_lookup_1 _ _ 0 _ Hd eq_refl)|exact (Forall_lookup_1 _ _ 0 _ Hl eq_refl)|].
    intros c id st. exact (Forall_lookup_1 _ _ 5 _ Hs eq_refl (c, id) st).
  - apply delete_settles_intro;
      [exact (Forall_lookup_1 _ _ 1 _ Hd eq_refl)|exact (Forall_lookup_1 _ _ 1 _ Hl eq_refl)|].
    intros c id st. exact (Forall_lookup_1 _ _ 11 _ Hs eq_refl (c, id) st).
  - apply delete_settles_intro;
      [exact (Forall_lookup_1 _ _ 2 _ Hd eq_refl)|exact (Forall_lookup_1 _ _ 2 _ Hl eq_refl)|].
    intros c id st. exact (Forall_lookup_1 _ _ 45 _ Hs eq_refl (c, id) st).
  - apply delete_settles_intro;
      [exact (Forall_lookup_1 _ _ 3 _ Hd eq_refl)|exact (Forall_lookup_1 _ _ 3 _ Hl eq_refl)|].
    intros c id st. exact (Forall_lookup_1 _ _ 17 _ Hs eq_refl (c, id) st).
  - apply delete_settles_intro;
      [exact (Forall_lookup_1 _ _ 4 _ Hd eq_refl)|exact (Forall_lookup_1 _ _ 4 _ Hl eq_refl)|].
    intros c id st. exact (Forall_lookup_1 _ _ 24 _ Hs eq_refl (c, id) st).
  - apply delete_settles_intro;
      [exact (Forall_lookup_1 _ _ 5 _ Hd eq_refl)|exact (Forall_lookup_1 _ _ 5 _ Hl eq_refl)|].
    intros c id st. exact (Forall_lookup_1 _ _ 30 _ Hs eq_refl (c, id) st).
  - apply delete_settles_intro;
      [exact (Forall_lookup_1 _ _ 6 _ Hd eq_refl)|exact (Forall_lookup_1 _ _ 6 _ Hl eq_refl)|].
    intros c id st. exact (Forall_lookup_1 _ _ 36 _ Hs eq_refl (c, id) st).
  - apply delete_settles_intro;
      [exact (Forall_lookup_1 _ _ 7 _ Hd eq_refl)|exact (Forall_lookup_1 _ _ 7 _ Hl eq_refl)|].
    intros c id st. exact (Forall_lookup_1 _ _ 40 _ Hs eq_refl (c, id) st).
Qed.

Lemma delete_twice_is_delete_once_witness :
  let w := quiet {[ "colors" := [red] ]} in
  let w1 := (Colors.handleDeleteColor (λ _, true) "9" Colors.init w).2 in
  Forall (λ r, cell r "id" ≠ VStr "9") (table (db w) "colors")
  ∧ table (db w1) "colors" = [red].
Proof.
  intros w w1. pose proof delete_twice_is_delete_once as Hall.
  apply (Forall_lookup_1 _ _ 0 color_listing) in Hall; [|reflexivity].
  destruct (Hall (λ _, true) "9" Colors.init Colors.init w) as [_ H];
    [reflexivity|reflexivity|].
  assert (Forall (λ r, cell r "id" ≠ VStr "9") (table (db w) "colors")) as Hn.
  { repeat constructor. intros Hd. vm_compute in Hd. discriminate Hd. }
  split; [exact Hn|]. exact (H Hn "colors").
Defined.

(** * The toast store *)

Global Instance fresh_kept_refl : Reflexive fresh_kept.
Proof. intros w H. exact H. Qed.

Global Instance fresh_kept_trans : Transitive fresh_kept.
Proof. intros w1 w2 w3 H12 H23 H. apply H23, H12, H. Qed.

Lemma fresh_same w w' :
  toasts w' = toasts w → toast_id w' = toast_id w → fresh_kept w w'.
Proof. unfold fresh_kept, toasts_fresh. by intros -> ->. Qed.

Lemma fresh_toast ty msg : preserves fresh_kept (toast_add ty msg).
Proof.
  intros w [Hnd Hlt]. unfold toasts_fresh, toast_add. simpl. split.
  - rewrite fmap_app. simpl. apply NoDup_app. split_and!; [done| |apply NoDup_singleton].
    intros i Hi ->%list_elem_of_singleton.
    apply list_elem_of_fmap in Hi as (t & Ht & Hin).
    rewrite Forall_forall in Hlt. specialize (Hlt t Hin). lia.
  - apply Forall_app. split; [|repeat constructor; simpl; lia].
    eapply Forall_impl; [exact Hlt|]. simpl. intros; lia.
Qed.

Lemma handlers_keep_fresh :
  Forall (λ H, ∀ a st, preserves fresh_kept (h_run H a st)) handlers.
Proof.
  apply handlers_preserve; try apply _; try apply fresh_toast;
    intros; intros w; apply fresh_same;
    unfold await_select, await_single, await_insert, await_update, await_upload,
      await_invite, random_base36;
    repeat first [done | case_match | case_bool_decide].
Qed.

Lemma filter_all {A} (P : A → Prop) `{∀ x, Decision (P x)} (l : list A) :
  Forall P l → filter P l = l.
Proof.
  induction 1 as [|x l Hx _ IH]; [done|]. by rewrite filter_cons_True, IH.
Qed.

Lemma filter_middle {A} (P : A → Prop) `{∀ x, Decision (P x)} (pre post : list A) x :
  ¬ P x → Forall P pre → Forall P post → filter P (pre ++ x :: post) = pre ++ post.
Proof.
  intros Hx Hpre Hpost. rewrite filter_app, filter_cons_False by done.
  f_equal; by apply filter_all.
Qed.

(** Property X19.  Toasts never share an id.  Starting from a store whose toasts
    have ids of their own below the counter (the empty store is one), every
    handler and every timer leaves the store that way; so the timer of a
    toast takes out that toast and no other. *)
Theorem toasts_have_their_own_id : toast_ids_apart.
Proof.
  split_and!.
  - eapply Forall_impl; [apply handlers_keep_fresh|].
    intros H Hk a st w. apply Hk.
  - intros id w [Hnd Hlt]. unfold toasts_fresh, toast_expire. simpl. split.
    + eapply sublist_NoDup; [exact Hnd|]. apply fmap_sublist, sublist_filter.
    + apply Forall_forall. intros t Ht%list_elem_of_filter.
      rewrite Forall_forall in Hlt. apply Hlt, Ht.
  - intros w pre t post [Hnd _] Hw. unfold toast_expire. simpl. rewrite Hw in *.
    rewrite fmap_app, fmap_cons in Hnd.
    apply NoDup_app in Hnd as (_ & Hpre & Hpost).
    apply NoDup_cons in Hpost as [Hpost _].
    apply filter_middle.
    + intros Hne. by apply Hne.
    + apply Forall_forall. intros x Hx Heq. apply (Hpre (toast_ident x)).
      * apply list_elem_of_fmap. by exists x.
      * rewrite Heq. left.
    + apply Forall_forall. intros x Hx Heq. apply Hpost. rewrite <- Heq.
      apply list_elem_of_fmap. by exists x.
Qed.

Lemma toasts_have_their_own_id_witness :
  let H := plain_handler Colors.handleAddColor in
  toasts_fresh (quiet ∅)
  ∧ toasts_fresh (h_run H () Colors.init (quiet ∅)).2.
Proof.
  intros H. assert (toasts_fresh (quiet ∅)) as H0 by (split; constructor).
  split; [exact H0|].
  destruct toasts_have_their_own_id as [Hall _].
  apply (Forall_lookup_1 _ _ 3 H) in Hall; [|reflexivity].
  apply Hall, H0.
Defined.
